(** * libnbd: the issue-command state machine

    A shallow embedding of [generator/states-issue-command.c] and of the
    pieces of the connection handle it works on, followed by the
    properties of the command-issue engine. *)

From Stdlib Require Import ZArith List Bool Lia.
Import ListNotations.
Local Open Scope Z_scope.

(** ** Bytes and byte order *)

(** A byte is an integer in [0, 256). *)
Definition byte := Z.

Definition is_byte (b : Z) : Prop := 0 <= b < 256.

(** The [n] low-order bytes of [x], least significant first. *)
Fixpoint le_bytes (n : nat) (x : Z) : list byte :=
  match n with
  | O => []
  | S k => x mod 256 :: le_bytes k (x / 256)
  end.

(** The [n] low-order bytes of [x], most significant first (network order). *)
Definition be_bytes (n : nat) (x : Z) : list byte := rev (le_bytes n x).

(** The integer whose little-endian representation is [l]. *)
Fixpoint of_le_bytes (l : list byte) : Z :=
  match l with
  | [] => 0
  | b :: t => b + 256 * of_le_bytes t
  end.

(** Byte reversal of an [n]-byte unsigned integer (bswap_16/32/64). *)
Definition bswap (n : nat) (x : Z) : Z := of_le_bytes (rev (le_bytes n x)).

(** [take]/[drop] on byte strings with C-style integer arguments. *)
Definition take (n : Z) (l : list byte) : list byte := firstn (Z.to_nat n) l.
Definition drop (n : Z) (l : list byte) : list byte := skipn (Z.to_nat n) l.

(** ** Protocol constants *)

(** Modelled from the spec: the constants the handlers name are defined in
    headers outside the state-machine file.  The magic is the one of
    sections 3 and 6; the command types are the eight of section 3 with
    their protocol numbers (scenarios S1 and S2 show READ = 0 and
    WRITE = 1). *)
Definition NBD_REQUEST_MAGIC : Z := 0x25609513.

Definition NBD_CMD_READ : Z := 0.
Definition NBD_CMD_WRITE : Z := 1.
Definition NBD_CMD_DISC : Z := 2.
Definition NBD_CMD_FLUSH : Z := 3.
Definition NBD_CMD_TRIM : Z := 4.
Definition NBD_CMD_CACHE : Z := 5.
Definition NBD_CMD_WRITE_ZEROES : Z := 6.
Definition NBD_CMD_BLOCK_STATUS : Z := 7.

(** The send(2) flag announcing that more data follows (Linux value). *)
Definition MSG_MORE : Z := 0x8000.

(** [(uint32_t) x] for an unsigned [x]. *)
Definition uint32_cast (x : Z) : Z := x mod 2 ^ 32.

(** ** Memory: pointers and blocks

    [wbuf] is a pointer that refers either into the handle's own
    [request] structure or into a buffer owned by the caller.  A pointer
    is a block together with a byte offset. *)

Inductive block : Type :=
| BRequest                (* the storage of [h->request] *)
| BData (id : nat).       (* a caller-owned data buffer *)

Inductive ptr : Type :=
| NULL
| Ptr (b : block) (off : Z).

(** Pointer arithmetic on [char *]. *)
Definition ptr_add (p : ptr) (n : Z) : ptr :=
  match p with
  | NULL => NULL
  | Ptr b off => Ptr b (off + n)
  end.

(** Contents of the caller-owned buffers, by block id. *)
Definition memory := nat -> list byte.

(** ** The data model *)

(** Modelled from the spec: [struct command_in_flight], declared outside
    the state-machine file; the fields are those of section 3 that the
    handlers use.  The [next] link is represented by the position of the
    command in the list that holds it: [cmd->next] is the tail of that
    list, and it is non-null exactly when the tail is not empty. *)
Record command_in_flight : Type := mk_command {
  cmd_flags : Z;     (* uint16_t *)
  cmd_type : Z;      (* uint16_t *)
  cmd_handle : Z;    (* 64 bit *)
  cmd_offset : Z;    (* uint64_t *)
  cmd_count : Z;     (* wider than 32 bit: START casts it down *)
  cmd_data : ptr     (* void *data *)
}.

(** Modelled from the spec: [struct nbd_request], declared outside the
    state-machine file, with the layout of sections 3 and 6.  The record
    holds the values of the six fields as host integers.  The structure
    is packed: 4+2+2+8+8+4 = 28 bytes. *)
Record nbd_request : Type := mk_request {
  req_magic : Z;     (* uint32_t *)
  req_flags : Z;     (* uint16_t *)
  req_type : Z;      (* uint16_t *)
  req_handle : Z;    (* uint64_t *)
  req_offset : Z;    (* uint64_t *)
  req_count : Z      (* uint32_t *)
}.

Definition sizeof_request : Z := 28.

(** Modelled from the spec: the connection handle, declared outside the
    state-machine file; these are the fields of section 3 that the issue
    path reads and writes.  The two queues are the lists of their
    members, head first. *)
Record nbd_handle : Type := mk_handle {
  cmds_to_issue : list command_in_flight;
  cmds_in_flight : list command_in_flight;
  request : nbd_request;
  wbuf : ptr;
  wlen : Z;                  (* size_t *)
  wflags : Z;                (* int *)
  in_write_payload : bool
}.

Definition set_cmds_to_issue (h : nbd_handle) (l : list command_in_flight) :=
  mk_handle l (cmds_in_flight h) (request h) (wbuf h) (wlen h) (wflags h)
            (in_write_payload h).
Definition set_cmds_in_flight (h : nbd_handle) (l : list command_in_flight) :=
  mk_handle (cmds_to_issue h) l (request h) (wbuf h) (wlen h) (wflags h)
            (in_write_payload h).
Definition set_request (h : nbd_handle) (r : nbd_request) :=
  mk_handle (cmds_to_issue h) (cmds_in_flight h) r (wbuf h) (wlen h) (wflags h)
            (in_write_payload h).
Definition set_wbuf (h : nbd_handle) (p : ptr) :=
  mk_handle (cmds_to_issue h) (cmds_in_flight h) (request h) p (wlen h)
            (wflags h) (in_write_payload h).
Definition set_wlen (h : nbd_handle) (n : Z) :=
  mk_handle (cmds_to_issue h) (cmds_in_flight h) (request h) (wbuf h) n
            (wflags h) (in_write_payload h).
Definition set_wflags (h : nbd_handle) (f : Z) :=
  mk_handle (cmds_to_issue h) (cmds_in_flight h) (request h) (wbuf h) (wlen h)
            f (in_write_payload h).
Definition set_in_write_payload (h : nbd_handle) (b : bool) :=
  mk_handle (cmds_to_issue h) (cmds_in_flight h) (request h) (wbuf h) (wlen h)
            (wflags h) b.

(** [l != NULL] for a linked list held as a Rocq list. *)
Definition non_null {A : Type} (l : list A) : bool :=
  match l with
  | [] => false
  | _ :: _ => true
  end.

(** The states of the issue machine and the three states outside it that
    its handlers name. *)
Inductive state : Type :=
| ISSUE_COMMAND_START
| ISSUE_COMMAND_SEND_REQUEST
| ISSUE_COMMAND_PAUSE_SEND_REQUEST
| ISSUE_COMMAND_PREPARE_WRITE_PAYLOAD
| ISSUE_COMMAND_SEND_WRITE_PAYLOAD
| ISSUE_COMMAND_PAUSE_WRITE_PAYLOAD
| ISSUE_COMMAND_FINISH
| REPLY_START
| READY
| DEAD.

(** What the socket does when [send] is called on it. *)
Inductive sock_result : Type :=
| SockSent (n : Z)        (* n bytes were accepted *)
| SockAgain               (* EAGAIN / EWOULDBLOCK *)
| SockError.              (* any other error *)

(** Result of entering a state: a failed [assert] aborts; otherwise the
    handler returns [ret], has chosen [next] when it executed
    SET_NEXT_STATE (and [None] when it did not), leaves the handle [hdl]
    and has put [sent] on the socket.  The macro SET_NEXT_STATE itself is
    defined outside the state-machine file; a handler that does not
    execute it names no state. *)
Inductive result : Type :=
| Aborted
| Returned (ret : Z) (next : option state) (hdl : nbd_handle)
           (sent : list byte).

(** ** Sample commands and handles *)

Definition ex_read : command_in_flight :=
  mk_command 0 NBD_CMD_READ 1 0 512 (Ptr (BData 0) 0).

Definition ex_write : command_in_flight :=
  mk_command 0 NBD_CMD_WRITE 2 4096 8 (Ptr (BData 1) 0).

Definition ex_write_zeroes : command_in_flight :=
  mk_command 0 NBD_CMD_WRITE_ZEROES 3 0 8 NULL.

Definition ex_huge : command_in_flight :=
  mk_command 0 NBD_CMD_TRIM 4 0 (2 ^ 32 + 5) NULL.

Definition ex_memory : memory :=
  fun id =>
    match id with
    | 1%nat => [0x11; 0x22; 0x33; 0x44; 0x55; 0x66; 0x77; 0x88]
    | _ => []
    end.

(** A handle as it is when the connection starts issuing: nothing
    written, nothing in flight. *)
Definition ex_handle (q : list command_in_flight) : nbd_handle :=
  mk_handle q [] (mk_request 0 0 0 0 0 0) NULL 0 0 false.

Section Host.

(** Byte order of the machine the library runs on. *)
Variable little_endian : bool.

(** [htobe16], [htobe32], [htobe64] at [n] = 2, 4, 8: the argument is
    converted to the [n]-byte unsigned type, and byte-swapped on a
    little-endian host. *)
Definition htobe (n : nat) (x : Z) : Z :=
  if little_endian then bswap n x else x mod 256 ^ Z.of_nat n.

Definition htobe16 := htobe 2.
Definition htobe32 := htobe 4.
Definition htobe64 := htobe 8.

(** [be64toh] is the same permutation of bytes. *)
Definition be64toh := htobe 8.

(** The bytes an [n]-byte unsigned integer occupies in memory. *)
Definition host_bytes (n : nat) (x : Z) : list byte :=
  if little_endian then le_bytes n x else be_bytes n x.

(** The memory image of [struct nbd_request]. *)
Definition request_bytes (r : nbd_request) : list byte :=
  host_bytes 4 (req_magic r) ++ host_bytes 2 (req_flags r) ++
  host_bytes 2 (req_type r) ++ host_bytes 8 (req_handle r) ++
  host_bytes 8 (req_offset r) ++ host_bytes 4 (req_count r).

(** Reading [n] bytes at [p]. Reads inside a block return its bytes; the
    bounds are the obligation of whoever set the pointer up. *)
Definition load (m : memory) (r : nbd_request) (p : ptr) (n : Z) : list byte :=
  match p with
  | NULL => []
  | Ptr BRequest off => take n (drop off (request_bytes r))
  | Ptr (BData id) off => take n (drop off (m id))
  end.

(** Modelled from the spec: [send_from_wbuf], the non-blocking send
    primitive, whose definition is not in the state-machine file.  Section
    4.2: on success it advances [wbuf] by n and decrements [wlen] by n and
    returns 0 if [wlen] reached 0, 1 otherwise; on would-block it returns
    1 without touching the cursor; on a fatal error it returns -1.
    [wflags] is reset after each drain (section 3).  An empty cursor is
    already drained: the would-block outcome goes with [wlen] still
    positive (section 4.1).  The socket accepts between 0 and [wlen]
    bytes. *)
Definition send_from_wbuf (m : memory) (s : sock_result) (h : nbd_handle)
  : Z * nbd_handle * list byte :=
  if wlen h =? 0 then (0, set_wflags h 0, [])
  else
    match s with
    | SockError => (-1, h, [])
    | SockAgain => (1, h, [])
    | SockSent r =>
        let n := Z.max 0 (Z.min r (wlen h)) in
        let out := load m (request h) (wbuf h) n in
        let h := set_wbuf h (ptr_add (wbuf h) n) in
        let h := set_wlen h (wlen h - n) in
        if wlen h =? 0 then (0, set_wflags h 0, out) else (1, h, out)
    end.

(** ** The state handlers of [states-issue-command.c] *)

Definition enter_ISSUE_COMMAND_START (h : nbd_handle) : result :=
  match cmds_to_issue h with
  | [] => Aborted                     (* assert (h->cmds_to_issue != NULL) *)
  | cmd :: next =>
      if negb (wlen h =? 0) then
        if in_write_payload h then
          Returned 0 (Some ISSUE_COMMAND_SEND_WRITE_PAYLOAD) h []
        else
          Returned 0 (Some ISSUE_COMMAND_SEND_REQUEST) h []
      else
        let h := set_request h
          {| req_magic := htobe32 NBD_REQUEST_MAGIC;
             req_flags := htobe16 (cmd_flags cmd);
             req_type := htobe16 (cmd_type cmd);
             req_handle := htobe64 (cmd_handle cmd);
             req_offset := htobe64 (cmd_offset cmd);
             req_count := htobe32 (uint32_cast (cmd_count cmd)) |} in
        let h := set_wbuf h (Ptr BRequest 0) in
        let h := set_wlen h sizeof_request in
        let h :=
          if (cmd_type cmd =? NBD_CMD_WRITE) || non_null next
          then set_wflags h MSG_MORE else h in
        Returned 0 (Some ISSUE_COMMAND_SEND_REQUEST) h []
  end.

Definition enter_ISSUE_COMMAND_SEND_REQUEST (m : memory) (s : sock_result)
  (h : nbd_handle) : result :=
  match send_from_wbuf m s h with
  | (r, h, out) =>
      if r =? -1 then Returned (-1) (Some DEAD) h out
      else if r =? 0 then
        Returned 0 (Some ISSUE_COMMAND_PREPARE_WRITE_PAYLOAD) h out
      else Returned 0 None h out
  end.

Definition enter_ISSUE_COMMAND_PAUSE_SEND_REQUEST (h : nbd_handle) : result :=
  if wlen h =? 0 then Aborted                       (* assert (h->wlen) *)
  else
    match cmds_to_issue h with
    | [] => Aborted                   (* assert (h->cmds_to_issue != NULL) *)
    | _ :: _ =>
        let h := set_in_write_payload h false in
        Returned 0 (Some REPLY_START) h []
    end.

Definition enter_ISSUE_COMMAND_PREPARE_WRITE_PAYLOAD (h : nbd_handle)
  : result :=
  match cmds_to_issue h with
  | [] => Aborted                     (* assert (h->cmds_to_issue != NULL) *)
  | cmd :: next =>
      if negb (cmd_handle cmd =? be64toh (req_handle (request h)))
      then Aborted
      else if cmd_type cmd =? NBD_CMD_WRITE then
        let h := set_wbuf h (cmd_data cmd) in
        let h := set_wlen h (cmd_count cmd) in
        let h :=
          if non_null next && (cmd_count cmd <? 64 * 1024)
          then set_wflags h MSG_MORE else h in
        Returned 0 (Some ISSUE_COMMAND_SEND_WRITE_PAYLOAD) h []
      else
        Returned 0 (Some ISSUE_COMMAND_FINISH) h []
  end.

Definition enter_ISSUE_COMMAND_SEND_WRITE_PAYLOAD (m : memory)
  (s : sock_result) (h : nbd_handle) : result :=
  match send_from_wbuf m s h with
  | (r, h, out) =>
      if r =? -1 then Returned (-1) (Some DEAD) h out
      else if r =? 0 then Returned 0 (Some ISSUE_COMMAND_FINISH) h out
      else Returned 0 None h out
  end.

Definition enter_ISSUE_COMMAND_PAUSE_WRITE_PAYLOAD (h : nbd_handle) : result :=
  if wlen h =? 0 then Aborted                       (* assert (h->wlen) *)
  else
    match cmds_to_issue h with
    | [] => Aborted                   (* assert (h->cmds_to_issue != NULL) *)
    | _ :: _ =>
        let h := set_in_write_payload h true in
        Returned 0 (Some REPLY_START) h []
    end.

Definition enter_ISSUE_COMMAND_FINISH (h : nbd_handle) : result :=
  if negb (wlen h =? 0) then Aborted                (* assert (!h->wlen) *)
  else
    match cmds_to_issue h with
    | [] => Aborted                   (* assert (h->cmds_to_issue != NULL) *)
    | cmd :: next =>
        if negb (cmd_handle cmd =? be64toh (req_handle (request h)))
        then Aborted
        else
          let h := set_cmds_to_issue h next in
          let h := set_cmds_in_flight h (cmd :: cmds_in_flight h) in
          Returned 0 (Some READY) h []
    end.

(** Entering a state of the issue machine.  The three outer states have
    no handler in this file. *)
Definition enter (q : state) (m : memory) (s : sock_result) (h : nbd_handle)
  : option result :=
  match q with
  | ISSUE_COMMAND_START => Some (enter_ISSUE_COMMAND_START h)
  | ISSUE_COMMAND_SEND_REQUEST => Some (enter_ISSUE_COMMAND_SEND_REQUEST m s h)
  | ISSUE_COMMAND_PAUSE_SEND_REQUEST =>
      Some (enter_ISSUE_COMMAND_PAUSE_SEND_REQUEST h)
  | ISSUE_COMMAND_PREPARE_WRITE_PAYLOAD =>
      Some (enter_ISSUE_COMMAND_PREPARE_WRITE_PAYLOAD h)
  | ISSUE_COMMAND_SEND_WRITE_PAYLOAD =>
      Some (enter_ISSUE_COMMAND_SEND_WRITE_PAYLOAD m s h)
  | ISSUE_COMMAND_PAUSE_WRITE_PAYLOAD =>
      Some (enter_ISSUE_COMMAND_PAUSE_WRITE_PAYLOAD h)
  | ISSUE_COMMAND_FINISH => Some (enter_ISSUE_COMMAND_FINISH h)
  | REPLY_START | READY | DEAD => None
  end.

(** What each handler asserts on entry. *)
Definition handle_matches (h : nbd_handle) : Prop :=
  match cmds_to_issue h with
  | [] => False
  | cmd :: _ => cmd_handle cmd = be64toh (req_handle (request h))
  end.

Definition assertions (q : state) (h : nbd_handle) : Prop :=
  match q with
  | ISSUE_COMMAND_START => cmds_to_issue h <> []
  | ISSUE_COMMAND_PAUSE_SEND_REQUEST
  | ISSUE_COMMAND_PAUSE_WRITE_PAYLOAD => wlen h <> 0 /\ cmds_to_issue h <> []
  | ISSUE_COMMAND_PREPARE_WRITE_PAYLOAD =>
      cmds_to_issue h <> [] /\ handle_matches h
  | ISSUE_COMMAND_FINISH =>
      wlen h = 0 /\ cmds_to_issue h <> [] /\ handle_matches h
  | _ => True
  end.

(** ** The machine around the handlers *)

(** A configuration: the current state, whether the last handler returned
    without choosing a next state (the machine then waits for an event),
    and the handle. *)
Record config : Type := mk_config {
  cfg_state : state;
  cfg_blocked : bool;
  cfg_handle : nbd_handle
}.

Inductive event : Type :=
| Run (s : sock_result)      (* enter the current state; [s] is what the
                                socket answers if the handler sends *)
| NotifyRead                 (* the socket became readable *)
| ReplyDone (retired : list Z) (* the reply path ran to completion and
                                retired the commands with these handles *)
| CmdIssue                   (* an issuing opportunity *)
| Enqueue (cmd : command_in_flight).

Definition retire (retired : list Z) (l : list command_in_flight)
  : list command_in_flight :=
  filter (fun c => negb (existsb (Z.eqb (cmd_handle c)) retired)) l.

(** Modelled from the spec: the dispatcher that moves the connection from
    state to state, which is generated code and not in the state-machine
    file, and the external operations of sections 4.1, 4.3 and 4.4.
    - [Run]: the handler of the current issue state runs; the state it
      chose becomes current, and when it chose none the machine stays
      where it is, blocked.  A failed assertion stops the machine.
    - [NotifyRead]: a send state that would block yields to the reply
      path through its PAUSE state (section 4.1, SEND_REQUEST and
      SEND_WRITE_PAYLOAD); an idle connection starts reading a reply.
    - [ReplyDone]: the reply path, entered at its start state, retires
      in-flight commands by handle and returns to READY; it does not touch
      the request header, the write cursor or the to-issue queue
      (section 4.1, interleaving invariant).
    - [CmdIssue]: from READY with a command to issue, START is entered
      (START's precondition).
    - [Enqueue]: the command is appended to the tail of [cmds_to_issue]
      (section 4.4); a dead connection takes no command (section 7). *)
Definition machine_step (m : memory) (e : event) (c : config)
  : option (config * list byte) :=
  let h := cfg_handle c in
  match e with
  | Run s =>
      match enter (cfg_state c) m s h with
      | None | Some Aborted => None
      | Some (Returned _ (Some q) h' out) => Some (mk_config q false h', out)
      | Some (Returned _ None h' out) =>
          Some (mk_config (cfg_state c) true h', out)
      end
  | NotifyRead =>
      match cfg_state c with
      | ISSUE_COMMAND_SEND_REQUEST =>
          if cfg_blocked c
          then Some (mk_config ISSUE_COMMAND_PAUSE_SEND_REQUEST false h, [])
          else None
      | ISSUE_COMMAND_SEND_WRITE_PAYLOAD =>
          if cfg_blocked c
          then Some (mk_config ISSUE_COMMAND_PAUSE_WRITE_PAYLOAD false h, [])
          else None
      | READY => Some (mk_config REPLY_START false h, [])
      | _ => None
      end
  | ReplyDone retired =>
      match cfg_state c with
      | REPLY_START =>
          Some (mk_config READY false
                  (set_cmds_in_flight h (retire retired (cmds_in_flight h))),
                [])
      | _ => None
      end
  | CmdIssue =>
      match cfg_state c with
      | READY =>
          if non_null (cmds_to_issue h)
          then Some (mk_config ISSUE_COMMAND_START false h, [])
          else None
      | _ => None
      end
  | Enqueue cmd =>
      match cfg_state c with
      | DEAD => None
      | _ =>
          Some (mk_config (cfg_state c) (cfg_blocked c)
                  (set_cmds_to_issue h (cmds_to_issue h ++ [cmd])),
                [])
      end
  end.

(** Running the machine over a sequence of events, collecting the bytes
    put on the socket. *)
Fixpoint run (m : memory) (evs : list event) (c : config)
  : option (config * list byte) :=
  match evs with
  | [] => Some (c, [])
  | e :: evs =>
      match machine_step m e c with
      | None => None
      | Some (c1, out1) =>
          match run m evs c1 with
          | None => None
          | Some (c2, out2) => Some (c2, out1 ++ out2)
          end
      end
  end.

(** The commands enqueued by a sequence of events, in order. *)
Fixpoint enqueued (evs : list event) : list command_in_flight :=
  match evs with
  | [] => []
  | Enqueue cmd :: evs => cmd :: enqueued evs
  | _ :: evs => enqueued evs
  end.

(** ** What goes on the wire *)

(** The 28-byte request header of the protocol, in network byte order. *)
Definition wire_header (cmd : command_in_flight) : list byte :=
  be_bytes 4 NBD_REQUEST_MAGIC ++ be_bytes 2 (cmd_flags cmd) ++
  be_bytes 2 (cmd_type cmd) ++ be_bytes 8 (cmd_handle cmd) ++
  be_bytes 8 (cmd_offset cmd) ++ be_bytes 4 (cmd_count cmd).

(** The [count] bytes of the command's data buffer. *)
Definition payload (m : memory) (cmd : command_in_flight) : list byte :=
  match cmd_data cmd with
  | Ptr (BData id) off => take (cmd_count cmd) (drop off (m id))
  | _ => []
  end.

Definition payload_if_write (m : memory) (cmd : command_in_flight)
  : list byte :=
  if cmd_type cmd =? NBD_CMD_WRITE then payload m cmd else [].

(** The bytes of one command on the wire. *)
Definition frame (m : memory) (cmd : command_in_flight) : list byte :=
  wire_header cmd ++ payload_if_write m cmd.

Definition frames (m : memory) (l : list command_in_flight) : list byte :=
  concat (map (frame m) l).

(** ** Well-formed commands and the invariant of the machine *)

(** A pointer does not point before the start of its block. *)
Definition ptr_ok (p : ptr) : Prop :=
  match p with
  | NULL => True
  | Ptr _ off => 0 <= off
  end.

(** A data pointer is null or points into a caller-owned buffer. *)
Definition data_ptr_ok (p : ptr) : Prop :=
  match p with
  | NULL => True
  | Ptr (BData _) off => 0 <= off
  | Ptr BRequest _ => False
  end.

(** The fields of a command are within their C types. *)
Definition cmd_wf (cmd : command_in_flight) : Prop :=
  0 <= cmd_flags cmd < 2 ^ 16 /\ 0 <= cmd_type cmd < 2 ^ 16 /\
  0 <= cmd_handle cmd < 2 ^ 64 /\ 0 <= cmd_offset cmd < 2 ^ 64 /\
  0 <= cmd_count cmd < 2 ^ 64 /\ data_ptr_ok (cmd_data cmd).

(** For a WRITE, the buffer holds [count] bytes at [data] (section 3). *)
Definition buffer_ok (m : memory) (cmd : command_in_flight) : Prop :=
  cmd_type cmd = NBD_CMD_WRITE ->
  Z.of_nat (length (payload m cmd)) = cmd_count cmd.

Definition event_wf (e : event) : Prop :=
  match e with
  | Enqueue cmd => cmd_wf cmd
  | _ => True
  end.

(** The header START writes for a command. *)
Definition request_of (cmd : command_in_flight) : nbd_request :=
  {| req_magic := htobe32 NBD_REQUEST_MAGIC;
     req_flags := htobe16 (cmd_flags cmd);
     req_type := htobe16 (cmd_type cmd);
     req_handle := htobe64 (cmd_handle cmd);
     req_offset := htobe64 (cmd_offset cmd);
     req_count := htobe32 (uint32_cast (cmd_count cmd)) |}.

(** The request buffer holds the header of the head command. *)
Definition header_ready (h : nbd_handle) : Prop :=
  match cmds_to_issue h with
  | [] => False
  | cmd :: _ => request h = request_of cmd
  end.

(** The cursor is inside the request buffer, [wlen] bytes before its end. *)
Definition header_cursor (h : nbd_handle) : Prop :=
  wbuf h = Ptr BRequest (sizeof_request - wlen h) /\
  0 < wlen h <= sizeof_request.

(** The cursor is inside the head command's data, [wlen] bytes before the
    end of its [count] bytes. *)
Definition payload_cursor (h : nbd_handle) : Prop :=
  match cmds_to_issue h with
  | [] => False
  | cmd :: _ =>
      cmd_type cmd = NBD_CMD_WRITE /\
      wbuf h = ptr_add (cmd_data cmd) (cmd_count cmd - wlen h) /\
      0 <= wlen h <= cmd_count cmd
  end.

(** Between two issue phases: nothing is partially written, or a header or
    a payload is, and [in_write_payload] tells which. *)
Definition parked (h : nbd_handle) : Prop :=
  wlen h = 0 \/
  (header_ready h /\
   ((in_write_payload h = false /\ header_cursor h) \/
    (in_write_payload h = true /\ payload_cursor h /\ 0 < wlen h))).

Definition inv (c : config) : Prop :=
  let h := cfg_handle c in
  Forall cmd_wf (cmds_to_issue h) /\
  match cfg_state c with
  | ISSUE_COMMAND_START => cmds_to_issue h <> [] /\ parked h
  | READY | REPLY_START => parked h
  | ISSUE_COMMAND_SEND_REQUEST
  | ISSUE_COMMAND_PAUSE_SEND_REQUEST => header_ready h /\ header_cursor h
  | ISSUE_COMMAND_PREPARE_WRITE_PAYLOAD
  | ISSUE_COMMAND_FINISH => header_ready h /\ wlen h = 0
  | ISSUE_COMMAND_SEND_WRITE_PAYLOAD =>
      header_ready h /\ payload_cursor h /\
      (cfg_blocked c = true -> 0 < wlen h)
  | ISSUE_COMMAND_PAUSE_WRITE_PAYLOAD =>
      header_ready h /\ payload_cursor h /\ 0 < wlen h
  | DEAD => True
  end.

(** Whenever no write is partial, no send flag is left over. *)
Definition flags_inv (c : config) : Prop :=
  let h := cfg_handle c in
  match cfg_state c with
  | ISSUE_COMMAND_START | READY | REPLY_START
  | ISSUE_COMMAND_PREPARE_WRITE_PAYLOAD
  | ISSUE_COMMAND_FINISH => wlen h = 0 -> wflags h = 0
  | _ => True
  end.

(** A connection that enters START with commands to issue and no write
    under way. *)
Definition fresh_start (c : config) : Prop :=
  cfg_state c = ISSUE_COMMAND_START /\
  cmds_to_issue (cfg_handle c) <> [] /\
  wlen (cfg_handle c) = 0 /\
  Forall cmd_wf (cmds_to_issue (cfg_handle c)).

(** The bytes of the to-issue queue that are not on the wire yet. *)
Definition pending (m : memory) (c : config) : list byte :=
  let h := cfg_handle c in
  match cmds_to_issue h with
  | [] => []
  | cmd :: rest =>
      let cursor := load m (request h) (wbuf h) (wlen h) in
      match cfg_state c with
      | ISSUE_COMMAND_SEND_REQUEST
      | ISSUE_COMMAND_PAUSE_SEND_REQUEST => cursor ++ payload_if_write m cmd
      | ISSUE_COMMAND_PREPARE_WRITE_PAYLOAD => payload_if_write m cmd
      | ISSUE_COMMAND_SEND_WRITE_PAYLOAD
      | ISSUE_COMMAND_PAUSE_WRITE_PAYLOAD => cursor
      | ISSUE_COMMAND_FINISH => []
      | _ =>
          if wlen h =? 0 then frame m cmd
          else if in_write_payload h then cursor
          else cursor ++ payload_if_write m cmd
      end ++ frames m rest
  end.

(** Events that take one command from START to READY when the socket
    accepts whatever it is offered: START, SEND_REQUEST,
    PREPARE_WRITE_PAYLOAD, SEND_WRITE_PAYLOAD for a WRITE, FINISH. *)
Definition drain_one (cmd : command_in_flight) : list event :=
  [Run SockAgain; Run (SockSent sizeof_request); Run SockAgain] ++
  (if cmd_type cmd =? NBD_CMD_WRITE
   then [Run (SockSent (cmd_count cmd))] else []) ++
  [Run SockAgain].

(** The same for a whole queue, with an issuing opportunity between two
    commands. *)
Fixpoint drain (l : list command_in_flight) : list event :=
  match l with
  | [] => []
  | cmd :: rest =>
      drain_one cmd ++
      match rest with
      | [] => []
      | _ :: _ => CmdIssue :: drain rest
      end
  end.

(** A handle stopped in the middle of the header of [ex_read]: 10 bytes
    are out, 18 remain. *)
Definition ex_partial : nbd_handle :=
  mk_handle [ex_read] [] (request_of ex_read) (Ptr BRequest 10) 18 0 false.

(** A handle stopped in the middle of the payload of [ex_write]: 3 bytes
    are out, 5 remain. *)
Definition ex_partial_payload : nbd_handle :=
  mk_handle [ex_write] [] (request_of ex_write) (Ptr (BData 1) 3) 5 0 true.

(** A handle whose header for [cmd] has just been sent in full. *)
Definition ex_header_sent (cmd : command_in_flight) : nbd_handle :=
  mk_handle [cmd] [] (request_of cmd) (Ptr BRequest 28) 0 0 false.

Definition ex_start (q : list command_in_flight) : config :=
  mk_config ISSUE_COMMAND_START false (ex_handle q).

(** ** The transitions of the handlers *)

(** An event by which the reply path retires no command. *)
Definition retires_nothing (e : event) : Prop :=
  match e with
  | ReplyDone (_ :: _) => False
  | _ => True
  end.

(** The next states a handler can select; [None] stands for returning
    without SET_NEXT_STATE. *)
Definition successors (q : state) : list (option state) :=
  match q with
  | ISSUE_COMMAND_START =>
      [Some ISSUE_COMMAND_SEND_REQUEST; Some ISSUE_COMMAND_SEND_WRITE_PAYLOAD]
  | ISSUE_COMMAND_SEND_REQUEST =>
      [Some DEAD; Some ISSUE_COMMAND_PREPARE_WRITE_PAYLOAD; None]
  | ISSUE_COMMAND_PAUSE_SEND_REQUEST => [Some REPLY_START]
  | ISSUE_COMMAND_PREPARE_WRITE_PAYLOAD =>
      [Some ISSUE_COMMAND_SEND_WRITE_PAYLOAD; Some ISSUE_COMMAND_FINISH]
  | ISSUE_COMMAND_SEND_WRITE_PAYLOAD =>
      [Some DEAD; Some ISSUE_COMMAND_FINISH; None]
  | ISSUE_COMMAND_PAUSE_WRITE_PAYLOAD => [Some REPLY_START]
  | ISSUE_COMMAND_FINISH => [Some READY]
  | REPLY_START | READY | DEAD => []
  end.

(** ** The test program [tests/aio-parallel.c] *)

Definition NR_MULTI_CONN : Z := 8.
Definition MAX_IN_FLIGHT : Z := 16.
Definition BUFFERSIZE : Z := 16384.

(** Conversion of an integer to [uint64_t] (and [size_t]), to [int64_t]
    and to [unsigned]. *)
Definition to_uint64 (x : Z) : Z := x mod 2 ^ 64.
Definition to_int64 (x : Z) : Z :=
  let u := x mod 2 ^ 64 in if u <? 2 ^ 63 then u else u - 2 ^ 64.
Definition to_unsigned (x : Z) : Z := x mod 2 ^ 32.

(** [main]: the area assigned to thread [i] and command slot [j],
    [status[i].offset[j]] and [status[i].length[j]].  The offset is
    computed in [size_t], the product wrapping at 2^64; the length is a
    signed 64-bit division, stored in a [uint64_t]. *)
Definition status_offset (exportsize i j : Z) : Z :=
  to_uint64 ((i * MAX_IN_FLIGHT + j) * exportsize)
  / NR_MULTI_CONN / MAX_IN_FLIGHT.

Definition status_length (exportsize : Z) : Z :=
  to_uint64 (Z.quot (Z.quot exportsize NR_MULTI_CONN) MAX_IN_FLIGHT).

(** [start_thread]: the offset of a new request in the area of its slot,
    [status->offset[i] + (rand () % (status->length[i] - BUFFERSIZE))],
    computed in [uint64_t] and stored in an [int64_t].  [rand_value] is
    what [rand ()] returned.  The remainder by zero is undefined: no
    offset then. *)
Definition request_offset (area_offset area_length rand_value : Z)
  : option Z :=
  let d := to_uint64 (area_length - BUFFERSIZE) in
  if d =? 0 then None
  else Some (to_int64 (to_uint64 (area_offset + to_uint64 rand_value mod d))).

(** How a loop over memory ends: normally, by a write outside the
    allocation, or (in the model only) by running out of fuel. *)
Inductive outcome (A : Type) : Type :=
| Finished (a : A)
| Overrun
| OutOfFuel.
Arguments Finished {A} a.
Arguments Overrun {A}.
Arguments OutOfFuel {A}.

(** [memcpy (&mem[dst], src, length src)] into an allocation holding
    [mem]; no result when the copy does not fit. *)
Definition memcpy (mem : list byte) (dst : Z) (src : list byte)
  : option (list byte) :=
  let n := Z.of_nat (length src) in
  if (0 <=? dst) && (dst + n <=? Z.of_nat (length mem))
  then Some (take dst mem ++ src ++ drop (dst + n) mem)
  else None.

(** [main]: the loop that initialises the shadow RAM disk,
    [for (i = 0; i < exportsize; i += 8)
       { uint64_t d = htobe64 (i); memcpy (&ramdisk[i], &d, sizeof d); }],
    from the value [i] on; [ramdisk] is the content of the
    [exportsize] bytes that [malloc] returned. *)
Fixpoint fill_ramdisk (fuel : nat) (exportsize i : Z) (ramdisk : list byte)
  : outcome (list byte) :=
  if i <? to_uint64 exportsize then
    match fuel with
    | O => OutOfFuel
    | S fuel' =>
        let d := htobe64 i in
        match memcpy ramdisk i (host_bytes 8 d) with
        | None => Overrun
        | Some ramdisk' =>
            fill_ramdisk fuel' exportsize (to_uint64 (i + 8)) ramdisk'
        end
    end
  else Finished ramdisk.

(** The pattern of [n] aligned 8-byte words from offset [i] on: each word
    is its own offset in network byte order. *)
Fixpoint pattern_from (i : Z) (n : nat) : list byte :=
  match n with
  | O => []
  | S n' => be_bytes 8 i ++ pattern_from (i + 8) n'
  end.

(** [struct command] of the test: one slot per command in flight.  The
    fields are [buf], [offset], [handle] and [cmd]. *)
Record command : Type := mk_slot {
  c_buf : list byte;     (* char buf[BUFFERSIZE] *)
  c_offset : Z;          (* int64_t, -1 = slot not used *)
  c_handle : Z;          (* int64_t *)
  c_cmd : Z              (* int: 0 = write, 1 = read *)
}.

(** What [start_thread] works on: its row [commands[status->i]] of
    MAX_IN_FLIGHT slots, its counter [in_flight], the counters of
    [status] it updates, and the shadow RAM disk. *)
Record thread : Type := mk_thread {
  commands : list command;
  in_flight : Z;            (* size_t *)
  requests : Z;             (* unsigned *)
  most_in_flight : Z;       (* unsigned *)
  bytes_sent : Z;           (* uint64_t *)
  bytes_received : Z;       (* uint64_t *)
  ramdisk : list byte
}.

(** How a piece of the thread's loop ends. *)
Inductive step (A : Type) : Type :=
| Continue (a : A)        (* the loop goes on *)
| GotoError               (* [goto error]: the thread fails *)
| AssertFailed            (* [assert (i < MAX_IN_FLIGHT)] *)
| Undefined.              (* remainder by zero, access out of bounds *)
Arguments Continue {A} a.
Arguments GotoError {A}.
Arguments AssertFailed {A}.
Arguments Undefined {A}.

(** [for (i = 0; i < MAX_IN_FLIGHT; ++i) commands[status->i][i].offset = -1] *)
Definition clear_slots (l : list command) : list command :=
  map (fun c => mk_slot (c_buf c) (-1) (c_handle c) (c_cmd c)) l.

(** The search for a free slot,
    [for (i = 0; i < MAX_IN_FLIGHT; ++i) if (commands[...][i].offset == -1) break;]
    on a row of MAX_IN_FLIGHT slots: the index of the first free slot, or
    the length of the row. *)
Fixpoint free_slot (l : list command) : nat :=
  match l with
  | [] => O
  | c :: l' => if c_offset c =? -1 then O else S (free_slot l')
  end.

(** Assignment to [commands[...][i]]. *)
Definition set_slot (l : list command) (i : nat) (c : command)
  : list command :=
  firstn i l ++ c :: skipn (S i) l.

(** The issue of one request (the body of "if we can issue another
    request, do so").  [area_offset] and [area_length] are
    [status->offset] and [status->length]; [rand1] and [rand2] are what
    the two calls of [rand ()] return and [handle] what [nbd_aio_pwrite]
    or [nbd_aio_pread] returns. *)
Definition issue_request (area_offset area_length : nat -> Z)
  (rand1 rand2 handle : Z) (t : thread) : step thread :=
  let i := free_slot (commands t) in
  if negb (Z.of_nat i <? MAX_IN_FLIGHT) then AssertFailed
  else
    match nth_error (commands t) i with
    | None => Undefined
    | Some slot =>
        let buf := c_buf slot in
        match request_offset (area_offset i) (area_length i) rand1 with
        | None => Undefined
        | Some offset =>
            let cmd := Z.land rand2 1 in
            let called :=
              if cmd =? 0 then
                match memcpy (ramdisk t) offset (take BUFFERSIZE buf) with
                | None => None
                | Some rd =>
                    Some (mk_thread (commands t) (in_flight t) (requests t)
                            (most_in_flight t)
                            (to_uint64 (bytes_sent t + BUFFERSIZE))
                            (bytes_received t) rd)
                end
              else
                Some (mk_thread (commands t) (in_flight t) (requests t)
                        (most_in_flight t) (bytes_sent t)
                        (to_uint64 (bytes_received t + BUFFERSIZE))
                        (ramdisk t)) in
            match called with
            | None => Undefined
            | Some t1 =>
                if handle =? -1 then GotoError
                else
                  let n := to_uint64 (in_flight t1 + 1) in
                  Continue
                    (mk_thread
                       (set_slot (commands t1) i
                          (mk_slot buf offset handle cmd))
                       n (requests t1)
                       (if most_in_flight t1 <? n then to_unsigned n
                        else most_in_flight t1)
                       (bytes_sent t1) (bytes_received t1) (ramdisk t1))
            end
        end
    end.

(** The guard around it: [want_to_send], the socket writable, the
    connection ready. *)
Definition issue_if_possible (area_offset area_length : nat -> Z)
  (expired pollout ready : bool) (rand1 rand2 handle : Z) (t : thread)
  : step thread :=
  let want_to_send := negb expired && (in_flight t <? MAX_IN_FLIGHT) in
  if want_to_send && pollout && ready
  then issue_request area_offset area_length rand1 rand2 handle t
  else Continue t.

Fixpoint bytes_eqb (a b : list byte) : bool :=
  match a, b with
  | [], [] => true
  | x :: a', y :: b' => (x =? y) && bytes_eqb a' b'
  | _, _ => false
  end.

(** [memcmp (&mem[at], buf, BUFFERSIZE) != 0]; no result when the range
    is not inside [mem]. *)
Definition memcmp_differs (mem : list byte) (at_ : Z) (buf : list byte)
  : option bool :=
  if (0 <=? at_) && (at_ + BUFFERSIZE <=? Z.of_nat (length mem))
  then Some (negb (bytes_eqb (take BUFFERSIZE (drop at_ mem))
                             (take BUFFERSIZE buf)))
  else None.

(** The loop "if a command is ready to retire, retire it", from slot [i]
    on.  [completed j] is what [nbd_aio_command_completed] returns for
    the command of slot [j]. *)
Fixpoint retire_from (completed : nat -> Z) (rd : list byte) (i : nat)
  (l : list command) (nflight nrequests : Z)
  : step (list command * Z * Z) :=
  match l with
  | [] => Continue ([], nflight, nrequests)
  | slot :: l' =>
      let keep nf nr slot' :=
        match retire_from completed rd (S i) l' nf nr with
        | Continue (l'', nf', nr') => Continue (slot' :: l'', nf', nr')
        | GotoError => GotoError
        | AssertFailed => AssertFailed
        | Undefined => Undefined
        end in
      if 0 <=? c_offset slot then
        let r := completed i in
        if r =? -1 then GotoError
        else if negb (r =? 0) then
          match (if c_cmd slot =? 1
                 then memcmp_differs rd (c_offset slot) (c_buf slot)
                 else Some false) with
          | None => Undefined
          | Some true => GotoError
          | Some false =>
              keep (to_uint64 (nflight - 1)) (to_unsigned (nrequests + 1))
                   (mk_slot (c_buf slot) (-1) (c_handle slot) (c_cmd slot))
          end
        else keep nflight nrequests slot
      else keep nflight nrequests slot
  end.

Definition retire_commands (completed : nat -> Z) (t : thread)
  : step thread :=
  match retire_from completed (ramdisk t) 0 (commands t) (in_flight t)
          (requests t) with
  | Continue (l, nf, nr) =>
      Continue (mk_thread l nf nr (most_in_flight t) (bytes_sent t)
                  (bytes_received t) (ramdisk t))
  | GotoError => GotoError
  | AssertFailed => AssertFailed
  | Undefined => Undefined
  end.

(** A slot is in use when its offset is not negative. *)
Definition used (c : command) : bool := 0 <=? c_offset c.

Definition count_used (l : list command) : Z :=
  Z.of_nat (length (filter used l)).

(** A slot as the thread leaves it: its buffer has BUFFERSIZE bytes and
    it is free ([offset = -1]) or in use ([offset >= 0]). *)
Definition slot_ok (c : command) : Prop :=
  Z.of_nat (length (c_buf c)) = BUFFERSIZE /\
  (c_offset c = -1 \/ 0 <= c_offset c).

(** The bookkeeping of the slots: there are MAX_IN_FLIGHT of them and
    [in_flight] counts those in use. *)
Definition slots_ok (t : thread) : Prop :=
  Z.of_nat (length (commands t)) = MAX_IN_FLIGHT /\
  Forall slot_ok (commands t) /\
  in_flight t = count_used (commands t).

(** A slot that has been retired. *)
Definition freed (c : command) : command :=
  mk_slot (c_buf c) (-1) (c_handle c) (c_cmd c).

(** The areas handed to a thread are usable: each is larger than a
    request and lies inside the shadow RAM disk. *)
Definition areas_ok (area_offset area_length : nat -> Z) (t : thread)
  : Prop :=
  Z.of_nat (length (ramdisk t)) < 2 ^ 63 /\
  forall i, (i < 16)%nat ->
    0 <= area_offset i /\ BUFFERSIZE < area_length i /\
    area_offset i + area_length i <= Z.of_nat (length (ramdisk t)).

(** What the environment supplies in one turn of the thread's loop: the
    clock, [poll], the library and [rand ()]. *)
Record inputs : Type := mk_inputs {
  in_expired : bool;
  in_pollout : bool;
  in_ready : bool;
  in_rand1 : Z;
  in_rand2 : Z;
  in_handle : Z;
  in_completed : nat -> Z
}.

(** One turn of the loop: the guarded issue, then the retirement loop.
    [in_expired] is the flag [expired] after the clock was read.  What
    comes before in the turn (the connection dead or closed, [poll]
    failing, the notifications to the library) changes nothing of the
    thread's own data and can only leave by [goto error]. *)
Definition round (area_offset area_length : nat -> Z) (x : inputs)
  (t : thread) : step thread :=
  match issue_if_possible area_offset area_length (in_expired x)
          (in_pollout x) (in_ready x) (in_rand1 x) (in_rand2 x)
          (in_handle x) t with
  | Continue t1 => retire_commands (in_completed x) t1
  | GotoError => GotoError
  | AssertFailed => AssertFailed
  | Undefined => Undefined
  end.

Fixpoint rounds (area_offset area_length : nat -> Z) (xs : list inputs)
  (t : thread) : step thread :=
  match xs with
  | [] => Continue t
  | x :: xs' =>
      match round area_offset area_length x t with
      | Continue t1 => rounds area_offset area_length xs' t1
      | GotoError => GotoError
      | AssertFailed => AssertFailed
      | Undefined => Undefined
      end
  end.

(** The thread as it enters its loop: every slot marked unused, nothing
    in flight, the counters of [status] zeroed by [main]. *)
Definition thread_start (l : list command) (rd : list byte) : thread :=
  mk_thread (clear_slots l) 0 0 0 0 0 rd.

(** The request of a slot in use lies inside a disk of [n] bytes. *)
Definition in_disk (n : Z) (c : command) : Prop :=
  used c = true -> c_offset c + BUFFERSIZE <= n.

(** ** Samples for the test program *)

(** A READ whose count agrees with that of [ex_read] modulo 2^32. *)
Definition ex_read_far : command_in_flight :=
  mk_command 0 NBD_CMD_READ 1 0 (2 ^ 32 + 512) (Ptr (BData 0) 0).

Definition ex_buf : list byte := repeat 0 (Z.to_nat BUFFERSIZE).
Definition ex_disk : list byte := repeat 0 (Z.to_nat 20000).

Definition ex_free : command := mk_slot ex_buf (-1) 0 0.

(** A slot holding a write at offset 100 with handle 7. *)
Definition ex_busy : command := mk_slot ex_buf 100 7 0.

(** A thread with one command in flight. *)
Definition ex_thread : thread :=
  mk_thread (ex_busy :: repeat ex_free 15) 1 0 1 BUFFERSIZE 0 ex_disk.

Definition ex_area_offset : nat -> Z := fun _ => 0.
Definition ex_area_length : nat -> Z := fun _ => 20000.

(** * Properties *)

(** ** Bytes and byte order *)

Lemma le_bytes_length (n : nat) (x : Z) : length (le_bytes n x) = n.
Proof.
  revert x; induction n as [|n IH]; intros x; simpl; [reflexivity|].
  now rewrite IH.
Qed.

Lemma be_bytes_length (n : nat) (x : Z) : length (be_bytes n x) = n.
Proof. unfold be_bytes. now rewrite length_rev, le_bytes_length. Qed.

Lemma le_bytes_is_byte (n : nat) (x : Z) : Forall is_byte (le_bytes n x).
Proof.
  revert x; induction n as [|n IH]; intros x; simpl; constructor.
  - unfold is_byte. apply Z.mod_pos_bound. lia.
  - apply IH.
Qed.

Lemma le_bytes_of_le_bytes (l : list byte) :
  Forall is_byte l -> le_bytes (length l) (of_le_bytes l) = l.
Proof.
  induction 1 as [|b t Hb _ IH]; [reflexivity|].
  unfold is_byte in Hb. cbn [length le_bytes of_le_bytes].
  assert (Hm : (b + 256 * of_le_bytes t) mod 256 = b).
  { rewrite (Z.mul_comm 256), Z.mod_add by lia. apply Z.mod_small; lia. }
  assert (Hd : (b + 256 * of_le_bytes t) / 256 = of_le_bytes t).
  { rewrite (Z.mul_comm 256), Z.div_add by lia.
    rewrite Z.div_small by lia. reflexivity. }
  rewrite Hm, Hd, IH. reflexivity.
Qed.

Lemma of_le_bytes_le_bytes (n : nat) (x : Z) :
  of_le_bytes (le_bytes n x) = x mod 256 ^ Z.of_nat n.
Proof.
  revert x; induction n as [|n IH]; intros x.
  - simpl. now rewrite Z.mod_1_r.
  - cbn [le_bytes of_le_bytes]. rewrite IH.
    rewrite Nat2Z.inj_succ, Z.pow_succ_r by lia.
    rewrite Z.rem_mul_r by lia. reflexivity.
Qed.

Lemma le_bytes_mod (n : nat) (x : Z) :
  le_bytes n (x mod 256 ^ Z.of_nat n) = le_bytes n x.
Proof.
  rewrite <- of_le_bytes_le_bytes.
  rewrite <- (le_bytes_length n x) at 1.
  apply le_bytes_of_le_bytes, le_bytes_is_byte.
Qed.

Lemma be_bytes_mod (n : nat) (x : Z) :
  be_bytes n (x mod 256 ^ Z.of_nat n) = be_bytes n x.
Proof. unfold be_bytes. now rewrite le_bytes_mod. Qed.

(** Whatever the host, a value stored through [htobe] lies in memory in
    network order. *)
Lemma host_bytes_htobe (n : nat) (x : Z) :
  host_bytes n (htobe n x) = be_bytes n x.
Proof.
  unfold host_bytes, htobe. destruct little_endian.
  - unfold bswap, be_bytes.
    rewrite <- (le_bytes_length n x) at 1. rewrite <- length_rev.
    apply le_bytes_of_le_bytes, Forall_rev, le_bytes_is_byte.
  - apply be_bytes_mod.
Qed.

Lemma htobe_involutive (n : nat) (x : Z) :
  htobe n (htobe n x) = x mod 256 ^ Z.of_nat n.
Proof.
  unfold htobe. destruct little_endian.
  - unfold bswap at 1. unfold bswap.
    rewrite <- (le_bytes_length n x) at 1. rewrite <- length_rev.
    rewrite le_bytes_of_le_bytes
      by apply Forall_rev, le_bytes_is_byte.
    rewrite rev_involutive. apply of_le_bytes_le_bytes.
  - apply Z.mod_mod. apply Z.pow_nonzero; lia.
Qed.

Lemma be64toh_htobe64 (x : Z) :
  0 <= x < 2 ^ 64 -> be64toh (htobe64 x) = x.
Proof.
  intros Hx. unfold be64toh, htobe64. rewrite htobe_involutive.
  apply Z.mod_small. change (256 ^ Z.of_nat 8) with (2 ^ 64). exact Hx.
Qed.

(** ** The header in memory and reads through the cursor *)

Lemma wire_header_length (cmd : command_in_flight) :
  length (wire_header cmd) = 28%nat.
Proof.
  unfold wire_header. repeat rewrite length_app.
  repeat rewrite be_bytes_length. reflexivity.
Qed.

(** The memory image of the header START writes is the wire header. *)
Lemma request_bytes_request_of (cmd : command_in_flight) :
  request_bytes (request_of cmd) = wire_header cmd.
Proof.
  unfold request_bytes, request_of, wire_header; cbn [req_magic req_flags
    req_type req_handle req_offset req_count].
  unfold htobe16, htobe32, htobe64. rewrite !host_bytes_htobe.
  unfold uint32_cast. change (2 ^ 32) with (256 ^ Z.of_nat 4).
  rewrite be_bytes_mod. reflexivity.
Qed.

Lemma firstn_plus (a b : nat) (l : list byte) :
  firstn (a + b) l = firstn a l ++ firstn b (skipn a l).
Proof.
  revert l; induction a as [|a IH]; intros l; [reflexivity|].
  destruct l as [|x l]; simpl.
  - now rewrite firstn_nil.
  - now rewrite IH.
Qed.

Lemma take_plus (a b : Z) (l : list byte) :
  0 <= a -> 0 <= b -> take (a + b) l = take a l ++ take b (drop a l).
Proof.
  intros Ha Hb. unfold take, drop.
  rewrite Z2Nat.inj_add by assumption. apply firstn_plus.
Qed.

Lemma drop_plus (a b : Z) (l : list byte) :
  0 <= a -> 0 <= b -> drop (a + b) l = drop b (drop a l).
Proof.
  intros Ha Hb. unfold drop.
  rewrite Z2Nat.inj_add by assumption.
  rewrite skipn_skipn. f_equal. lia.
Qed.

Lemma take_all (n : Z) (l : list byte) :
  Z.of_nat (length l) <= n -> take n l = l.
Proof. intros H. unfold take. apply firstn_all2. lia. Qed.

Lemma load_zero (m : memory) (r : nbd_request) (p : ptr) :
  load m r p 0 = [].
Proof. destruct p as [|[|id] off]; reflexivity. Qed.

(** Reading [a + b] bytes is reading [a] bytes and then [b] more. *)
Lemma load_split (m : memory) (r : nbd_request) (p : ptr) (a b : Z) :
  ptr_ok p -> 0 <= a -> 0 <= b ->
  load m r p (a + b) = load m r p a ++ load m r (ptr_add p a) b.
Proof.
  intros Hp Ha Hb. destruct p as [|[|id] off]; cbn [load ptr_add ptr_ok] in *.
  - reflexivity.
  - rewrite take_plus, drop_plus by assumption. reflexivity.
  - rewrite take_plus, drop_plus by assumption. reflexivity.
Qed.

Lemma load_request_of (m : memory) (cmd : command_in_flight) :
  load m (request_of cmd) (Ptr BRequest 0) sizeof_request = wire_header cmd.
Proof.
  cbn [load]. rewrite request_bytes_request_of.
  unfold drop; cbn [Z.to_nat skipn]. apply take_all.
  rewrite wire_header_length. unfold sizeof_request. lia.
Qed.

Lemma load_data (m : memory) (r : nbd_request) (cmd : command_in_flight) :
  data_ptr_ok (cmd_data cmd) ->
  load m r (cmd_data cmd) (cmd_count cmd) = payload m cmd.
Proof.
  unfold payload. destruct (cmd_data cmd) as [|[|id] off]; cbn; tauto.
Qed.

Lemma ptr_add_0 (p : ptr) : ptr_add p 0 = p.
Proof. destruct p; cbn; [reflexivity|]. now rewrite Z.add_0_r. Qed.

Lemma ptr_add_add (p : ptr) (a b : Z) :
  ptr_add (ptr_add p a) b = ptr_add p (a + b).
Proof. destruct p; cbn; [reflexivity|]. f_equal. lia. Qed.

Lemma ptr_ok_add (p : ptr) (a : Z) : ptr_ok p -> 0 <= a -> ptr_ok (ptr_add p a).
Proof. destruct p; cbn; [tauto|lia]. Qed.

Lemma data_ptr_ok_ptr_ok (p : ptr) : data_ptr_ok p -> ptr_ok p.
Proof. destruct p as [|[|id] off]; cbn; tauto. Qed.

Lemma frames_app (m : memory) (l1 l2 : list command_in_flight) :
  frames m (l1 ++ l2) = frames m l1 ++ frames m l2.
Proof. unfold frames. now rewrite map_app, concat_app. Qed.

Lemma frames_cons (m : memory) (cmd : command_in_flight)
  (l : list command_in_flight) :
  frames m (cmd :: l) = frame m cmd ++ frames m l.
Proof. reflexivity. Qed.

(** A well-formed WRITE occupies 28 + count bytes, any other command 28. *)
Lemma frame_length (m : memory) (cmd : command_in_flight) :
  buffer_ok m cmd ->
  Z.of_nat (length (frame m cmd)) =
  sizeof_request + (if cmd_type cmd =? NBD_CMD_WRITE then cmd_count cmd else 0).
Proof.
  intros Hb. unfold frame, payload_if_write.
  rewrite length_app, wire_header_length, Nat2Z.inj_add.
  unfold sizeof_request. destruct (Z.eqb_spec (cmd_type cmd) NBD_CMD_WRITE).
  - rewrite Hb by assumption. reflexivity.
  - reflexivity.
Qed.

(** ** The send primitive *)

(** The three outcomes of [send_from_wbuf] on a cursor with [wlen >= 0]:
    some [n] bytes between 0 and [wlen] leave through the socket, the
    cursor moves by [n], nothing else in the handle changes except
    [wflags], which is cleared on a complete drain. *)
Lemma send_from_wbuf_spec (m : memory) (s : sock_result) (h : nbd_handle) :
  0 <= wlen h ->
  exists n r f,
    send_from_wbuf m s h =
      (r,
       mk_handle (cmds_to_issue h) (cmds_in_flight h) (request h)
         (ptr_add (wbuf h) n) (wlen h - n) f (in_write_payload h),
       load m (request h) (wbuf h) n) /\
    0 <= n <= wlen h /\
    ((r = 0 /\ n = wlen h /\ f = 0) \/
     (r = 1 /\ n < wlen h /\ f = wflags h) \/
     (r = -1 /\ n = 0 /\ 0 < wlen h /\ f = wflags h /\ s = SockError)).
Proof.
  intros Hw. unfold send_from_wbuf.
  destruct (Z.eqb_spec (wlen h) 0) as [H0|H0].
  - exists 0, 0, 0. rewrite load_zero, ptr_add_0, H0.
    split; [destruct h; cbn in *; subst; reflexivity|]. split; [lia|].
    left. auto.
  - destruct s as [r| |].
    + set (n := Z.max 0 (Z.min r (wlen h))).
      assert (Hn : 0 <= n <= wlen h) by lia.
      cbn [wlen set_wlen set_wbuf].
      destruct (Z.eqb_spec (wlen h - n) 0) as [Hd|Hd].
      * exists n, 0, 0. split; [reflexivity|]. split; [lia|].
        left. repeat split; lia.
      * exists n, 1, (wflags h). split; [reflexivity|]. split; [lia|].
        right; left. repeat split; lia.
    + exists 0, 1, (wflags h). rewrite load_zero, ptr_add_0, Z.sub_0_r.
      split; [destruct h; reflexivity|]. split; [lia|].
      right; left. repeat split; lia.
    + exists 0, (-1), (wflags h). rewrite load_zero, ptr_add_0, Z.sub_0_r.
      split; [destruct h; reflexivity|]. split; [lia|].
      right; right. repeat split; lia.
Qed.

(** The queues are out of reach of the send primitive. *)
Lemma send_from_wbuf_queues (m : memory) (s : sock_result) (h : nbd_handle) :
  let h' := snd (fst (send_from_wbuf m s h)) in
  cmds_to_issue h' = cmds_to_issue h /\
  cmds_in_flight h' = cmds_in_flight h /\
  request h' = request h /\
  in_write_payload h' = in_write_payload h.
Proof.
  unfold send_from_wbuf. destruct (wlen h =? 0); [cbn; tauto|].
  destruct s as [r| |]; try (cbn; tauto).
  cbn [wlen set_wlen set_wbuf].
  destruct (wlen h - Z.max 0 (Z.min r (wlen h)) =? 0); cbn; tauto.
Qed.

(** ** The handlers, case by case *)

Ltac simpl_cfg :=
  cbn [cfg_state cfg_handle cfg_blocked cmds_to_issue cmds_in_flight request
       wbuf wlen wflags in_write_payload] in *.

Ltac simpl_handle :=
  unfold set_cmds_to_issue, set_cmds_in_flight, set_request, set_wbuf,
    set_wlen, set_wflags, set_in_write_payload in *;
  cbn [cmds_to_issue cmds_in_flight request wbuf wlen wflags
       in_write_payload] in *.

Lemma START_fresh (h : nbd_handle) (cmd : command_in_flight)
  (next : list command_in_flight) :
  cmds_to_issue h = cmd :: next -> wlen h = 0 ->
  enter_ISSUE_COMMAND_START h =
  Returned 0 (Some ISSUE_COMMAND_SEND_REQUEST)
    (mk_handle (cmd :: next) (cmds_in_flight h) (request_of cmd)
       (Ptr BRequest 0) sizeof_request
       (if (cmd_type cmd =? NBD_CMD_WRITE) || non_null next
        then MSG_MORE else wflags h)
       (in_write_payload h)) [].
Proof.
  intros Hq Hw. unfold enter_ISSUE_COMMAND_START. rewrite Hq, Hw. cbn.
  destruct ((cmd_type cmd =? NBD_CMD_WRITE) || non_null next);
    simpl_handle; rewrite Hq; reflexivity.
Qed.

Lemma START_resume (h : nbd_handle) :
  cmds_to_issue h <> [] -> wlen h <> 0 ->
  enter_ISSUE_COMMAND_START h =
  Returned 0
    (Some (if in_write_payload h then ISSUE_COMMAND_SEND_WRITE_PAYLOAD
           else ISSUE_COMMAND_SEND_REQUEST)) h [].
Proof.
  intros Hq Hw. unfold enter_ISSUE_COMMAND_START.
  destruct (cmds_to_issue h); [congruence|].
  apply Z.eqb_neq in Hw. rewrite Hw. cbn.
  destruct (in_write_payload h); reflexivity.
Qed.

Lemma PAUSE_SEND_REQUEST_ok (h : nbd_handle) :
  wlen h <> 0 -> cmds_to_issue h <> [] ->
  enter_ISSUE_COMMAND_PAUSE_SEND_REQUEST h =
  Returned 0 (Some REPLY_START) (set_in_write_payload h false) [].
Proof.
  intros Hw Hq. unfold enter_ISSUE_COMMAND_PAUSE_SEND_REQUEST.
  apply Z.eqb_neq in Hw. rewrite Hw.
  destruct (cmds_to_issue h); [congruence|reflexivity].
Qed.

Lemma PAUSE_WRITE_PAYLOAD_ok (h : nbd_handle) :
  wlen h <> 0 -> cmds_to_issue h <> [] ->
  enter_ISSUE_COMMAND_PAUSE_WRITE_PAYLOAD h =
  Returned 0 (Some REPLY_START) (set_in_write_payload h true) [].
Proof.
  intros Hw Hq. unfold enter_ISSUE_COMMAND_PAUSE_WRITE_PAYLOAD.
  apply Z.eqb_neq in Hw. rewrite Hw.
  destruct (cmds_to_issue h); [congruence|reflexivity].
Qed.

Lemma PREPARE_WRITE_PAYLOAD_ok (h : nbd_handle) (cmd : command_in_flight)
  (next : list command_in_flight) :
  cmds_to_issue h = cmd :: next ->
  cmd_handle cmd = be64toh (req_handle (request h)) ->
  enter_ISSUE_COMMAND_PREPARE_WRITE_PAYLOAD h =
  if cmd_type cmd =? NBD_CMD_WRITE then
    Returned 0 (Some ISSUE_COMMAND_SEND_WRITE_PAYLOAD)
      (mk_handle (cmd :: next) (cmds_in_flight h) (request h)
         (cmd_data cmd) (cmd_count cmd)
         (if non_null next && (cmd_count cmd <? 64 * 1024)
          then MSG_MORE else wflags h)
         (in_write_payload h)) []
  else Returned 0 (Some ISSUE_COMMAND_FINISH) h [].
Proof.
  intros Hq Hh. unfold enter_ISSUE_COMMAND_PREPARE_WRITE_PAYLOAD.
  rewrite Hq. apply Z.eqb_eq in Hh. rewrite Hh. cbn [negb].
  destruct (cmd_type cmd =? NBD_CMD_WRITE); [|reflexivity].
  destruct (non_null next && (cmd_count cmd <? 64 * 1024));
    simpl_handle; rewrite Hq; reflexivity.
Qed.

Lemma FINISH_ok (h : nbd_handle) (cmd : command_in_flight)
  (next : list command_in_flight) :
  wlen h = 0 -> cmds_to_issue h = cmd :: next ->
  cmd_handle cmd = be64toh (req_handle (request h)) ->
  enter_ISSUE_COMMAND_FINISH h =
  Returned 0 (Some READY)
    (mk_handle next (cmd :: cmds_in_flight h) (request h) (wbuf h) (wlen h)
       (wflags h) (in_write_payload h)) [].
Proof.
  intros Hw Hq Hh. unfold enter_ISSUE_COMMAND_FINISH.
  rewrite Hw, Hq. apply Z.eqb_eq in Hh. rewrite Hh. cbn.
  simpl_handle. rewrite Hw. reflexivity.
Qed.

(** A handler aborts exactly when one of its assertions fails. *)
Lemma enter_aborts (q : state) (m : memory) (s : sock_result)
  (h : nbd_handle) :
  enter q m s h = Some Aborted <-> ~ assertions q h /\
    q <> REPLY_START /\ q <> READY /\ q <> DEAD.
Proof.
  destruct q; cbn [enter assertions].
  - unfold enter_ISSUE_COMMAND_START.
    destruct (cmds_to_issue h) eqn:Hq.
    + split; [intros _; repeat split; congruence | reflexivity].
    + split; [|intros [H _]; exfalso; apply H; congruence].
      destruct (negb (wlen h =? 0)); [destruct (in_write_payload h)|];
        discriminate.
  - unfold enter_ISSUE_COMMAND_SEND_REQUEST.
    destruct (send_from_wbuf m s h) as [[r h'] out].
    split; [|tauto].
    destruct (r =? -1); [discriminate|]. destruct (r =? 0); discriminate.
  - unfold enter_ISSUE_COMMAND_PAUSE_SEND_REQUEST.
    destruct (Z.eqb_spec (wlen h) 0) as [Hw|Hw].
    + split; [intros _; repeat split; try congruence; tauto | reflexivity].
    + destruct (cmds_to_issue h) eqn:Hq.
      * split; [intros _; repeat split; try congruence; tauto|reflexivity].
      * split; [discriminate|].
        intros [H _]; exfalso; apply H; split; congruence.
  - unfold enter_ISSUE_COMMAND_PREPARE_WRITE_PAYLOAD, handle_matches.
    destruct (cmds_to_issue h) as [|cmd next] eqn:Hq.
    + split; [intros _; repeat split; try congruence; tauto|reflexivity].
    + destruct (Z.eqb_spec (cmd_handle cmd) (be64toh (req_handle (request h))))
        as [He|He]; cbn [negb].
      * split; [|intros [H _]; exfalso; apply H; split; congruence].
        destruct (cmd_type cmd =? NBD_CMD_WRITE); discriminate.
      * split; [intros _; repeat split; try congruence; tauto|reflexivity].
  - unfold enter_ISSUE_COMMAND_SEND_WRITE_PAYLOAD.
    destruct (send_from_wbuf m s h) as [[r h'] out].
    split; [|tauto].
    destruct (r =? -1); [discriminate|]. destruct (r =? 0); discriminate.
  - unfold enter_ISSUE_COMMAND_PAUSE_WRITE_PAYLOAD.
    destruct (Z.eqb_spec (wlen h) 0) as [Hw|Hw].
    + split; [intros _; repeat split; try congruence; tauto | reflexivity].
    + destruct (cmds_to_issue h) eqn:Hq.
      * split; [intros _; repeat split; try congruence; tauto|reflexivity].
      * split; [discriminate|].
        intros [H _]; exfalso; apply H; split; congruence.
  - unfold enter_ISSUE_COMMAND_FINISH, handle_matches.
    destruct (Z.eqb_spec (wlen h) 0) as [Hw|Hw]; cbn [negb].
    + destruct (cmds_to_issue h) as [|cmd next] eqn:Hq.
      * split; [intros _; repeat split; try congruence; tauto|reflexivity].
      * destruct (Z.eqb_spec (cmd_handle cmd)
                    (be64toh (req_handle (request h)))) as [He|He]; cbn [negb].
        -- split; [discriminate|].
           intros [H _]; exfalso; apply H; repeat split; congruence.
        -- split; [intros _; repeat split; try congruence; tauto|reflexivity].
    + split; [intros _; repeat split; try congruence; tauto|reflexivity].
  - split; [discriminate|tauto].
  - split; [discriminate|tauto].
  - split; [discriminate|tauto].
Qed.

(** ** The invariant is kept and the wire is accounted for *)

Lemma header_ready_matches (h : nbd_handle) :
  Forall cmd_wf (cmds_to_issue h) -> header_ready h -> handle_matches h.
Proof.
  unfold header_ready, handle_matches.
  destruct (cmds_to_issue h) as [|cmd next]; [tauto|].
  intros Hwf Hr. rewrite Hr. cbn [request_of req_handle].
  rewrite be64toh_htobe64; [reflexivity|].
  inversion Hwf as [|? ? Hc _]; subst. unfold cmd_wf in Hc. tauto.
Qed.

Lemma header_ready_cons (h : nbd_handle) :
  header_ready h ->
  exists cmd next, cmds_to_issue h = cmd :: next /\ request h = request_of cmd.
Proof.
  unfold header_ready. destruct (cmds_to_issue h) as [|cmd next]; [tauto|].
  intros Hr. now exists cmd, next.
Qed.

Lemma step_START (m : memory) (s : sock_result) (b : bool) (h : nbd_handle)
  (c' : config) (out : list byte) :
  inv (mk_config ISSUE_COMMAND_START b h) ->
  machine_step m (Run s) (mk_config ISSUE_COMMAND_START b h) = Some (c', out) ->
  inv c' /\ out ++ pending m c' = pending m (mk_config ISSUE_COMMAND_START b h).
Proof.
  intros [Hwf [Hne Hp]]. cbn in Hwf, Hne, Hp. cbn [machine_step enter cfg_state cfg_handle].
  destruct (Z.eq_dec (wlen h) 0) as [Hw|Hw].
  - destruct (cmds_to_issue h) as [|cmd next] eqn:Hq; [congruence|].
    rewrite (START_fresh h cmd next Hq Hw).
    intros [= <- <-]. split.
    + split; cbn; [assumption|]. split; [reflexivity|].
      unfold header_cursor; cbn. unfold sizeof_request. split; [reflexivity|lia].
    + unfold pending; simpl_cfg. rewrite Hq, Hw.
      change (0 =? 0) with true. cbv iota.
      rewrite load_request_of. unfold frame. now rewrite <- !app_assoc.
  - rewrite (START_resume h Hne Hw).
    destruct Hp as [Hp|[Hr Hp]]; [contradiction|].
    destruct Hp as [[Hi Hc]|[Hi [Hc Hl]]]; rewrite Hi; intros [= <- <-].
    + split; [split; cbn; tauto|].
      unfold pending; simpl_cfg. apply Z.eqb_neq in Hw. rewrite Hw, Hi.
      reflexivity.
    + split; [split; cbn; [assumption|]; repeat split; try assumption;
              discriminate|].
      unfold pending; simpl_cfg. apply Z.eqb_neq in Hw. rewrite Hw, Hi.
      reflexivity.
Qed.

Lemma step_SEND_REQUEST (m : memory) (s : sock_result) (b : bool)
  (h : nbd_handle) (c' : config) (out : list byte) :
  inv (mk_config ISSUE_COMMAND_SEND_REQUEST b h) ->
  machine_step m (Run s) (mk_config ISSUE_COMMAND_SEND_REQUEST b h)
    = Some (c', out) ->
  inv c' /\
  (cfg_state c' <> DEAD ->
   out ++ pending m c' = pending m (mk_config ISSUE_COMMAND_SEND_REQUEST b h)).
Proof.
  intros [Hwf [Hr [Hb Hl]]]. simpl_cfg.
  cbn [machine_step enter cfg_state cfg_handle].
  unfold enter_ISSUE_COMMAND_SEND_REQUEST.
  destruct (send_from_wbuf_spec m s h) as (n & r & f & Heq & Hn & Hcases);
    [lia|].
  rewrite Heq. clear Heq.
  destruct (header_ready_cons h Hr) as (cmd & next & Hq & Hreq).
  destruct Hcases as [(-> & -> & ->)|[(-> & Hlt & ->)|(-> & _)]];
    cbn [Z.eqb Pos.eqb]; intros [= <- <-].
  - split.
    + split; simpl_cfg; [assumption|]. split; [assumption|lia].
    + intros _. unfold pending; simpl_cfg. rewrite Hq.
      now rewrite <- !app_assoc.
  - split.
    + split; simpl_cfg; [assumption|]. split; [assumption|].
      unfold header_cursor; simpl_cfg. rewrite Hb. cbn [ptr_add].
      split; [f_equal; lia|lia].
    + intros _. unfold pending; simpl_cfg. rewrite Hq.
      rewrite !app_assoc. do 2 f_equal.
      replace (wlen h) with (n + (wlen h - n)) at 2 by lia.
      symmetry. apply load_split; try lia.
      rewrite Hb. unfold sizeof_request in *. cbn [ptr_ok]. lia.
  - split; [split; simpl_cfg; [assumption|exact I]|].
    cbn. congruence.
Qed.

Lemma step_PAUSE_SEND_REQUEST (m : memory) (s : sock_result) (b : bool)
  (h : nbd_handle) (c' : config) (out : list byte) :
  inv (mk_config ISSUE_COMMAND_PAUSE_SEND_REQUEST b h) ->
  machine_step m (Run s) (mk_config ISSUE_COMMAND_PAUSE_SEND_REQUEST b h)
    = Some (c', out) ->
  inv c' /\
  out ++ pending m c' =
    pending m (mk_config ISSUE_COMMAND_PAUSE_SEND_REQUEST b h).
Proof.
  intros [Hwf [Hr [Hb Hl]]]. simpl_cfg.
  cbn [machine_step enter cfg_state cfg_handle].
  destruct (header_ready_cons h Hr) as (cmd & next & Hq & Hreq).
  rewrite PAUSE_SEND_REQUEST_ok by (try rewrite Hq; first [lia|congruence]).
  intros [= <- <-]. split.
  - split; simpl_cfg; [assumption|]. right. split; [exact Hr|].
    left. split; [reflexivity|]. split; assumption.
  - unfold pending, set_in_write_payload; simpl_cfg. rewrite Hq.
    destruct (Z.eqb_spec (wlen h) 0); [lia|reflexivity].
Qed.

Lemma step_PREPARE_WRITE_PAYLOAD (m : memory) (s : sock_result) (b : bool)
  (h : nbd_handle) (c' : config) (out : list byte) :
  inv (mk_config ISSUE_COMMAND_PREPARE_WRITE_PAYLOAD b h) ->
  machine_step m (Run s) (mk_config ISSUE_COMMAND_PREPARE_WRITE_PAYLOAD b h)
    = Some (c', out) ->
  inv c' /\
  out ++ pending m c' =
    pending m (mk_config ISSUE_COMMAND_PREPARE_WRITE_PAYLOAD b h).
Proof.
  intros [Hwf [Hr Hw]]. simpl_cfg.
  cbn [machine_step enter cfg_state cfg_handle].
  pose proof (header_ready_matches h Hwf Hr) as Hm.
  destruct (header_ready_cons h Hr) as (cmd & next & Hq & Hreq).
  unfold handle_matches in Hm. rewrite Hq in Hm.
  rewrite (PREPARE_WRITE_PAYLOAD_ok h cmd next Hq Hm).
  assert (Hc : cmd_wf cmd) by (rewrite Hq in Hwf; now inversion Hwf).
  unfold pending; simpl_cfg. rewrite Hq. unfold payload_if_write.
  destruct (Z.eqb_spec (cmd_type cmd) NBD_CMD_WRITE) as [Ht|Ht];
    intros [= <- <-]; simpl_cfg.
  - split.
    + split; simpl_cfg; [now rewrite <- Hq|].
      split; [unfold header_ready; simpl_cfg; exact Hreq|].
      split; [|discriminate].
      unfold payload_cursor; simpl_cfg. rewrite Z.sub_diag, ptr_add_0.
      unfold cmd_wf in Hc. repeat split; try assumption; lia.
    + cbn [app]. rewrite load_data; [reflexivity|].
      unfold cmd_wf in Hc; tauto.
  - split.
    + split; simpl_cfg; [assumption|]. split; assumption.
    + rewrite Hq. reflexivity.
Qed.

Lemma step_SEND_WRITE_PAYLOAD (m : memory) (s : sock_result) (b : bool)
  (h : nbd_handle) (c' : config) (out : list byte) :
  inv (mk_config ISSUE_COMMAND_SEND_WRITE_PAYLOAD b h) ->
  machine_step m (Run s) (mk_config ISSUE_COMMAND_SEND_WRITE_PAYLOAD b h)
    = Some (c', out) ->
  inv c' /\
  (cfg_state c' <> DEAD ->
   out ++ pending m c' =
     pending m (mk_config ISSUE_COMMAND_SEND_WRITE_PAYLOAD b h)).
Proof.
  intros [Hwf [Hr [Hp Hbl]]]. simpl_cfg.
  cbn [machine_step enter cfg_state cfg_handle].
  unfold enter_ISSUE_COMMAND_SEND_WRITE_PAYLOAD.
  destruct (header_ready_cons h Hr) as (cmd & next & Hq & Hreq).
  unfold payload_cursor in Hp. rewrite Hq in Hp.
  destruct Hp as (Ht & Hb & Hl).
  assert (Hc : cmd_wf cmd) by (rewrite Hq in Hwf; now inversion Hwf).
  assert (Hd : data_ptr_ok (cmd_data cmd)) by (unfold cmd_wf in Hc; tauto).
  destruct (send_from_wbuf_spec m s h) as (n & r & f & Heq & Hn & Hcases);
    [lia|].
  rewrite Heq. clear Heq.
  destruct Hcases as [(-> & -> & ->)|[(-> & Hlt & ->)|(-> & _)]];
    cbn [Z.eqb Pos.eqb]; intros [= <- <-].
  - split.
    + split; simpl_cfg; [assumption|]. split; [assumption|lia].
    + intros _. unfold pending; simpl_cfg. rewrite Hq. reflexivity.
  - split.
    + split; simpl_cfg; [assumption|]. split; [assumption|].
      split; [|intros _; lia].
      unfold payload_cursor; simpl_cfg. rewrite Hq.
      split; [assumption|]. split; [|lia].
      rewrite Hb, ptr_add_add. f_equal. lia.
    + intros _. unfold pending; simpl_cfg. rewrite Hq.
      rewrite !app_assoc. f_equal.
      replace (wlen h) with (n + (wlen h - n)) at 2 by lia.
      symmetry. apply load_split; try lia.
      rewrite Hb. apply ptr_ok_add; [|lia].
      now apply data_ptr_ok_ptr_ok.
  - split; [split; simpl_cfg; [assumption|exact I]|].
    cbn. congruence.
Qed.

Lemma step_PAUSE_WRITE_PAYLOAD (m : memory) (s : sock_result) (b : bool)
  (h : nbd_handle) (c' : config) (out : list byte) :
  inv (mk_config ISSUE_COMMAND_PAUSE_WRITE_PAYLOAD b h) ->
  machine_step m (Run s) (mk_config ISSUE_COMMAND_PAUSE_WRITE_PAYLOAD b h)
    = Some (c', out) ->
  inv c' /\
  out ++ pending m c' =
    pending m (mk_config ISSUE_COMMAND_PAUSE_WRITE_PAYLOAD b h).
Proof.
  intros [Hwf [Hr [Hp Hl]]]. simpl_cfg.
  cbn [machine_step enter cfg_state cfg_handle].
  destruct (header_ready_cons h Hr) as (cmd & next & Hq & Hreq).
  rewrite PAUSE_WRITE_PAYLOAD_ok by (try rewrite Hq; first [lia|congruence]).
  intros [= <- <-]. split.
  - split; simpl_cfg; [assumption|]. right. split; [exact Hr|].
    right. split; [reflexivity|]. split; assumption.
  - unfold pending, set_in_write_payload; simpl_cfg. rewrite Hq.
    destruct (Z.eqb_spec (wlen h) 0); [lia|reflexivity].
Qed.

Lemma pending_idle (m : memory) (q : state) (b : bool) (h : nbd_handle) :
  wlen h = 0 ->
  q = ISSUE_COMMAND_START \/ q = READY \/ q = REPLY_START ->
  pending m (mk_config q b h) = frames m (cmds_to_issue h).
Proof.
  intros Hw Hs. unfold pending; simpl_cfg.
  destruct (cmds_to_issue h) as [|cmd next]; [reflexivity|].
  rewrite Hw. destruct Hs as [->|[->| ->]]; reflexivity.
Qed.

Lemma step_FINISH (m : memory) (s : sock_result) (b : bool)
  (h : nbd_handle) (c' : config) (out : list byte) :
  inv (mk_config ISSUE_COMMAND_FINISH b h) ->
  machine_step m (Run s) (mk_config ISSUE_COMMAND_FINISH b h)
    = Some (c', out) ->
  inv c' /\
  out ++ pending m c' = pending m (mk_config ISSUE_COMMAND_FINISH b h).
Proof.
  intros [Hwf [Hr Hw]]. simpl_cfg.
  cbn [machine_step enter cfg_state cfg_handle].
  pose proof (header_ready_matches h Hwf Hr) as Hm.
  destruct (header_ready_cons h Hr) as (cmd & next & Hq & Hreq).
  unfold handle_matches in Hm. rewrite Hq in Hm.
  rewrite (FINISH_ok h cmd next Hw Hq Hm).
  intros [= <- <-]. split.
  - split; simpl_cfg; [rewrite Hq in Hwf; now inversion Hwf|].
    left. exact Hw.
  - cbn [app]. rewrite pending_idle by (simpl_cfg; auto). simpl_cfg.
    unfold pending; simpl_cfg. rewrite Hq. reflexivity.
Qed.

Lemma header_ready_enqueue (h : nbd_handle) (cmd : command_in_flight) :
  header_ready h ->
  header_ready (set_cmds_to_issue h (cmds_to_issue h ++ [cmd])).
Proof.
  unfold header_ready, set_cmds_to_issue; simpl_cfg.
  destruct (cmds_to_issue h); [tauto|]. cbn [app]. tauto.
Qed.

Lemma payload_cursor_enqueue (h : nbd_handle) (cmd : command_in_flight) :
  payload_cursor h ->
  payload_cursor (set_cmds_to_issue h (cmds_to_issue h ++ [cmd])).
Proof.
  unfold payload_cursor, set_cmds_to_issue; simpl_cfg.
  destruct (cmds_to_issue h); [tauto|]. cbn [app]. tauto.
Qed.

Lemma parked_enqueue (h : nbd_handle) (cmd : command_in_flight) :
  parked h -> parked (set_cmds_to_issue h (cmds_to_issue h ++ [cmd])).
Proof.
  intros [Hw|[Hr Hc]]; [left; exact Hw|]. right.
  split; [now apply header_ready_enqueue|].
  destruct Hc as [[Hi Hc]|[Hi [Hc Hl]]]; [left|right].
  - split; [exact Hi|exact Hc].
  - split; [exact Hi|]. split; [now apply payload_cursor_enqueue|exact Hl].
Qed.

Lemma parked_in_flight (h : nbd_handle) (l : list command_in_flight) :
  parked h -> parked (set_cmds_in_flight h l).
Proof.
  unfold parked, header_ready, header_cursor, payload_cursor,
    set_cmds_in_flight; simpl_cfg. tauto.
Qed.

Lemma pending_enqueue (m : memory) (q : state) (b : bool) (h : nbd_handle)
  (cmd : command_in_flight) :
  cmds_to_issue h <> [] \/
  (wlen h = 0 /\ (q = ISSUE_COMMAND_START \/ q = READY \/ q = REPLY_START)) ->
  pending m (mk_config q b (set_cmds_to_issue h (cmds_to_issue h ++ [cmd]))) =
  pending m (mk_config q b h) ++ frame m cmd.
Proof.
  intros H. destruct (cmds_to_issue h) as [|c0 next] eqn:Hq.
  - destruct H as [H|[Hw Hs]]; [congruence|].
    rewrite !pending_idle by assumption.
    unfold set_cmds_to_issue; simpl_cfg. rewrite Hq.
    cbn [app frames map concat]. apply app_nil_r.
  - unfold pending, set_cmds_to_issue; simpl_cfg. rewrite Hq.
    cbn [app]. rewrite frames_app. cbn [frames map concat].
    rewrite app_nil_r, !app_assoc. reflexivity.
Qed.

Lemma header_ready_nonempty (h : nbd_handle) :
  header_ready h -> cmds_to_issue h <> [].
Proof.
  unfold header_ready. destruct (cmds_to_issue h); [tauto|discriminate].
Qed.

Lemma inv_enqueue_side (q : state) (b : bool) (h : nbd_handle) :
  inv (mk_config q b h) -> q <> DEAD ->
  cmds_to_issue h <> [] \/
  (wlen h = 0 /\ (q = ISSUE_COMMAND_START \/ q = READY \/ q = REPLY_START)).
Proof.
  intros [_ Hst] Hq. simpl_cfg.
  destruct q; try congruence;
    try (left; apply header_ready_nonempty; tauto).
  - left; tauto.
  - destruct Hst as [Hw|[Hr _]];
      [right; auto | left; now apply header_ready_nonempty].
  - destruct Hst as [Hw|[Hr _]];
      [right; auto | left; now apply header_ready_nonempty].
Qed.

(** One step of the machine keeps the invariant, and the bytes it sends
    are taken from what was pending; an enqueued command adds its frame
    to what is pending. *)
Lemma machine_step_sound (m : memory) (e : event) (c c' : config)
  (out : list byte) :
  inv c -> event_wf e -> machine_step m e c = Some (c', out) ->
  inv c' /\
  (cfg_state c' <> DEAD ->
   out ++ pending m c' = pending m c ++ frames m (enqueued [e])).
Proof.
  intros Hinv He Hstep. destruct c as [q b h].
  destruct e as [s| |retired| |cmd].
  - (* Run *)
    cbn [enqueued frames map concat]. rewrite app_nil_r.
    destruct q; try (cbn in Hstep; discriminate).
    + destruct (step_START m s b h c' out Hinv Hstep); auto.
    + apply (step_SEND_REQUEST m s b h c' out Hinv Hstep).
    + destruct (step_PAUSE_SEND_REQUEST m s b h c' out Hinv Hstep); auto.
    + destruct (step_PREPARE_WRITE_PAYLOAD m s b h c' out Hinv Hstep); auto.
    + apply (step_SEND_WRITE_PAYLOAD m s b h c' out Hinv Hstep).
    + destruct (step_PAUSE_WRITE_PAYLOAD m s b h c' out Hinv Hstep); auto.
    + destruct (step_FINISH m s b h c' out Hinv Hstep); auto.
  - (* NotifyRead *)
    cbn [enqueued frames map concat]. rewrite app_nil_r.
    destruct Hinv as [Hwf Hst]. simpl_cfg.
    destruct q; cbn in Hstep; try discriminate.
    + destruct b; [|discriminate]. injection Hstep as <- <-.
      split; [split; simpl_cfg; assumption|reflexivity].
    + destruct b; [|discriminate]. injection Hstep as <- <-.
      split; [|reflexivity].
      split; simpl_cfg; [assumption|]. cbn in Hst. intuition.
    + injection Hstep as <- <-.
      split; [split; simpl_cfg; assumption|reflexivity].
  - (* ReplyDone *)
    cbn [enqueued frames map concat]. rewrite app_nil_r.
    destruct Hinv as [Hwf Hst]. simpl_cfg.
    destruct q; cbn in Hstep; try discriminate.
    injection Hstep as <- <-. split.
    + split; simpl_cfg; [assumption|]. now apply parked_in_flight.
    + reflexivity.
  - (* CmdIssue *)
    cbn [enqueued frames map concat]. rewrite app_nil_r.
    destruct Hinv as [Hwf Hst]. simpl_cfg.
    destruct q; cbn in Hstep; try discriminate.
    destruct (cmds_to_issue h) eqn:Hq; [discriminate|].
    injection Hstep as <- <-. split.
    + split; simpl_cfg; [now rewrite Hq|]. split; [congruence|assumption].
    + intros _. unfold pending; simpl_cfg. rewrite Hq. reflexivity.
  - (* Enqueue *)
    cbn [enqueued frames map concat]. rewrite app_nil_r.
    assert (Hq : q <> DEAD) by (intros ->; discriminate).
    pose proof (inv_enqueue_side q b h Hinv Hq) as Hside.
    destruct Hinv as [Hwf Hst]. simpl_cfg. cbn [event_wf] in He.
    assert (Hwf' : Forall cmd_wf (cmds_to_issue h ++ [cmd])).
    { apply Forall_app. split; [assumption|]. now constructor. }
    assert (Hhd : cmds_to_issue h ++ [cmd] <> []).
    { destruct (cmds_to_issue h); discriminate. }
    destruct q; cbn in Hstep; try discriminate;
      injection Hstep as <- <-; cbn [app];
      (split; [split|intros _; now apply pending_enqueue]);
      simpl_cfg; try exact Hwf'.
    + split; [exact Hhd|apply parked_enqueue; tauto].
    + split; [apply header_ready_enqueue|]; tauto.
    + split; [apply header_ready_enqueue|]; tauto.
    + split; [apply header_ready_enqueue|]; tauto.
    + split; [apply header_ready_enqueue; tauto|].
      split; [apply payload_cursor_enqueue|]; tauto.
    + split; [apply header_ready_enqueue; tauto|].
      split; [apply payload_cursor_enqueue|]; tauto.
    + split; [apply header_ready_enqueue|]; tauto.
    + now apply parked_enqueue.
    + now apply parked_enqueue.
Qed.

(** ** Runs of the machine *)

Lemma dead_is_final (m : memory) (evs : list event) (c c' : config)
  (out : list byte) :
  cfg_state c = DEAD -> run m evs c = Some (c', out) ->
  evs = [] /\ c' = c /\ out = [].
Proof.
  intros Hd. destruct evs as [|e evs]; cbn [run].
  - intros [= <- <-]. auto.
  - destruct c as [q b h]; cbn in Hd; subst q.
    destruct e; cbn; discriminate.
Qed.

Lemma enqueued_cons (e : event) (evs : list event) :
  enqueued (e :: evs) = enqueued [e] ++ enqueued evs.
Proof. destruct e; reflexivity. Qed.

Lemma enqueued_app (evs1 evs2 : list event) :
  enqueued (evs1 ++ evs2) = enqueued evs1 ++ enqueued evs2.
Proof.
  induction evs1 as [|e evs1 IH]; [reflexivity|].
  cbn [app]. rewrite enqueued_cons, (enqueued_cons e evs1), IH.
  now rewrite app_assoc.
Qed.

Lemma run_app (m : memory) (evs1 evs2 : list event) (c : config) :
  run m (evs1 ++ evs2) c =
  match run m evs1 c with
  | None => None
  | Some (c1, out1) =>
      match run m evs2 c1 with
      | None => None
      | Some (c2, out2) => Some (c2, out1 ++ out2)
      end
  end.
Proof.
  revert c; induction evs1 as [|e evs1 IH]; intros c; cbn [app run].
  - destruct (run m evs2 c) as [[c2 out2]|]; reflexivity.
  - destruct (machine_step m e c) as [[c1 out1]|]; [|reflexivity].
    rewrite IH. destruct (run m evs1 c1) as [[c2 out2]|]; [|reflexivity].
    destruct (run m evs2 c2) as [[c3 out3]|]; [|reflexivity].
    now rewrite app_assoc.
Qed.

(** Along any run the invariant holds, and what was sent together with
    what is still pending is what was pending at the start followed by
    the frames of the commands enqueued on the way. *)
Lemma run_sound (m : memory) (evs : list event) :
  forall (c c' : config) (out : list byte),
  inv c -> Forall event_wf evs -> run m evs c = Some (c', out) ->
  inv c' /\
  (cfg_state c' <> DEAD ->
   out ++ pending m c' = pending m c ++ frames m (enqueued evs)).
Proof.
  induction evs as [|e evs IH]; intros c c' out Hinv Hev; cbn [run].
  - intros [= <- <-]. split; [assumption|]. intros _.
    cbn [enqueued frames map concat app]. now rewrite app_nil_r.
  - inversion Hev as [|? ? He Hevs]; subst.
    destruct (machine_step m e c) as [[c1 out1]|] eqn:Hstep; [|discriminate].
    destruct (run m evs c1) as [[c2 out2]|] eqn:Hrun; [|discriminate].
    intros [= <- <-].
    destruct (machine_step_sound m e c c1 out1 Hinv He Hstep) as [Hinv1 Hp1].
    destruct (IH c1 c2 out2 Hinv1 Hevs Hrun) as [Hinv2 Hp2].
    split; [assumption|]. intros Hnd.
    assert (Hnd1 : cfg_state c1 <> DEAD).
    { intros Hd. destruct (dead_is_final m evs c1 c2 out2 Hd Hrun) as (_ & -> & _).
      contradiction. }
    rewrite enqueued_cons, frames_app, app_assoc, <- (Hp1 Hnd1).
    rewrite <- !app_assoc. f_equal. apply (Hp2 Hnd).
Qed.

Lemma fresh_start_inv (c : config) : fresh_start c -> inv c.
Proof.
  destruct c as [q b h]. intros (Hq & Hne & Hw & Hwf). simpl_cfg. subst q.
  split; simpl_cfg; [assumption|]. split; [assumption|]. left. exact Hw.
Qed.

(** Byte-exact framing.  From a fresh START, once every command has been
    issued, the bytes on the socket are the frames of the commands, those
    queued at the start and those enqueued since, in that order. *)
Lemma framing (m : memory) (evs : list event) (c c' : config)
  (out : list byte) :
  fresh_start c -> Forall event_wf evs -> run m evs c = Some (c', out) ->
  cfg_state c' <> DEAD ->
  out ++ pending m c' =
    frames m (cmds_to_issue (cfg_handle c) ++ enqueued evs).
Proof.
  intros Hf Hev Hrun Hnd.
  destruct (run_sound m evs c c' out (fresh_start_inv c Hf) Hev Hrun)
    as [_ Hp].
  rewrite (Hp Hnd), frames_app. f_equal.
  destruct c as [q b h]. destruct Hf as (Hq & _ & Hw & _). simpl_cfg.
  apply pending_idle; auto.
Qed.

Lemma pending_empty (m : memory) (c : config) :
  cmds_to_issue (cfg_handle c) = [] -> pending m c = [].
Proof. intros H. unfold pending. now rewrite H. Qed.

(** ** The send flag *)

Lemma send_from_wbuf_drained (m : memory) (s : sock_result)
  (h h' : nbd_handle) (out : list byte) :
  send_from_wbuf m s h = (0, h', out) -> wlen h' = 0 /\ wflags h' = 0.
Proof.
  unfold send_from_wbuf.
  destruct (Z.eqb_spec (wlen h) 0) as [H0|H0].
  - intros [= <- <-]. now simpl_handle.
  - destruct s as [r| |]; try discriminate.
    cbn [wlen set_wlen set_wbuf].
    destruct (Z.eqb_spec (wlen h - Z.max 0 (Z.min r (wlen h))) 0);
      [|discriminate].
    intros [= <- <-]. now simpl_handle.
Qed.

Lemma machine_step_flags (m : memory) (e : event) (c c' : config)
  (out : list byte) :
  flags_inv c -> machine_step m e c = Some (c', out) -> flags_inv c'.
Proof.
  destruct c as [q b h]. unfold flags_inv at 1; simpl_cfg.
  intros Hf Hstep. destruct e as [s| |retired| |cmd].
  - destruct q; cbn [machine_step enter cfg_state cfg_handle] in Hstep;
      try discriminate.
    + unfold enter_ISSUE_COMMAND_START in Hstep.
      destruct (cmds_to_issue h); [discriminate|].
      destruct (negb (wlen h =? 0)); [destruct (in_write_payload h)|];
        injection Hstep as <- <-; exact I.
    + unfold enter_ISSUE_COMMAND_SEND_REQUEST in Hstep.
      destruct (send_from_wbuf m s h) as [[r h'] o] eqn:Hs.
      destruct (Z.eqb_spec r (-1)); [injection Hstep as <- <-; exact I|].
      destruct (Z.eqb_spec r 0); injection Hstep as <- <-; [|exact I].
      subst r. intros _. now apply (send_from_wbuf_drained m s h h' o).
    + unfold enter_ISSUE_COMMAND_PAUSE_SEND_REQUEST in Hstep.
      destruct (Z.eqb_spec (wlen h) 0); [discriminate|].
      destruct (cmds_to_issue h); [discriminate|].
      injection Hstep as <- <-. unfold flags_inv; simpl_cfg. simpl_handle.
      congruence.
    + unfold enter_ISSUE_COMMAND_PREPARE_WRITE_PAYLOAD in Hstep.
      destruct (cmds_to_issue h) as [|cmd next]; [discriminate|].
      destruct (negb _); [discriminate|].
      destruct (cmd_type cmd =? NBD_CMD_WRITE);
        injection Hstep as <- <-; [exact I|exact Hf].
    + unfold enter_ISSUE_COMMAND_SEND_WRITE_PAYLOAD in Hstep.
      destruct (send_from_wbuf m s h) as [[r h'] o] eqn:Hs.
      destruct (Z.eqb_spec r (-1)); [injection Hstep as <- <-; exact I|].
      destruct (Z.eqb_spec r 0); injection Hstep as <- <-; [|exact I].
      subst r. intros _. now apply (send_from_wbuf_drained m s h h' o).
    + unfold enter_ISSUE_COMMAND_PAUSE_WRITE_PAYLOAD in Hstep.
      destruct (Z.eqb_spec (wlen h) 0); [discriminate|].
      destruct (cmds_to_issue h); [discriminate|].
      injection Hstep as <- <-. unfold flags_inv; simpl_cfg. simpl_handle.
      congruence.
    + unfold enter_ISSUE_COMMAND_FINISH in Hstep.
      destruct (negb (wlen h =? 0)); [discriminate|].
      destruct (cmds_to_issue h) as [|cmd next]; [discriminate|].
      destruct (negb _); [discriminate|].
      injection Hstep as <- <-. exact Hf.
  - destruct q; cbn in Hstep; try discriminate;
      try (destruct b; [|discriminate]);
      injection Hstep as <- <-; first [exact I | exact Hf].
  - destruct q; cbn in Hstep; try discriminate.
    injection Hstep as <- <-. exact Hf.
  - destruct q; cbn in Hstep; try discriminate.
    destruct (non_null (cmds_to_issue h)); [|discriminate].
    injection Hstep as <- <-. exact Hf.
  - destruct q; cbn in Hstep; try discriminate;
      injection Hstep as <- <-; first [exact I | exact Hf].
Qed.

Lemma run_flags (m : memory) (evs : list event) :
  forall (c c' : config) (out : list byte),
  flags_inv c -> run m evs c = Some (c', out) -> flags_inv c'.
Proof.
  induction evs as [|e evs IH]; intros c c' out Hf; cbn [run].
  - now intros [= <- <-].
  - destruct (machine_step m e c) as [[c1 out1]|] eqn:Hstep; [|discriminate].
    destruct (run m evs c1) as [[c2 out2]|] eqn:Hrun; [|discriminate].
    intros [= <- <-]. apply (IH c1 c2 out2); [|assumption].
    now apply (machine_step_flags m e c c1 out1).
Qed.

(** ** What the invariant gives in each state *)

Lemma inv_assertions (c : config) :
  inv c -> assertions (cfg_state c) (cfg_handle c).
Proof.
  destruct c as [q b h]. intros [Hwf Hst]. simpl_cfg.
  destruct q; cbn [assertions]; try exact I.
  - tauto.
  - destruct Hst as [Hr [_ Hl]].
    split; [lia|now apply header_ready_nonempty].
  - destruct Hst as [Hr _].
    split; [now apply header_ready_nonempty|now apply header_ready_matches].
  - destruct Hst as [Hr [_ Hl]].
    split; [lia|now apply header_ready_nonempty].
  - destruct Hst as [Hr Hw]. split; [exact Hw|].
    split; [now apply header_ready_nonempty|now apply header_ready_matches].
Qed.

Lemma reachable_inv (m : memory) (evs : list event) (c0 c : config)
  (out : list byte) :
  fresh_start c0 -> Forall event_wf evs -> run m evs c0 = Some (c, out) ->
  inv c.
Proof.
  intros Hf Hev Hrun.
  apply (run_sound m evs c0 c out (fresh_start_inv c0 Hf) Hev Hrun).
Qed.

Lemma non_null_true {A : Type} (l : list A) : non_null l = true <-> l <> [].
Proof. destruct l; cbn; split; congruence. Qed.

(** ** Every queue can be issued *)

Lemma send_everything (m : memory) (h : nbd_handle) :
  0 <= wlen h ->
  send_from_wbuf m (SockSent (wlen h)) h =
    (0,
     mk_handle (cmds_to_issue h) (cmds_in_flight h) (request h)
       (ptr_add (wbuf h) (wlen h)) 0 0 (in_write_payload h),
     load m (request h) (wbuf h) (wlen h)).
Proof.
  intros Hw. unfold send_from_wbuf.
  destruct (Z.eqb_spec (wlen h) 0) as [H0|H0].
  - rewrite H0, load_zero, ptr_add_0. destruct h; cbn in *; subst.
    reflexivity.
  - replace (Z.max 0 (Z.min (wlen h) (wlen h))) with (wlen h) by lia.
    simpl_handle. rewrite Z.sub_diag. reflexivity.
Qed.

(** One command goes from START to READY in four or five handler runs. *)
Lemma drain_one_runs (m : memory) (b : bool) (h : nbd_handle)
  (cmd : command_in_flight) (next : list command_in_flight) :
  cmds_to_issue h = cmd :: next -> wlen h = 0 -> cmd_wf cmd ->
  exists h' out,
    run m (drain_one cmd) (mk_config ISSUE_COMMAND_START b h) =
      Some (mk_config READY false h', out) /\
    cmds_to_issue h' = next /\ wlen h' = 0 /\
    cmds_in_flight h' = cmd :: cmds_in_flight h.
Proof.
  intros Hq Hw Hc. unfold drain_one.
  assert (Hm : cmd_handle cmd = be64toh (htobe64 (cmd_handle cmd))).
  { symmetry. apply be64toh_htobe64. unfold cmd_wf in Hc. tauto. }
  assert (Hcount : 0 <= cmd_count cmd) by (unfold cmd_wf in Hc; tauto).
  pose (f1 := if (cmd_type cmd =? NBD_CMD_WRITE) || non_null next
              then MSG_MORE else wflags h).
  pose (h1 := mk_handle (cmd :: next) (cmds_in_flight h) (request_of cmd)
                (Ptr BRequest 0) sizeof_request f1 (in_write_payload h)).
  pose (h2 := mk_handle (cmd :: next) (cmds_in_flight h) (request_of cmd)
                (ptr_add (Ptr BRequest 0) sizeof_request) 0 0
                (in_write_payload h)).
  assert (S1 : machine_step m (Run SockAgain)
                 (mk_config ISSUE_COMMAND_START b h) =
               Some (mk_config ISSUE_COMMAND_SEND_REQUEST false h1, [])).
  { cbn [machine_step enter cfg_state cfg_handle].
    now rewrite (START_fresh h cmd next Hq Hw). }
  assert (S2 : machine_step m (Run (SockSent sizeof_request))
                 (mk_config ISSUE_COMMAND_SEND_REQUEST false h1) =
               Some (mk_config ISSUE_COMMAND_PREPARE_WRITE_PAYLOAD false h2,
                     load m (request h1) (wbuf h1) (wlen h1))).
  { cbn [machine_step enter cfg_state cfg_handle].
    unfold enter_ISSUE_COMMAND_SEND_REQUEST.
    change (SockSent sizeof_request) with (SockSent (wlen h1)).
    rewrite (send_everything m h1) by (cbn; unfold sizeof_request; lia).
    reflexivity. }
  assert (P2 : enter_ISSUE_COMMAND_PREPARE_WRITE_PAYLOAD h2 = _)
    by exact (PREPARE_WRITE_PAYLOAD_ok h2 cmd next eq_refl Hm).
  rewrite run_app. cbn [run]. rewrite S1. cbn [run]. rewrite S2.
  cbn [run machine_step enter cfg_state cfg_handle]. rewrite P2.
  destruct (Z.eqb_spec (cmd_type cmd) NBD_CMD_WRITE) as [Ht|Ht].
  - match goal with
    | |- context [mk_config ISSUE_COMMAND_SEND_WRITE_PAYLOAD false ?x] =>
        set (h3 := x)
    end.
    rewrite run_app. cbn [run machine_step enter cfg_state cfg_handle].
    unfold enter_ISSUE_COMMAND_SEND_WRITE_PAYLOAD.
    change (SockSent (cmd_count cmd)) with (SockSent (wlen h3)).
    rewrite (send_everything m h3) by exact Hcount.
    cbn [Z.eqb]. simpl_cfg. unfold enter.
    match goal with
    | |- context [enter_ISSUE_COMMAND_FINISH ?h4] =>
        rewrite (FINISH_ok h4 cmd next eq_refl eq_refl Hm)
    end.
    simpl_cfg. do 2 eexists. split; [reflexivity|]. simpl_cfg. auto.
  - rewrite run_app. cbn [run machine_step enter cfg_state cfg_handle].
    rewrite (FINISH_ok h2 cmd next eq_refl eq_refl Hm).
    simpl_cfg. do 2 eexists. split; [reflexivity|]. simpl_cfg. auto.
Qed.

(** Progress: whatever the queue, the machine gets through it when the
    socket cooperates, ends in READY with nothing left to issue, and has
    sent the frames of the queue. *)
Lemma drain_completes (m : memory) (q : list command_in_flight) :
  forall (b : bool) (h : nbd_handle),
  cmds_to_issue h = q -> q <> [] -> wlen h = 0 -> Forall cmd_wf q ->
  exists h',
    run m (drain q) (mk_config ISSUE_COMMAND_START b h) =
      Some (mk_config READY false h', frames m q) /\
    cmds_to_issue h' = [] /\ wlen h' = 0.
Proof.
  intros b h Hq Hne Hw Hwf.
  assert (Hfresh : fresh_start (mk_config ISSUE_COMMAND_START b h)).
  { repeat split; simpl_cfg; try rewrite Hq; assumption. }
  assert (Hnone : forall l, enqueued (drain l) = []).
  { induction l as [|cmd [|cmd' l] IH]; [reflexivity| |].
    - cbn [drain]. rewrite app_nil_r. unfold drain_one.
      destruct (cmd_type cmd =? NBD_CMD_WRITE); reflexivity.
    - cbn [drain] in *. rewrite enqueued_app. cbn [enqueued]. rewrite IH.
      unfold drain_one. destruct (cmd_type cmd =? NBD_CMD_WRITE); reflexivity. }
  assert (Hev : forall l, Forall event_wf (drain l)).
  { induction l as [|cmd [|cmd' l] IH]; [constructor| |].
    - cbn [drain]. rewrite app_nil_r. unfold drain_one.
      destruct (cmd_type cmd =? NBD_CMD_WRITE); repeat constructor.
    - cbn [drain] in *. apply Forall_app. split.
      + unfold drain_one.
        destruct (cmd_type cmd =? NBD_CMD_WRITE); repeat constructor.
      + constructor; [exact I|exact IH]. }
  cut (exists h' out,
         run m (drain q) (mk_config ISSUE_COMMAND_START b h) =
           Some (mk_config READY false h', out) /\
         cmds_to_issue h' = [] /\ wlen h' = 0).
  { intros (h' & out & Hrun & He & Hw').
    exists h'. split; [|auto].
    pose proof (framing m (drain q) _ _ out Hfresh (Hev q) Hrun) as Hfr.
    rewrite pending_empty, app_nil_r in Hfr by exact He.
    simpl_cfg. rewrite Hnone, app_nil_r, Hq in Hfr.
    rewrite Hrun, Hfr; [reflexivity|discriminate]. }
  clear Hfresh Hnone Hev. revert b h Hq Hne Hw Hwf.
  induction q as [|cmd rest IH]; intros b h Hq Hne Hw Hwf; [congruence|].
  inversion Hwf as [|? ? Hc Hrest]; subst.
  destruct (drain_one_runs m b h cmd rest Hq Hw Hc)
    as (h1 & out1 & Hrun1 & Hq1 & Hw1 & _).
  cbn [drain]. destruct rest as [|cmd' rest'].
  - rewrite app_nil_r. exists h1, out1. auto.
  - rewrite run_app, Hrun1.
    cbn [run machine_step cfg_state cfg_handle]. rewrite Hq1.
    cbn [non_null].
    destruct (IH false h1 Hq1 ltac:(discriminate) Hw1 Hrest)
      as (h2 & out2 & Hrun2 & Hq2 & Hw2).
    fold (drain (cmd' :: rest')). rewrite Hrun2.
    do 2 eexists. split; [reflexivity|]. auto.
Qed.

(** * The claims *)

(** C1.  For a head command with no partial write pending, START stores in
    the request buffer the big-endian encodings of the magic and of the
    command's flags, type, handle, offset and count, and points the write
    cursor at it ([wbuf = &request], [wlen = 28]).  And once a connection
    that entered START afresh is back in READY with nothing left to issue,
    the bytes it put on the socket are, command after command in enqueue
    order, the 28-byte header followed for a WRITE by the [count] bytes of
    its payload. *)
Theorem issue_framing_byte_exact :
  (forall (h : nbd_handle) (cmd : command_in_flight)
          (next : list command_in_flight),
     cmds_to_issue h = cmd :: next -> wlen h = 0 ->
     exists h',
       enter_ISSUE_COMMAND_START h =
         Returned 0 (Some ISSUE_COMMAND_SEND_REQUEST) h' [] /\
       request_bytes (request h') =
         be_bytes 4 NBD_REQUEST_MAGIC ++ be_bytes 2 (cmd_flags cmd) ++
         be_bytes 2 (cmd_type cmd) ++ be_bytes 8 (cmd_handle cmd) ++
         be_bytes 8 (cmd_offset cmd) ++ be_bytes 4 (cmd_count cmd) /\
       wbuf h' = Ptr BRequest 0 /\ wlen h' = 28 /\
       cmds_to_issue h' = cmds_to_issue h /\
       cmds_in_flight h' = cmds_in_flight h) /\
  (forall (m : memory) (evs : list event) (c c' : config) (out : list byte),
     fresh_start c -> Forall event_wf evs ->
     run m evs c = Some (c', out) ->
     cfg_state c' = READY -> cmds_to_issue (cfg_handle c') = [] ->
     let cmds := cmds_to_issue (cfg_handle c) ++ enqueued evs in
     out =
       concat
         (map (fun cmd =>
                 wire_header cmd ++
                 (if cmd_type cmd =? NBD_CMD_WRITE then payload m cmd else []))
              cmds) /\
     Forall (fun cmd => length (wire_header cmd) = 28%nat) cmds /\
     (Forall (buffer_ok m) cmds ->
      Forall (fun cmd =>
                Z.of_nat (length (frame m cmd)) =
                28 + (if cmd_type cmd =? NBD_CMD_WRITE
                      then cmd_count cmd else 0)) cmds)).
Proof.
  split.
  - intros h cmd next Hq Hw. eexists. split; [apply START_fresh; eassumption|].
    simpl_cfg. rewrite request_bytes_request_of, Hq.
    repeat split; reflexivity.
  - intros m evs c c' out Hf Hev Hrun Hst He cmds. split; [|split].
    + pose proof (framing m evs c c' out Hf Hev Hrun) as Hfr.
      rewrite pending_empty, app_nil_r in Hfr by assumption.
      apply Hfr. rewrite Hst. discriminate.
    + apply Forall_forall. intros cmd _. apply wire_header_length.
    + intros Hb. eapply Forall_impl; [|exact Hb].
      intros cmd Hc. now apply frame_length.
Qed.

(** C2.  When START is entered with [wlen > 0], it jumps to
    SEND_WRITE_PAYLOAD if [in_write_payload] is set and to SEND_REQUEST
    otherwise, and returns the handle as it found it: the request header,
    [wbuf] and [wlen] are not modified. *)
Theorem START_resume_leaves_header (h : nbd_handle) :
  cmds_to_issue h <> [] -> 0 < wlen h ->
  exists h',
    enter_ISSUE_COMMAND_START h =
      Returned 0
        (Some (if in_write_payload h then ISSUE_COMMAND_SEND_WRITE_PAYLOAD
               else ISSUE_COMMAND_SEND_REQUEST)) h' [] /\
    request h' = request h /\ wbuf h' = wbuf h /\ wlen h' = wlen h /\
    h' = h.
Proof.
  intros Hq Hw. exists h. split; [apply START_resume; [assumption|lia]|].
  repeat split; reflexivity.
Qed.

(** C9.  The count START places in the header is [cmd->count] reduced
    modulo 2^32: bytes 24 to 27 of the request buffer are its big-endian
    encoding, whatever the count, and START does not reject the command. *)
Theorem START_truncates_count (h : nbd_handle) (cmd : command_in_flight)
  (next : list command_in_flight) :
  cmds_to_issue h = cmd :: next -> wlen h = 0 ->
  exists h',
    enter_ISSUE_COMMAND_START h =
      Returned 0 (Some ISSUE_COMMAND_SEND_REQUEST) h' [] /\
    req_count (request h') = htobe32 (cmd_count cmd mod 2 ^ 32) /\
    drop 24 (request_bytes (request h')) =
      be_bytes 4 (cmd_count cmd mod 2 ^ 32) /\
    of_le_bytes (rev (drop 24 (request_bytes (request h')))) =
      cmd_count cmd mod 2 ^ 32.
Proof.
  intros Hq Hw. eexists. split; [apply START_fresh; eassumption|].
  simpl_cfg. split; [reflexivity|].
  assert (Hd : drop 24 (request_bytes (request_of cmd)) =
               be_bytes 4 (cmd_count cmd mod 2 ^ 32)).
  { rewrite request_bytes_request_of. unfold wire_header.
    change (2 ^ 32) with (256 ^ Z.of_nat 4). rewrite be_bytes_mod.
    rewrite !app_assoc. unfold drop. change (Z.to_nat 24) with 24%nat.
    match goal with
    | |- skipn _ (?l ++ _) = _ =>
        assert (Hlen : length l = 24%nat)
          by (rewrite !length_app, !be_bytes_length; reflexivity)
    end.
    rewrite skipn_app, Hlen, Nat.sub_diag.
    rewrite skipn_all2 by lia. reflexivity. }
  split; [exact Hd|].
  rewrite Hd. unfold be_bytes. rewrite rev_involutive, of_le_bytes_le_bytes.
  change (256 ^ Z.of_nat 4) with (2 ^ 32). apply Z.mod_mod. lia.
Qed.

(** C3 (as amended).  When the send primitive reports that the send
    would block (it returns 1, with [wlen] still positive), the handlers of
    SEND_REQUEST and SEND_WRITE_PAYLOAD return 0 without choosing a next
    state: the machine stays in the send state it is in, and the handler
    does not move it to a PAUSE state. *)
Theorem SEND_would_block_stays (m : memory) (s : sock_result)
  (h : nbd_handle) :
  0 <= wlen h -> fst (fst (send_from_wbuf m s h)) = 1 ->
  exists h' out,
    0 < wlen h' /\
    enter_ISSUE_COMMAND_SEND_REQUEST m s h = Returned 0 None h' out /\
    enter_ISSUE_COMMAND_SEND_WRITE_PAYLOAD m s h = Returned 0 None h' out /\
    (forall b,
       machine_step m (Run s) (mk_config ISSUE_COMMAND_SEND_REQUEST b h) =
         Some (mk_config ISSUE_COMMAND_SEND_REQUEST true h', out)) /\
    (forall b,
       machine_step m (Run s)
         (mk_config ISSUE_COMMAND_SEND_WRITE_PAYLOAD b h) =
         Some (mk_config ISSUE_COMMAND_SEND_WRITE_PAYLOAD true h', out)).
Proof.
  intros Hw Hr.
  destruct (send_from_wbuf_spec m s h Hw) as (n & r & f & Heq & Hn & Hcases).
  rewrite Heq in Hr. cbn [fst] in Hr. subst r.
  destruct Hcases as [(H1 & _)|[(_ & Hlt & _)|(H1 & _)]]; try discriminate.
  exists (mk_handle (cmds_to_issue h) (cmds_in_flight h) (request h)
            (ptr_add (wbuf h) n) (wlen h - n) f (in_write_payload h)),
         (load m (request h) (wbuf h) n).
  cbn [machine_step enter cfg_state cfg_handle].
  unfold enter_ISSUE_COMMAND_SEND_REQUEST,
    enter_ISSUE_COMMAND_SEND_WRITE_PAYLOAD.
  rewrite Heq. cbn [Z.eqb Pos.eqb]. simpl_cfg.
  split; [lia|]. repeat split; reflexivity.
Qed.

(** C4.  Whenever the machine, started afresh, is in FINISH, [wlen] is 0
    and the handle of the head command is the one decoded from the request
    header; FINISH then takes the head command off [cmds_to_issue], puts
    it in front of [cmds_in_flight], leaves every other member of both
    lists and the rest of the handle as they were, and goes to READY. *)
Theorem FINISH_moves_head_in_flight (m : memory) (evs : list event)
  (c0 c : config) (out : list byte) :
  fresh_start c0 -> Forall event_wf evs -> run m evs c0 = Some (c, out) ->
  cfg_state c = ISSUE_COMMAND_FINISH ->
  let h := cfg_handle c in
  wlen h = 0 /\
  exists cmd next,
    cmds_to_issue h = cmd :: next /\
    cmd_handle cmd = be64toh (req_handle (request h)) /\
    enter_ISSUE_COMMAND_FINISH h =
      Returned 0 (Some READY)
        (mk_handle next (cmd :: cmds_in_flight h) (request h) (wbuf h)
           (wlen h) (wflags h) (in_write_payload h)) [].
Proof.
  intros Hf Hev Hrun Hst h.
  pose proof (inv_assertions c (reachable_inv m evs c0 c out Hf Hev Hrun))
    as Ha.
  rewrite Hst in Ha. cbn [assertions] in Ha. fold h in Ha.
  destruct Ha as (Hw & Hne & Hm). split; [exact Hw|].
  unfold handle_matches in Hm.
  destruct (cmds_to_issue h) as [|cmd next] eqn:Hq; [contradiction|].
  exists cmd, next. split; [reflexivity|]. split; [exact Hm|].
  now apply FINISH_ok.
Qed.

(** C5.  On a connection that started with no send flag set: when START
    prepares a header (no partial write pending), [wflags] is MSG_MORE
    afterwards if and only if the head command is a WRITE or another
    command is queued behind it; when PREPARE_WRITE_PAYLOAD sets up the
    payload of a WRITE, [wflags] is MSG_MORE afterwards if and only if
    another command is queued behind it and the count is below 64 KiB. *)
Theorem more_hint_iff (m : memory) (evs : list event) (c0 c : config)
  (out : list byte) (cmd : command_in_flight)
  (next : list command_in_flight) :
  fresh_start c0 -> wflags (cfg_handle c0) = 0 -> Forall event_wf evs ->
  run m evs c0 = Some (c, out) ->
  cmds_to_issue (cfg_handle c) = cmd :: next ->
  (cfg_state c = ISSUE_COMMAND_START -> wlen (cfg_handle c) = 0 ->
   exists h',
     enter_ISSUE_COMMAND_START (cfg_handle c) =
       Returned 0 (Some ISSUE_COMMAND_SEND_REQUEST) h' [] /\
     (wflags h' = MSG_MORE <->
      cmd_type cmd = NBD_CMD_WRITE \/ next <> [])) /\
  (cfg_state c = ISSUE_COMMAND_PREPARE_WRITE_PAYLOAD ->
   cmd_type cmd = NBD_CMD_WRITE ->
   exists h',
     enter_ISSUE_COMMAND_PREPARE_WRITE_PAYLOAD (cfg_handle c) =
       Returned 0 (Some ISSUE_COMMAND_SEND_WRITE_PAYLOAD) h' [] /\
     (wflags h' = MSG_MORE <->
      next <> [] /\ cmd_count cmd < 64 * 1024)).
Proof.
  intros Hf Hfl Hev Hrun Hq.
  assert (Hf0 : flags_inv c0).
  { destruct c0 as [q0 b0 h0]. destruct Hf as (Hs & _). simpl_cfg. subst q0.
    unfold flags_inv; simpl_cfg. auto. }
  pose proof (run_flags m evs c0 c out Hf0 Hrun) as Hfc.
  pose proof (reachable_inv m evs c0 c out Hf Hev Hrun) as Hinv.
  destruct c as [q b h]. simpl_cfg. split.
  - intros -> Hw. unfold flags_inv in Hfc; simpl_cfg.
    eexists. split; [apply START_fresh; eassumption|]. simpl_cfg.
    rewrite (Hfc Hw).
    destruct (Z.eqb_spec (cmd_type cmd) NBD_CMD_WRITE) as [Ht|Ht];
      cbn [orb].
    + split; auto.
    + destruct next; cbn [non_null].
      * split; [discriminate|]. intros [H|H]; congruence.
      * split; [|reflexivity]. intros _. right. discriminate.
  - intros -> Ht. unfold flags_inv in Hfc; simpl_cfg.
    destruct Hinv as [Hwf [Hr Hw]]. simpl_cfg.
    pose proof (header_ready_matches h Hwf Hr) as Hm.
    unfold handle_matches in Hm. rewrite Hq in Hm.
    rewrite (PREPARE_WRITE_PAYLOAD_ok h cmd next Hq Hm).
    apply Z.eqb_eq in Ht. rewrite Ht.
    eexists. split; [reflexivity|]. simpl_cfg. rewrite (Hfc Hw).
    destruct (Z.ltb_spec (cmd_count cmd) (64 * 1024)) as [Hc|Hc];
      destruct next; cbn [non_null andb].
    + split; [discriminate|]. intros [H _]; congruence.
    + split; [|reflexivity]. intros _. split; [discriminate|exact Hc].
    + split; [discriminate|]. intros [H _]; congruence.
    + split; [discriminate|]. intros [_ H]. lia.
Qed.

(** C6 (as amended).  PREPARE_WRITE_PAYLOAD sets up a payload drain of
    [count] bytes at [cmd->data] for a command of type WRITE, and goes
    straight to FINISH, leaving the handle alone, for a command of any
    other type, WRITE_ZEROES and READ included.  On the wire a single
    command is its 28-byte header, followed by its payload if and only
    if it is a WRITE. *)
Theorem payload_only_for_WRITE :
  (forall (h : nbd_handle) (cmd : command_in_flight)
          (next : list command_in_flight),
     cmds_to_issue h = cmd :: next ->
     cmd_handle cmd = be64toh (req_handle (request h)) ->
     (cmd_type cmd = NBD_CMD_WRITE ->
      exists h',
        enter_ISSUE_COMMAND_PREPARE_WRITE_PAYLOAD h =
          Returned 0 (Some ISSUE_COMMAND_SEND_WRITE_PAYLOAD) h' [] /\
        wbuf h' = cmd_data cmd /\ wlen h' = cmd_count cmd) /\
     (cmd_type cmd <> NBD_CMD_WRITE ->
      enter_ISSUE_COMMAND_PREPARE_WRITE_PAYLOAD h =
        Returned 0 (Some ISSUE_COMMAND_FINISH) h [])) /\
  (forall (m : memory) (evs : list event) (c c' : config) (out : list byte)
          (cmd : command_in_flight),
     fresh_start c -> cmds_to_issue (cfg_handle c) = [cmd] ->
     Forall event_wf evs -> enqueued evs = [] ->
     run m evs c = Some (c', out) ->
     cfg_state c' = READY -> cmds_to_issue (cfg_handle c') = [] ->
     out =
       wire_header cmd ++
       (if cmd_type cmd =? NBD_CMD_WRITE then payload m cmd else []) /\
     (buffer_ok m cmd ->
      Z.of_nat (length out) =
        28 + (if cmd_type cmd =? NBD_CMD_WRITE then cmd_count cmd else 0))).
Proof.
  split.
  - intros h cmd next Hq Hm.
    rewrite (PREPARE_WRITE_PAYLOAD_ok h cmd next Hq Hm). split.
    + intros Ht. apply Z.eqb_eq in Ht. rewrite Ht.
      eexists. split; [reflexivity|]. simpl_cfg. split; reflexivity.
    + intros Ht. apply Z.eqb_neq in Ht. rewrite Ht. reflexivity.
  - intros m evs c c' out cmd Hf Hq Hev Hen Hrun Hst He.
    pose proof (framing m evs c c' out Hf Hev Hrun) as Hfr.
    rewrite pending_empty, app_nil_r, Hq, Hen in Hfr by assumption.
    cbn [app frames map concat] in Hfr. rewrite app_nil_r in Hfr.
    assert (Ho : out = frame m cmd)
      by (apply Hfr; rewrite Hst; discriminate).
    split; [exact Ho|]. intros Hb. rewrite Ho. now apply frame_length.
Qed.

(** C7.  When the send primitive fails with -1 in SEND_REQUEST or in
    SEND_WRITE_PAYLOAD, the handler selects DEAD and returns -1; both
    queues are as they were, and from there on the machine stays in DEAD
    with the head command still in [cmds_to_issue] and [cmds_in_flight]
    unchanged. *)
Theorem fatal_send_goes_DEAD (m : memory) (s : sock_result)
  (h : nbd_handle) :
  fst (fst (send_from_wbuf m s h)) = -1 ->
  exists h' out,
    enter_ISSUE_COMMAND_SEND_REQUEST m s h =
      Returned (-1) (Some DEAD) h' out /\
    enter_ISSUE_COMMAND_SEND_WRITE_PAYLOAD m s h =
      Returned (-1) (Some DEAD) h' out /\
    cmds_to_issue h' = cmds_to_issue h /\
    cmds_in_flight h' = cmds_in_flight h /\
    (forall q b evs c' out',
       q = ISSUE_COMMAND_SEND_REQUEST \/
       q = ISSUE_COMMAND_SEND_WRITE_PAYLOAD ->
       run m (Run s :: evs) (mk_config q b h) = Some (c', out') ->
       cfg_state c' = DEAD /\
       cmds_to_issue (cfg_handle c') = cmds_to_issue h /\
       cmds_in_flight (cfg_handle c') = cmds_in_flight h).
Proof.
  intros Hr. pose proof (send_from_wbuf_queues m s h) as Hqs.
  destruct (send_from_wbuf m s h) as [[r h'] out] eqn:Heq.
  cbn [fst snd] in Hr, Hqs. subst r. destruct Hqs as (Hq1 & Hq2 & _).
  exists h', out.
  unfold enter_ISSUE_COMMAND_SEND_REQUEST,
    enter_ISSUE_COMMAND_SEND_WRITE_PAYLOAD.
  rewrite Heq. cbn [Z.eqb Pos.eqb].
  split; [reflexivity|]. split; [reflexivity|].
  split; [exact Hq1|]. split; [exact Hq2|].
  intros q b evs c' out' Hq Hrun.
  assert (Hstep : machine_step m (Run s) (mk_config q b h) =
                  Some (mk_config DEAD false h', out)).
  { destruct Hq as [-> | ->];
      cbn [machine_step enter cfg_state cfg_handle];
      unfold enter_ISSUE_COMMAND_SEND_REQUEST,
        enter_ISSUE_COMMAND_SEND_WRITE_PAYLOAD;
      rewrite Heq; reflexivity. }
  cbn [run] in Hrun. rewrite Hstep in Hrun.
  destruct (run m evs (mk_config DEAD false h')) as [[c2 out2]|] eqn:Hrun2;
    [|discriminate].
  injection Hrun as <- <-.
  destruct (dead_is_final m evs (mk_config DEAD false h') c2 out2
              eq_refl Hrun2) as (_ & -> & _).
  simpl_cfg. auto.
Qed.

(** C8.  With their assertions satisfied, PAUSE_SEND_REQUEST clears
    [in_write_payload] and PAUSE_WRITE_PAYLOAD sets it; both go to the
    start of the reply path and change nothing else: [wbuf], [wlen], the
    request header and both queues are as before.  START, entered again,
    returns to the send state that was interrupted with the same cursor. *)
Theorem PAUSE_keeps_cursor (h : nbd_handle) :
  wlen h <> 0 -> cmds_to_issue h <> [] ->
  let paused b :=
    mk_handle (cmds_to_issue h) (cmds_in_flight h) (request h) (wbuf h)
      (wlen h) (wflags h) b in
  enter_ISSUE_COMMAND_PAUSE_SEND_REQUEST h =
    Returned 0 (Some REPLY_START) (paused false) [] /\
  enter_ISSUE_COMMAND_PAUSE_WRITE_PAYLOAD h =
    Returned 0 (Some REPLY_START) (paused true) [] /\
  enter_ISSUE_COMMAND_START (paused false) =
    Returned 0 (Some ISSUE_COMMAND_SEND_REQUEST) (paused false) [] /\
  enter_ISSUE_COMMAND_START (paused true) =
    Returned 0 (Some ISSUE_COMMAND_SEND_WRITE_PAYLOAD) (paused true) [].
Proof.
  intros Hw Hq paused.
  split; [now apply PAUSE_SEND_REQUEST_ok|].
  split; [now apply PAUSE_WRITE_PAYLOAD_ok|].
  split.
  - apply (START_resume (paused false)); assumption.
  - apply (START_resume (paused true)); assumption.
Qed.

(** C10.  In every configuration the machine reaches from a fresh START
    (commands to issue, no write under way), the assertions of the
    current state hold: [cmds_to_issue] is non-null in START, in both
    PAUSE states, in PREPARE_WRITE_PAYLOAD and in FINISH; [wlen] is
    non-zero in both PAUSE states (and zero in FINISH); in
    PREPARE_WRITE_PAYLOAD and FINISH the handle of the head command is
    the one decoded from the request header.  So no handler aborts. *)
Theorem assertions_hold (m : memory) (evs : list event) (c0 c : config)
  (out : list byte) :
  fresh_start c0 -> Forall event_wf evs -> run m evs c0 = Some (c, out) ->
  assertions (cfg_state c) (cfg_handle c) /\
  (forall s, enter (cfg_state c) m s (cfg_handle c) <> Some Aborted).
Proof.
  intros Hf Hev Hrun.
  pose proof (inv_assertions c (reachable_inv m evs c0 c out Hf Hev Hrun))
    as Ha.
  split; [exact Ha|]. intros s Hab.
  apply enter_aborts in Hab. tauto.
Qed.

(** * Further properties of the issue machine *)

Lemma enter_queues (q : state) (m : memory) (s : sock_result)
  (h h' : nbd_handle) (r : Z) (next : option state) (out : list byte) :
  enter q m s h = Some (Returned r next h' out) ->
  (q = ISSUE_COMMAND_FINISH /\
   exists cmd,
     cmds_to_issue h = cmd :: cmds_to_issue h' /\
     cmds_in_flight h' = cmd :: cmds_in_flight h) \/
  (q <> ISSUE_COMMAND_FINISH /\
   cmds_to_issue h' = cmds_to_issue h /\
   cmds_in_flight h' = cmds_in_flight h).
Proof.
  destruct q; cbn [enter]; try discriminate.
  - unfold enter_ISSUE_COMMAND_START.
    destruct (cmds_to_issue h) as [|cmd nx] eqn:Hq; [discriminate|].
    destruct (negb (wlen h =? 0)).
    + destruct (in_write_payload h); intros [= <- <- <- <-];
        right; repeat split; try discriminate; auto.
    + destruct ((cmd_type cmd =? NBD_CMD_WRITE) || non_null nx);
        intros [= <- <- <- <-]; right; simpl_handle;
        repeat split; try discriminate; auto.
  - unfold enter_ISSUE_COMMAND_SEND_REQUEST.
    pose proof (send_from_wbuf_queues m s h) as Hs.
    destruct (send_from_wbuf m s h) as [[r0 h0] o0]. cbn [fst snd] in Hs.
    destruct (r0 =? -1); [|destruct (r0 =? 0)]; intros [= <- <- <- <-];
      right; repeat split; try discriminate; tauto.
  - unfold enter_ISSUE_COMMAND_PAUSE_SEND_REQUEST.
    destruct (wlen h =? 0); [discriminate|].
    destruct (cmds_to_issue h) eqn:Hq; [discriminate|].
    intros [= <- <- <- <-]. right. simpl_handle.
    repeat split; try discriminate; auto.
  - unfold enter_ISSUE_COMMAND_PREPARE_WRITE_PAYLOAD.
    destruct (cmds_to_issue h) as [|cmd nx] eqn:Hq; [discriminate|].
    destruct (negb _); [discriminate|].
    destruct (cmd_type cmd =? NBD_CMD_WRITE).
    + destruct (non_null nx && (cmd_count cmd <? 64 * 1024));
        intros [= <- <- <- <-]; right; simpl_handle;
        repeat split; try discriminate; auto.
    + intros [= <- <- <- <-]. right. repeat split; try discriminate; auto.
  - unfold enter_ISSUE_COMMAND_SEND_WRITE_PAYLOAD.
    pose proof (send_from_wbuf_queues m s h) as Hs.
    destruct (send_from_wbuf m s h) as [[r0 h0] o0]. cbn [fst snd] in Hs.
    destruct (r0 =? -1); [|destruct (r0 =? 0)]; intros [= <- <- <- <-];
      right; repeat split; try discriminate; tauto.
  - unfold enter_ISSUE_COMMAND_PAUSE_WRITE_PAYLOAD.
    destruct (wlen h =? 0); [discriminate|].
    destruct (cmds_to_issue h) eqn:Hq; [discriminate|].
    intros [= <- <- <- <-]. right. simpl_handle.
    repeat split; try discriminate; auto.
  - unfold enter_ISSUE_COMMAND_FINISH.
    destruct (negb (wlen h =? 0)); [discriminate|].
    destruct (cmds_to_issue h) as [|cmd nx] eqn:Hq; [discriminate|].
    destruct (negb _); [discriminate|].
    intros [= <- <- <- <-]. left. split; [reflexivity|].
    exists cmd. simpl_handle. auto.
Qed.

Lemma retire_nil (l : list command_in_flight) : retire [] l = l.
Proof.
  unfold retire. induction l as [|c l IH]; [reflexivity|].
  cbn [filter existsb negb]. f_equal. exact IH.
Qed.

Lemma retire_incl (retired : list Z) (l : list command_in_flight) :
  incl (retire retired l) l.
Proof. unfold retire. apply incl_filter. Qed.

Lemma machine_step_queues (m : memory) (e : event) (c c' : config)
  (out : list byte) :
  machine_step m e c = Some (c', out) ->
  exists issued,
    cmds_to_issue (cfg_handle c) ++ enqueued [e] =
      issued ++ cmds_to_issue (cfg_handle c') /\
    incl (cmds_in_flight (cfg_handle c'))
         (rev issued ++ cmds_in_flight (cfg_handle c)) /\
    (retires_nothing e ->
     cmds_in_flight (cfg_handle c') =
       rev issued ++ cmds_in_flight (cfg_handle c)).
Proof.
  destruct c as [q b h]. destruct e as [s| |retired| |cmd];
    cbn [machine_step cfg_state cfg_handle cfg_blocked enqueued].
  - destruct (enter q m s h) as [[|r next h' o]|] eqn:He; try discriminate.
    intros Hstep.
    assert (Hc : cfg_handle c' = h' /\ out = o)
      by (destruct next; injection Hstep as <- <-; auto).
    destruct Hc as [-> ->]. rewrite app_nil_r.
    destruct (enter_queues q m s h h' r next o He)
      as [(_ & cmd & Hq & Hf)|(_ & Hq & Hf)].
    + exists [cmd]. rewrite Hq, Hf. cbn. repeat split; auto.
      apply incl_refl.
    + exists []. rewrite Hq, Hf. cbn. repeat split; auto. apply incl_refl.
  - intros Hstep. exists []. rewrite app_nil_r.
    destruct q; try discriminate;
      try (destruct b; [|discriminate]);
      injection Hstep as <- <-; cbn; repeat split; auto; apply incl_refl.
  - intros Hstep. exists []. rewrite app_nil_r.
    destruct q; try discriminate. injection Hstep as <- <-.
    simpl_cfg. unfold set_cmds_in_flight; simpl_cfg. cbn [rev app].
    split; [reflexivity|]. split; [apply retire_incl|].
    destruct retired; [intros _; apply retire_nil|contradiction].
  - intros Hstep. exists []. rewrite app_nil_r.
    destruct q; try discriminate.
    destruct (non_null (cmds_to_issue h)); [|discriminate].
    injection Hstep as <- <-. cbn. repeat split; auto. apply incl_refl.
  - intros Hstep. exists [].
    destruct q; try discriminate; injection Hstep as <- <-;
      unfold set_cmds_to_issue; simpl_cfg; cbn [rev app];
      repeat split; auto; apply incl_refl.
Qed.

Lemma run_queues (m : memory) (evs : list event) :
  forall (c c' : config) (out : list byte),
  run m evs c = Some (c', out) ->
  exists issued,
    cmds_to_issue (cfg_handle c) ++ enqueued evs =
      issued ++ cmds_to_issue (cfg_handle c') /\
    incl (cmds_in_flight (cfg_handle c'))
         (rev issued ++ cmds_in_flight (cfg_handle c)) /\
    (Forall retires_nothing evs ->
     cmds_in_flight (cfg_handle c') =
       rev issued ++ cmds_in_flight (cfg_handle c)).
Proof.
  induction evs as [|e evs IH]; intros c c' out; cbn [run].
  - intros [= <- <-]. exists []. cbn. rewrite app_nil_r.
    repeat split; auto. apply incl_refl.
  - destruct (machine_step m e c) as [[c1 out1]|] eqn:Hstep; [|discriminate].
    destruct (run m evs c1) as [[c2 out2]|] eqn:Hrun; [|discriminate].
    intros [= <- <-].
    destruct (machine_step_queues m e c c1 out1 Hstep)
      as (i1 & Hq1 & Hi1 & Hf1).
    destruct (IH c1 c2 out2 Hrun) as (i2 & Hq2 & Hi2 & Hf2).
    exists (i1 ++ i2). split; [|split].
    + rewrite enqueued_cons, app_assoc, Hq1, <- !app_assoc. now rewrite Hq2.
    + rewrite rev_app_distr, <- app_assoc.
      intros x Hx. apply Hi2 in Hx. apply in_app_or in Hx.
      apply in_or_app. destruct Hx as [Hx|Hx]; [left; exact Hx|].
      right. now apply Hi1.
    + intros Hall. inversion Hall as [|? ? He Hevs]; subst.
      rewrite (Hf2 Hevs), (Hf1 He), rev_app_distr, <- app_assoc.
      reflexivity.
Qed.

(** X1.  Commands leave the to-issue queue only from its head and only to
    enter the in-flight list: along any run, what was queued at the start
    followed by what was enqueued since is the sequence of commands issued
    so far followed by what is still queued; every in-flight command was
    issued in this run or was in flight before; and when the reply path
    retires nothing, the in-flight list is the issued commands, last
    issued first, in front of the earlier ones. *)
Theorem commands_issued_in_order (m : memory) (evs : list event)
  (c c' : config) (out : list byte) :
  run m evs c = Some (c', out) ->
  exists issued,
    cmds_to_issue (cfg_handle c) ++ enqueued evs =
      issued ++ cmds_to_issue (cfg_handle c') /\
    incl (cmds_in_flight (cfg_handle c'))
         (rev issued ++ cmds_in_flight (cfg_handle c)) /\
    (Forall retires_nothing evs ->
     cmds_in_flight (cfg_handle c') =
       rev issued ++ cmds_in_flight (cfg_handle c)).
Proof. apply run_queues. Qed.

(** What a handler that returns has done, state by state. *)
Lemma enter_cases (q : state) (m : memory) (s : sock_result)
  (h h' : nbd_handle) (r : Z) (next : option state) (out : list byte) :
  enter q m s h = Some (Returned r next h' out) ->
  match q with
  | ISSUE_COMMAND_START =>
      exists cmd nx,
        cmds_to_issue h = cmd :: nx /\ r = 0 /\ out = [] /\
        ((wlen h <> 0 /\ h' = h /\
          next = Some (if in_write_payload h
                       then ISSUE_COMMAND_SEND_WRITE_PAYLOAD
                       else ISSUE_COMMAND_SEND_REQUEST)) \/
         (wlen h = 0 /\ next = Some ISSUE_COMMAND_SEND_REQUEST /\
          h' = mk_handle (cmd :: nx) (cmds_in_flight h) (request_of cmd)
                 (Ptr BRequest 0) sizeof_request
                 (if (cmd_type cmd =? NBD_CMD_WRITE) || non_null nx
                  then MSG_MORE else wflags h)
                 (in_write_payload h)))
  | ISSUE_COMMAND_SEND_REQUEST =>
      exists r0,
        send_from_wbuf m s h = (r0, h', out) /\
        ((r0 = -1 /\ r = -1 /\ next = Some DEAD) \/
         (r0 = 0 /\ r = 0 /\
          next = Some ISSUE_COMMAND_PREPARE_WRITE_PAYLOAD) \/
         (r0 <> -1 /\ r0 <> 0 /\ r = 0 /\ next = None))
  | ISSUE_COMMAND_SEND_WRITE_PAYLOAD =>
      exists r0,
        send_from_wbuf m s h = (r0, h', out) /\
        ((r0 = -1 /\ r = -1 /\ next = Some DEAD) \/
         (r0 = 0 /\ r = 0 /\ next = Some ISSUE_COMMAND_FINISH) \/
         (r0 <> -1 /\ r0 <> 0 /\ r = 0 /\ next = None))
  | ISSUE_COMMAND_PAUSE_SEND_REQUEST =>
      wlen h <> 0 /\ cmds_to_issue h <> [] /\ r = 0 /\ out = [] /\
      next = Some REPLY_START /\ h' = set_in_write_payload h false
  | ISSUE_COMMAND_PAUSE_WRITE_PAYLOAD =>
      wlen h <> 0 /\ cmds_to_issue h <> [] /\ r = 0 /\ out = [] /\
      next = Some REPLY_START /\ h' = set_in_write_payload h true
  | ISSUE_COMMAND_PREPARE_WRITE_PAYLOAD =>
      exists cmd nx,
        cmds_to_issue h = cmd :: nx /\
        cmd_handle cmd = be64toh (req_handle (request h)) /\
        r = 0 /\ out = [] /\
        ((cmd_type cmd = NBD_CMD_WRITE /\
          next = Some ISSUE_COMMAND_SEND_WRITE_PAYLOAD /\
          h' = mk_handle (cmd :: nx) (cmds_in_flight h) (request h)
                 (cmd_data cmd) (cmd_count cmd)
                 (if non_null nx && (cmd_count cmd <? 64 * 1024)
                  then MSG_MORE else wflags h)
                 (in_write_payload h)) \/
         (cmd_type cmd <> NBD_CMD_WRITE /\
          next = Some ISSUE_COMMAND_FINISH /\ h' = h))
  | ISSUE_COMMAND_FINISH =>
      exists cmd nx,
        cmds_to_issue h = cmd :: nx /\ wlen h = 0 /\
        cmd_handle cmd = be64toh (req_handle (request h)) /\
        r = 0 /\ out = [] /\ next = Some READY /\
        h' = mk_handle nx (cmd :: cmds_in_flight h) (request h) (wbuf h)
               (wlen h) (wflags h) (in_write_payload h)
  | REPLY_START | READY | DEAD => False
  end.
Proof.
  destruct q; cbn [enter]; try discriminate.
  - destruct (cmds_to_issue h) as [|cmd nx] eqn:Hq.
    + unfold enter_ISSUE_COMMAND_START. rewrite Hq. discriminate.
    + destruct (Z.eq_dec (wlen h) 0) as [Hw|Hw].
      * rewrite (START_fresh h cmd nx Hq Hw). intros [= <- <- <- <-].
        exists cmd, nx. repeat split. right. auto.
      * rewrite (START_resume h) by (rewrite ?Hq; congruence).
        intros [= <- <- <- <-]. exists cmd, nx. repeat split. left. auto.
  - unfold enter_ISSUE_COMMAND_SEND_REQUEST.
    destruct (send_from_wbuf m s h) as [[r0 h0] o0].
    exists r0.
    destruct (Z.eqb_spec r0 (-1)); [|destruct (Z.eqb_spec r0 0)];
      injection H as <- <- <- <-; (split; [reflexivity|]); tauto.
  - destruct (Z.eq_dec (wlen h) 0) as [Hw|Hw];
      [unfold enter_ISSUE_COMMAND_PAUSE_SEND_REQUEST; rewrite Hw;
       discriminate|].
    destruct (cmds_to_issue h) eqn:Hq;
      [unfold enter_ISSUE_COMMAND_PAUSE_SEND_REQUEST;
       apply Z.eqb_neq in Hw; rewrite Hw, Hq; discriminate|].
    rewrite PAUSE_SEND_REQUEST_ok by (rewrite ?Hq; congruence).
    intros [= <- <- <- <-]. repeat split; congruence.
  - destruct (cmds_to_issue h) as [|cmd nx] eqn:Hq.
    + unfold enter_ISSUE_COMMAND_PREPARE_WRITE_PAYLOAD. rewrite Hq.
      discriminate.
    + destruct (Z.eq_dec (cmd_handle cmd) (be64toh (req_handle (request h))))
        as [Hm|Hm].
      * rewrite (PREPARE_WRITE_PAYLOAD_ok h cmd nx Hq Hm).
        destruct (Z.eqb_spec (cmd_type cmd) NBD_CMD_WRITE) as [Ht|Ht];
          intros [= <- <- <- <-]; exists cmd, nx; repeat split; auto.
      * unfold enter_ISSUE_COMMAND_PREPARE_WRITE_PAYLOAD. rewrite Hq.
        apply Z.eqb_neq in Hm. rewrite Hm. discriminate.
  - unfold enter_ISSUE_COMMAND_SEND_WRITE_PAYLOAD.
    destruct (send_from_wbuf m s h) as [[r0 h0] o0].
    exists r0.
    destruct (Z.eqb_spec r0 (-1)); [|destruct (Z.eqb_spec r0 0)];
      injection H as <- <- <- <-; (split; [reflexivity|]); tauto.
  - destruct (Z.eq_dec (wlen h) 0) as [Hw|Hw];
      [unfold enter_ISSUE_COMMAND_PAUSE_WRITE_PAYLOAD; rewrite Hw;
       discriminate|].
    destruct (cmds_to_issue h) eqn:Hq;
      [unfold enter_ISSUE_COMMAND_PAUSE_WRITE_PAYLOAD;
       apply Z.eqb_neq in Hw; rewrite Hw, Hq; discriminate|].
    rewrite PAUSE_WRITE_PAYLOAD_ok by (rewrite ?Hq; congruence).
    intros [= <- <- <- <-]. repeat split; congruence.
  - unfold enter_ISSUE_COMMAND_FINISH.
    destruct (Z.eqb_spec (wlen h) 0) as [Hw|Hw]; cbn [negb]; [|discriminate].
    destruct (cmds_to_issue h) as [|cmd nx] eqn:Hq; [discriminate|].
    destruct (Z.eqb_spec (cmd_handle cmd) (be64toh (req_handle (request h))))
      as [Hm|Hm]; cbn [negb]; [|discriminate].
    intros [= <- <- <- <-]. exists cmd, nx. simpl_handle.
    rewrite Hw. repeat split; auto.
Qed.

Ltac no_such_state :=
  match goal with
  | H : _ = _ \/ _ = _ \/ _ = _ |- _ =>
      destruct H as [H|[H|H]]; discriminate H
  | |- _ \/ _ \/ _ -> _ =>
      let H := fresh in intros [H|[H|H]]; discriminate H
  end.

(** X2.  A handler returns 0 or -1.  It returns -1 exactly when it selects
    DEAD, which only the two send states do and only when the send
    primitive returned -1.  The handlers of the other states put nothing
    on the socket. *)
Theorem handler_return_code (q : state) (m : memory) (s : sock_result)
  (h h' : nbd_handle) (r : Z) (next : option state) (out : list byte) :
  enter q m s h = Some (Returned r next h' out) ->
  (r = 0 \/ r = -1) /\
  (r = -1 <-> next = Some DEAD) /\
  (r = -1 ->
   (q = ISSUE_COMMAND_SEND_REQUEST \/ q = ISSUE_COMMAND_SEND_WRITE_PAYLOAD) /\
   fst (fst (send_from_wbuf m s h)) = -1) /\
  (q <> ISSUE_COMMAND_SEND_REQUEST ->
   q <> ISSUE_COMMAND_SEND_WRITE_PAYLOAD -> out = []).
Proof.
  intros He. apply enter_cases in He. destruct q; try contradiction.
  - destruct He as (cmd & nx & _ & -> & -> & [(_ & _ & ->)|(_ & -> & _)]).
    + destruct (in_write_payload h);
        repeat split; auto; try discriminate; intros H; discriminate H.
    + repeat split; auto; try discriminate; intros H; discriminate H.
  - destruct He as (r0 & Hs & [(-> & -> & ->)|[(-> & -> & ->)|(_ & _ & -> & ->)]]);
      rewrite ?Hs; cbn [fst]; repeat split; auto; try discriminate;
      try congruence; intros H; discriminate H.
  - destruct He as (_ & _ & -> & -> & -> & _).
    repeat split; auto; try discriminate; intros H; discriminate H.
  - destruct He as (cmd & nx & _ & _ & -> & -> & [(_ & -> & _)|(_ & -> & _)]);
      repeat split; auto; try discriminate; intros H; discriminate H.
  - destruct He as (r0 & Hs & [(-> & -> & ->)|[(-> & -> & ->)|(_ & _ & -> & ->)]]);
      rewrite ?Hs; cbn [fst]; repeat split; auto; try discriminate;
      try congruence; intros H; discriminate H.
  - destruct He as (_ & _ & -> & -> & -> & _).
    repeat split; auto; try discriminate; intros H; discriminate H.
  - destruct He as (cmd & nx & _ & _ & _ & -> & -> & -> & _).
    repeat split; auto; try discriminate; intros H; discriminate H.
Qed.

(** X4.  What a handler may write.  The request buffer is written only by
    START entered with [wlen = 0]; [in_write_payload] only by the two
    PAUSE states; the two queues only by FINISH; and the PAUSE states and
    FINISH leave the write cursor and the send flags alone. *)
Theorem handler_frame (q : state) (m : memory) (s : sock_result)
  (h h' : nbd_handle) (r : Z) (next : option state) (out : list byte) :
  enter q m s h = Some (Returned r next h' out) ->
  (request h' = request h \/ (q = ISSUE_COMMAND_START /\ wlen h = 0)) /\
  (in_write_payload h' = in_write_payload h \/
   q = ISSUE_COMMAND_PAUSE_SEND_REQUEST \/
   q = ISSUE_COMMAND_PAUSE_WRITE_PAYLOAD) /\
  ((cmds_to_issue h' = cmds_to_issue h /\
    cmds_in_flight h' = cmds_in_flight h) \/ q = ISSUE_COMMAND_FINISH) /\
  (q = ISSUE_COMMAND_PAUSE_SEND_REQUEST \/
   q = ISSUE_COMMAND_PAUSE_WRITE_PAYLOAD \/ q = ISSUE_COMMAND_FINISH ->
   wbuf h' = wbuf h /\ wlen h' = wlen h /\ wflags h' = wflags h).
Proof.
  intros He. pose proof (enter_cases q m s h h' r next out He) as Hc.
  destruct q; try contradiction.
  - destruct Hc as (cmd & nx & Hq & _ & _ & [(_ & -> & _)|(Hw & _ & ->)]);
      simpl_cfg.
    + repeat split; auto; try no_such_state.
    + rewrite Hq. repeat split; auto; try no_such_state.
  - destruct Hc as (r0 & Hs & _).
    pose proof (send_from_wbuf_queues m s h) as Hqs.
    rewrite Hs in Hqs. cbn [fst snd] in Hqs.
    repeat split; try tauto; try no_such_state.
  - destruct Hc as (_ & _ & _ & _ & _ & ->). simpl_handle.
    repeat split; auto.
  - destruct Hc as (cmd & nx & Hq & _ & _ & _ & [(_ & _ & ->)|(_ & _ & ->)]);
      simpl_cfg; rewrite ?Hq; repeat split; auto;
      try no_such_state.
  - destruct Hc as (r0 & Hs & _).
    pose proof (send_from_wbuf_queues m s h) as Hqs.
    rewrite Hs in Hqs. cbn [fst snd] in Hqs.
    repeat split; try tauto; try no_such_state.
  - destruct Hc as (_ & _ & _ & _ & _ & ->). simpl_handle.
    repeat split; auto.
  - destruct Hc as (cmd & nx & _ & _ & _ & _ & _ & _ & ->). simpl_cfg.
    repeat split; auto.
Qed.

(** X3.  The table [successors] is exactly what the handlers do: a handler
    that returns has selected one of the listed states (or none, where
    the table says so), and every entry of the table is selected on some
    input.  In particular no handler selects START or a PAUSE state, only
    the PAUSE states select the start of the reply path and only FINISH
    selects READY. *)
Theorem handlers_follow_table (q : state) (next : option state) :
  In next (successors q) <->
  exists m s h r h' out, enter q m s h = Some (Returned r next h' out).
Proof.
  split.
  - assert (Hread : cmd_handle ex_read =
                    be64toh (req_handle (request (ex_header_sent ex_read))))
      by (symmetry; apply be64toh_htobe64; vm_compute; split; congruence).
    assert (Hwrite : cmd_handle ex_write =
                     be64toh (req_handle (request (ex_header_sent ex_write))))
      by (symmetry; apply be64toh_htobe64; vm_compute; split; congruence).
    destruct q; cbn [successors In]; intros Hin;
      repeat match goal with
             | H : _ \/ _ |- _ => destruct H as [H|H]
             | H : False |- _ => destruct H
             end; subst next; exists ex_memory.
    + exists SockAgain, (ex_handle [ex_read]). do 3 eexists.
      cbn [enter].
      now rewrite (START_fresh (ex_handle [ex_read]) ex_read [] eq_refl eq_refl).
    + exists SockAgain, ex_partial_payload. do 3 eexists.
      cbn [enter]. rewrite START_resume by discriminate. reflexivity.
    + exists SockError, ex_partial. do 3 eexists. reflexivity.
    + exists (SockSent (wlen ex_partial)), ex_partial. do 3 eexists.
      cbn [enter]. unfold enter_ISSUE_COMMAND_SEND_REQUEST.
      rewrite send_everything by (vm_compute; discriminate). reflexivity.
    + exists SockAgain, ex_partial. do 3 eexists. reflexivity.
    + exists SockAgain, ex_partial. do 3 eexists. reflexivity.
    + exists SockAgain, (ex_header_sent ex_write). do 3 eexists.
      cbn [enter].
      rewrite (PREPARE_WRITE_PAYLOAD_ok (ex_header_sent ex_write) ex_write []
                 eq_refl Hwrite).
      reflexivity.
    + exists SockAgain, (ex_header_sent ex_read). do 3 eexists.
      cbn [enter].
      rewrite (PREPARE_WRITE_PAYLOAD_ok (ex_header_sent ex_read) ex_read []
                 eq_refl Hread).
      reflexivity.
    + exists SockError, ex_partial_payload. do 3 eexists. reflexivity.
    + exists (SockSent (wlen ex_partial_payload)), ex_partial_payload.
      do 3 eexists.
      cbn [enter]. unfold enter_ISSUE_COMMAND_SEND_WRITE_PAYLOAD.
      rewrite send_everything by (vm_compute; discriminate). reflexivity.
    + exists SockAgain, ex_partial_payload. do 3 eexists. reflexivity.
    + exists SockAgain, ex_partial_payload. do 3 eexists. reflexivity.
    + exists SockAgain, (ex_header_sent ex_read). do 3 eexists.
      cbn [enter].
      now rewrite (FINISH_ok (ex_header_sent ex_read) ex_read []
                     eq_refl eq_refl Hread).
  - intros (m & s & h & r & h' & out & He).
    apply enter_cases in He. destruct q; try contradiction;
      cbn [successors In].
    + destruct He as (cmd & nx & _ & _ & _ & [(_ & _ & ->)|(_ & -> & _)]);
        [destruct (in_write_payload h)|]; auto.
    + destruct He as (r0 & _ & [(_ & _ & ->)|[(_ & _ & ->)|(_ & _ & _ & ->)]]);
        auto.
    + destruct He as (_ & _ & _ & _ & -> & _). auto.
    + destruct He as (cmd & nx & _ & _ & _ & _ & [(_ & -> & _)|(_ & -> & _)]);
        auto.
    + destruct He as (r0 & _ & [(_ & _ & ->)|[(_ & _ & ->)|(_ & _ & _ & ->)]]);
        auto.
    + destruct He as (_ & _ & _ & _ & -> & _). auto.
    + destruct He as (cmd & nx & _ & _ & _ & _ & _ & -> & _). auto.
Qed.

Lemma be_bytes_inj (n : nat) (x y : Z) :
  be_bytes n x = be_bytes n y ->
  x mod 256 ^ Z.of_nat n = y mod 256 ^ Z.of_nat n.
Proof.
  unfold be_bytes. intros H. apply (f_equal (@rev byte)) in H.
  rewrite !rev_involutive in H.
  rewrite <- !of_le_bytes_le_bytes. now rewrite H.
Qed.

Lemma app_inj_length (a a' b b' : list byte) :
  length a = length a' -> a ++ b = a' ++ b' -> a = a' /\ b = b'.
Proof.
  revert a'. induction a as [|x a IH]; intros [|x' a'] Hl He;
    try discriminate.
  - auto.
  - cbn in Hl, He. injection He as -> He. injection Hl as Hl.
    destruct (IH a' Hl He) as [-> ->]. auto.
Qed.

(** The wire header determines the fields of a well-typed command, the
    count up to 2^32. *)
Lemma wire_header_inj (c1 c2 : command_in_flight) :
  cmd_wf c1 -> cmd_wf c2 -> wire_header c1 = wire_header c2 ->
  cmd_flags c1 = cmd_flags c2 /\ cmd_type c1 = cmd_type c2 /\
  cmd_handle c1 = cmd_handle c2 /\ cmd_offset c1 = cmd_offset c2 /\
  cmd_count c1 mod 2 ^ 32 = cmd_count c2 mod 2 ^ 32.
Proof.
  unfold cmd_wf, wire_header.
  intros (Hf1 & Ht1 & Hh1 & Ho1 & _) (Hf2 & Ht2 & Hh2 & Ho2 & _) He.
  apply app_inj_length in He; [|now rewrite !be_bytes_length].
  destruct He as [_ He].
  apply app_inj_length in He; [|now rewrite !be_bytes_length].
  destruct He as [Hf He].
  apply app_inj_length in He; [|now rewrite !be_bytes_length].
  destruct He as [Ht He].
  apply app_inj_length in He; [|now rewrite !be_bytes_length].
  destruct He as [Hh He].
  apply app_inj_length in He; [|now rewrite !be_bytes_length].
  destruct He as [Ho Hc].
  apply be_bytes_inj in Hf, Ht, Hh, Ho, Hc.
  change (256 ^ Z.of_nat 2) with (2 ^ 16) in Hf, Ht.
  change (256 ^ Z.of_nat 8) with (2 ^ 64) in Hh, Ho.
  change (256 ^ Z.of_nat 4) with (2 ^ 32) in Hc.
  rewrite !Z.mod_small in Hf, Ht, Hh, Ho by assumption.
  auto.
Qed.

(** X5.  The header START writes identifies the command: if START, run on
    two handles with nothing partially written, leaves the same 28 bytes
    in the two request buffers, then the two head commands have the same
    flags, type, handle and offset, and counts that agree modulo 2^32.
    This holds on either byte order of the host. *)
Theorem header_identifies_command (h1 h2 h1' h2' : nbd_handle)
  (c1 c2 : command_in_flight) (n1 n2 : list command_in_flight)
  (r1 r2 : Z) (x1 x2 : option state) (o1 o2 : list byte) :
  cmd_wf c1 -> cmd_wf c2 ->
  cmds_to_issue h1 = c1 :: n1 -> cmds_to_issue h2 = c2 :: n2 ->
  wlen h1 = 0 -> wlen h2 = 0 ->
  enter_ISSUE_COMMAND_START h1 = Returned r1 x1 h1' o1 ->
  enter_ISSUE_COMMAND_START h2 = Returned r2 x2 h2' o2 ->
  request_bytes (request h1') = request_bytes (request h2') ->
  cmd_flags c1 = cmd_flags c2 /\ cmd_type c1 = cmd_type c2 /\
  cmd_handle c1 = cmd_handle c2 /\ cmd_offset c1 = cmd_offset c2 /\
  cmd_count c1 mod 2 ^ 32 = cmd_count c2 mod 2 ^ 32.
Proof.
  intros Hc1 Hc2 Hq1 Hq2 Hw1 Hw2 He1 He2 Hb.
  rewrite (START_fresh h1 c1 n1 Hq1 Hw1) in He1.
  rewrite (START_fresh h2 c2 n2 Hq2 Hw2) in He2.
  injection He1 as <- <- <- <-. injection He2 as <- <- <- <-.
  simpl_cfg. rewrite !request_bytes_request_of in Hb.
  now apply wire_header_inj.
Qed.

(** X6.  The write cursor never leaves the buffer it drains.  In every
    configuration reached from a fresh START: while the header is being
    sent or is paused, [wbuf] points into the request buffer, [wlen]
    bytes before its end; while a payload is being sent or is paused, the
    head command is a WRITE and [wbuf] points into its data, [wlen] bytes
    before the end of its [count] bytes. *)
Theorem cursor_stays_in_buffer (m : memory) (evs : list event)
  (c0 c : config) (out : list byte) :
  fresh_start c0 -> Forall event_wf evs -> run m evs c0 = Some (c, out) ->
  let h := cfg_handle c in
  match cfg_state c with
  | ISSUE_COMMAND_SEND_REQUEST | ISSUE_COMMAND_PAUSE_SEND_REQUEST =>
      exists off,
        wbuf h = Ptr BRequest off /\ 0 <= off /\ 0 < wlen h /\
        off + wlen h = 28
  | ISSUE_COMMAND_SEND_WRITE_PAYLOAD | ISSUE_COMMAND_PAUSE_WRITE_PAYLOAD =>
      exists cmd next sent,
        cmds_to_issue h = cmd :: next /\ cmd_type cmd = NBD_CMD_WRITE /\
        wbuf h = ptr_add (cmd_data cmd) sent /\ 0 <= sent /\ 0 <= wlen h /\
        sent + wlen h = cmd_count cmd
  | _ => True
  end.
Proof.
  intros Hf Hev Hrun h.
  pose proof (reachable_inv m evs c0 c out Hf Hev Hrun) as [_ Hst].
  fold h in Hst.
  assert (Hhdr : header_cursor h ->
                 exists off, wbuf h = Ptr BRequest off /\ 0 <= off /\
                             0 < wlen h /\ off + wlen h = 28).
  { unfold header_cursor, sizeof_request. intros [Hb Hl].
    exists (28 - wlen h). repeat split; try assumption; lia. }
  assert (Hpay : payload_cursor h ->
                 exists cmd next sent,
                   cmds_to_issue h = cmd :: next /\
                   cmd_type cmd = NBD_CMD_WRITE /\
                   wbuf h = ptr_add (cmd_data cmd) sent /\ 0 <= sent /\
                   0 <= wlen h /\ sent + wlen h = cmd_count cmd).
  { unfold payload_cursor. destruct (cmds_to_issue h) as [|cmd next];
      [tauto|]. intros (Ht & Hb & Hl).
    exists cmd, next, (cmd_count cmd - wlen h).
    repeat split; try assumption; lia. }
  destruct (cfg_state c); try exact I; first [apply Hhdr|apply Hpay]; tauto.
Qed.

Lemma drain_enqueues_nothing (l : list command_in_flight) :
  enqueued (drain l) = [].
Proof.
  induction l as [|cmd [|cmd' l] IH]; [reflexivity| |].
  - cbn [drain]. rewrite app_nil_r. unfold drain_one.
    destruct (cmd_type cmd =? NBD_CMD_WRITE); reflexivity.
  - cbn [drain] in *. rewrite enqueued_app. cbn [enqueued]. rewrite IH.
    unfold drain_one. destruct (cmd_type cmd =? NBD_CMD_WRITE); reflexivity.
Qed.

Lemma drain_retires_nothing (l : list command_in_flight) :
  Forall retires_nothing (drain l).
Proof.
  induction l as [|cmd [|cmd' l] IH]; [constructor| |].
  - cbn [drain]. rewrite app_nil_r. unfold drain_one.
    destruct (cmd_type cmd =? NBD_CMD_WRITE); repeat constructor.
  - cbn [drain] in *. apply Forall_app. split.
    + unfold drain_one.
      destruct (cmd_type cmd =? NBD_CMD_WRITE); repeat constructor.
    + constructor; [exact I|exact IH].
Qed.

(** X7.  Progress.  Whatever the queue of well-typed commands, when the
    socket accepts what it is offered the machine goes from START to
    READY in four or five handler runs per command: nothing is left to
    issue, nothing is partially written, the bytes sent are the frames of
    the commands in queue order, and the commands are in flight, the last
    one issued first. *)
Theorem every_queue_is_issued (m : memory) (q : list command_in_flight)
  (b : bool) (h : nbd_handle) :
  cmds_to_issue h = q -> q <> [] -> wlen h = 0 -> Forall cmd_wf q ->
  exists h',
    run m (drain q) (mk_config ISSUE_COMMAND_START b h) =
      Some (mk_config READY false h', frames m q) /\
    cmds_to_issue h' = [] /\
    cmds_in_flight h' = rev q ++ cmds_in_flight h /\
    wlen h' = 0.
Proof.
  intros Hq Hne Hw Hwf.
  destruct (drain_completes m q b h Hq Hne Hw Hwf) as (h' & Hrun & He & Hw').
  exists h'. split; [exact Hrun|]. split; [exact He|]. split; [|exact Hw'].
  destruct (run_queues m (drain q) _ _ _ Hrun) as (issued & Hi & _ & Hf).
  simpl_cfg. rewrite drain_enqueues_nothing, He, !app_nil_r, Hq in Hi.
  rewrite (Hf (drain_retires_nothing q)). now rewrite <- Hi.
Qed.

(** * The test program *)

Lemma div_add_le (a b : Z) : 0 <= a -> 0 <= b -> a / 128 + b / 128 <= (a + b) / 128.
Proof.
  intros Ha Hb. apply Z.div_le_lower_bound; [lia|].
  pose proof (Z.mul_div_le a 128). pose proof (Z.mul_div_le b 128). lia.
Qed.

Lemma status_offset_eq (exportsize i j : Z) :
  0 <= exportsize -> 127 * exportsize < 2 ^ 64 ->
  0 <= i < NR_MULTI_CONN -> 0 <= j < MAX_IN_FLIGHT ->
  status_offset exportsize i j = (i * 16 + j) * exportsize / 128.
Proof.
  unfold status_offset, NR_MULTI_CONN, MAX_IN_FLIGHT, to_uint64.
  intros He Hov Hi Hj.
  rewrite Z.mod_small by nia.
  rewrite Z.div_div by lia. reflexivity.
Qed.

Lemma status_length_eq (exportsize : Z) :
  0 <= exportsize < 2 ^ 64 -> status_length exportsize = exportsize / 128.
Proof.
  unfold status_length, NR_MULTI_CONN, MAX_IN_FLIGHT, to_uint64.
  intros He.
  rewrite (Z.quot_div_nonneg exportsize 8) by lia.
  rewrite Z.quot_div_nonneg; [|apply Z.div_pos; lia|lia].
  rewrite Z.div_div by lia. apply Z.mod_small.
  split; [apply Z.div_pos; lia|].
  apply Z.le_lt_trans with exportsize; [|lia].
  apply Z.div_le_upper_bound; lia.
Qed.

Lemma areas_bounds_aux (exportsize i j i' j' : Z) :
  0 <= exportsize -> 127 * exportsize < 2 ^ 64 ->
  0 <= i < NR_MULTI_CONN -> 0 <= j < MAX_IN_FLIGHT ->
  0 <= i' < NR_MULTI_CONN -> 0 <= j' < MAX_IN_FLIGHT ->
  0 <= status_offset exportsize i j /\
  status_offset exportsize i j + status_length exportsize <= exportsize /\
  (i * MAX_IN_FLIGHT + j < i' * MAX_IN_FLIGHT + j' ->
   status_offset exportsize i j + status_length exportsize
     <= status_offset exportsize i' j').
Proof.
  intros He Hov Hi Hj Hi' Hj'.
  rewrite !status_offset_eq, status_length_eq by (assumption || lia).
  unfold NR_MULTI_CONN, MAX_IN_FLIGHT in *.
  assert (Hstep : forall k, 0 <= k ->
            k * exportsize / 128 + exportsize / 128
              <= (k + 1) * exportsize / 128).
  { intros k Hk. replace ((k + 1) * exportsize)
      with (k * exportsize + exportsize) by ring.
    apply div_add_le; nia. }
  split; [apply Z.div_pos; nia|]. split.
  - apply Z.le_trans with ((i * 16 + j + 1) * exportsize / 128);
      [apply Hstep; lia|].
    apply Z.div_le_upper_bound; [lia|]. nia.
  - intros Hlt.
    apply Z.le_trans with ((i * 16 + j + 1) * exportsize / 128);
      [apply Hstep; lia|].
    apply Z.div_le_mono; [lia|]. nia.
Qed.

(** X8.  For an export whose size does not make the products overflow,
    the areas [main] assigns to the 8 x 16 command slots lie inside the
    export and do not overlap: each area ends where the export ends or
    before, and an area with a smaller index [i * 16 + j] ends before
    the next one starts. *)
Theorem areas_partition_export (exportsize i j i' j' : Z) :
  0 <= exportsize -> 127 * exportsize < 2 ^ 64 ->
  0 <= i < NR_MULTI_CONN -> 0 <= j < MAX_IN_FLIGHT ->
  0 <= i' < NR_MULTI_CONN -> 0 <= j' < MAX_IN_FLIGHT ->
  0 <= status_offset exportsize i j /\
  status_offset exportsize i j + status_length exportsize <= exportsize /\
  (i * MAX_IN_FLIGHT + j < i' * MAX_IN_FLIGHT + j' ->
   status_offset exportsize i j + status_length exportsize
     <= status_offset exportsize i' j').
Proof. apply areas_bounds_aux. Qed.

Lemma request_offset_spec (area_offset area_length rand_value : Z) :
  0 <= area_offset -> BUFFERSIZE < area_length ->
  area_offset + area_length < 2 ^ 63 -> 0 <= rand_value < 2 ^ 31 ->
  exists o,
    request_offset area_offset area_length rand_value = Some o /\
    area_offset <= o /\ o + BUFFERSIZE < area_offset + area_length.
Proof.
  unfold request_offset, to_uint64, to_int64, BUFFERSIZE.
  intros Ho Hl Hb Hr.
  rewrite (Z.mod_small (area_length - 16384)) by lia.
  destruct (Z.eqb_spec (area_length - 16384) 0) as [H0|H0]; [lia|].
  rewrite (Z.mod_small rand_value) by lia.
  pose proof (Z.mod_pos_bound rand_value (area_length - 16384)
                ltac:(lia)) as Hm.
  rewrite !(Z.mod_small (area_offset + _)) by lia.
  destruct (Z.ltb_spec (area_offset + rand_value mod (area_length - 16384))
              (2 ^ 63)); [|lia].
  eexists. split; [reflexivity|]. lia.
Qed.

(** X9.  A request stays inside the area of its slot, so requests of
    different slots never overlap.  When every area is larger than
    BUFFERSIZE, whatever [rand ()] returns, the offset [start_thread]
    computes for a slot is at or after the start of that slot's area and
    its BUFFERSIZE bytes end before the area does; two requests placed in
    different slots, of the same thread or of different threads, are
    disjoint byte ranges of the export. *)
Theorem requests_never_overlap (exportsize i j i' j' rand1 rand2 : Z) :
  0 <= exportsize < 2 ^ 57 ->
  BUFFERSIZE < status_length exportsize ->
  0 <= i < NR_MULTI_CONN -> 0 <= j < MAX_IN_FLIGHT ->
  0 <= i' < NR_MULTI_CONN -> 0 <= j' < MAX_IN_FLIGHT ->
  0 <= rand1 < 2 ^ 31 -> 0 <= rand2 < 2 ^ 31 ->
  exists o o',
    request_offset (status_offset exportsize i j)
      (status_length exportsize) rand1 = Some o /\
    request_offset (status_offset exportsize i' j')
      (status_length exportsize) rand2 = Some o' /\
    0 <= o /\ o + BUFFERSIZE <= exportsize /\
    status_offset exportsize i j <= o /\
    o + BUFFERSIZE < status_offset exportsize i j + status_length exportsize /\
    (i * MAX_IN_FLIGHT + j <> i' * MAX_IN_FLIGHT + j' ->
     o + BUFFERSIZE <= o' \/ o' + BUFFERSIZE <= o).
Proof.
  intros He Hlen Hi Hj Hi' Hj' Hr1 Hr2.
  assert (Hov : 127 * exportsize < 2 ^ 64) by lia.
  destruct (areas_bounds_aux exportsize i j i' j') as (A1 & A2 & A3);
    try assumption; try lia.
  destruct (areas_bounds_aux exportsize i' j' i j) as (B1 & B2 & B3);
    try assumption; try lia.
  destruct (request_offset_spec (status_offset exportsize i j)
              (status_length exportsize) rand1) as (o & Ho & Ho1 & Ho2);
    try assumption; try lia.
  destruct (request_offset_spec (status_offset exportsize i' j')
              (status_length exportsize) rand2) as (o' & Ho' & Ho1' & Ho2');
    try assumption; try lia.
  exists o, o'.
  split; [exact Ho|]. split; [exact Ho'|].
  split; [lia|]. split; [lia|]. split; [exact Ho1|]. split; [exact Ho2|].
  intros Hne.
  destruct (Z.lt_total (i * MAX_IN_FLIGHT + j) (i' * MAX_IN_FLIGHT + j'))
    as [Hlt|[Heq|Hgt]]; [left|contradiction|right].
  - specialize (A3 Hlt). lia.
  - specialize (B3 Hgt). lia.
Qed.

Lemma request_offset_small_area (area_offset area_length rand_value : Z) :
  (area_length = BUFFERSIZE ->
   request_offset area_offset area_length rand_value = None) /\
  (0 <= area_length < BUFFERSIZE -> 0 <= area_offset ->
   0 <= rand_value < 2 ^ 31 -> area_offset + rand_value < 2 ^ 63 ->
   request_offset area_offset area_length rand_value =
     Some (area_offset + rand_value)).
Proof.
  unfold request_offset, to_uint64, to_int64, BUFFERSIZE. split.
  - intros ->. reflexivity.
  - intros Hl Ho Hr Hb.
    replace ((area_length - 16384) mod 2 ^ 64)
      with (area_length - 16384 + 2 ^ 64).
    2:{ symmetry. rewrite <- (Z.mod_add _ 1) by lia.
        rewrite Z.mul_1_l. apply Z.mod_small. lia. }
    destruct (Z.eqb_spec (area_length - 16384 + 2 ^ 64) 0); [lia|].
    rewrite (Z.mod_small rand_value (2 ^ 64)) by lia.
    rewrite (Z.mod_small rand_value) by lia.
    rewrite !(Z.mod_small (area_offset + rand_value)) by lia.
    destruct (Z.ltb_spec (area_offset + rand_value) (2 ^ 63)); [|lia].
    reflexivity.
Qed.

(** X10.  On an export too small for the test the request leaves its
    area.  When an area is exactly BUFFERSIZE long the remainder is taken
    by zero and no offset is defined; when it is shorter, the divisor
    wraps around in [uint64_t] and the offset is the start of the area
    plus whatever [rand ()] returned, so that the request runs past the
    end of the area as soon as [rand ()] is not below its length. *)
Theorem request_escapes_small_area (area_offset area_length rand_value : Z) :
  0 <= area_offset -> 0 <= area_length <= BUFFERSIZE ->
  0 <= rand_value < 2 ^ 31 -> area_offset + rand_value < 2 ^ 63 ->
  (area_length = BUFFERSIZE ->
   request_offset area_offset area_length rand_value = None) /\
  (area_length < BUFFERSIZE ->
   request_offset area_offset area_length rand_value =
     Some (area_offset + rand_value) /\
   (area_length <= rand_value ->
    area_offset + area_length <= area_offset + rand_value)).
Proof.
  intros Ho Hl Hr Hb.
  destruct (request_offset_small_area area_offset area_length rand_value)
    as [H1 H2].
  split; [exact H1|]. intros Hlt. split; [apply H2; lia|lia].
Qed.

(** ** The shadow RAM disk *)

Lemma take_app_exact (a b : list byte) (n : Z) :
  Z.of_nat (length a) = n -> take n (a ++ b) = a.
Proof.
  intros <-. unfold take. rewrite Nat2Z.id.
  rewrite firstn_app, Nat.sub_diag, firstn_all. cbn. apply app_nil_r.
Qed.

Lemma drop_app_exact (a b : list byte) (n : Z) :
  Z.of_nat (length a) = n -> drop n (a ++ b) = b.
Proof.
  intros <-. unfold drop. rewrite Nat2Z.id.
  rewrite skipn_app, Nat.sub_diag, skipn_all. reflexivity.
Qed.

Lemma drop_length (n : Z) (l : list byte) :
  0 <= n <= Z.of_nat (length l) ->
  Z.of_nat (length (drop n l)) = Z.of_nat (length l) - n.
Proof. intros H. unfold drop. rewrite length_skipn. lia. Qed.

Lemma memcpy_word (pre rest w : list byte) (i : Z) :
  Z.of_nat (length pre) = i -> length w = 8%nat ->
  8 <= Z.of_nat (length rest) ->
  memcpy (pre ++ rest) i w = Some ((pre ++ w) ++ drop 8 rest).
Proof.
  intros Hp Hw Hr. unfold memcpy. rewrite Hw, length_app.
  change (Z.of_nat 8) with 8.
  replace ((0 <=? i) && (i + 8 <=? Z.of_nat (length pre + length rest)))
    with true by (symmetry; apply andb_true_iff; split;
                  [apply Z.leb_le|apply Z.leb_le]; lia).
  rewrite take_app_exact by exact Hp.
  rewrite drop_plus by lia. rewrite drop_app_exact by exact Hp.
  now rewrite <- app_assoc.
Qed.

Lemma memcpy_overrun (pre rest w : list byte) (i : Z) :
  Z.of_nat (length pre) = i -> length w = 8%nat ->
  Z.of_nat (length rest) < 8 ->
  memcpy (pre ++ rest) i w = None.
Proof.
  intros Hp Hw Hr. unfold memcpy. rewrite Hw, length_app.
  change (Z.of_nat 8) with 8.
  replace (i + 8 <=? Z.of_nat (length pre + length rest)) with false
    by (symmetry; apply Z.leb_gt; lia).
  now rewrite andb_false_r.
Qed.

Lemma host_word (i : Z) : host_bytes 8 (htobe64 i) = be_bytes 8 i.
Proof. unfold htobe64. apply host_bytes_htobe. Qed.

Lemma fill_ramdisk_pattern (exportsize : Z) (n : nat) :
  forall (fuel : nat) (i : Z) (pre rest : list byte),
  (n <= fuel)%nat -> 0 <= i -> exportsize < 2 ^ 64 ->
  Z.of_nat (length pre) = i ->
  Z.of_nat (length rest) = 8 * Z.of_nat n ->
  i + 8 * Z.of_nat n = exportsize ->
  fill_ramdisk fuel exportsize i (pre ++ rest) =
    Finished (pre ++ pattern_from i n).
Proof.
  induction n as [|n IH]; intros fuel i pre rest Hf Hi He Hp Hr Hn.
  - assert (Hrest : rest = []) by (destruct rest; [reflexivity|cbn in Hr; lia]).
    subst rest. cbn [pattern_from].
    destruct fuel; cbn [fill_ramdisk]; unfold to_uint64;
      rewrite Z.mod_small by lia;
      (destruct (Z.ltb_spec i exportsize); [lia|reflexivity]).
  - destruct fuel as [|fuel]; [lia|]. cbn [fill_ramdisk pattern_from].
    unfold to_uint64. rewrite (Z.mod_small exportsize) by lia.
    destruct (Z.ltb_spec i exportsize); [|lia].
    rewrite host_word.
    rewrite memcpy_word by (rewrite ?be_bytes_length; auto; lia).
    rewrite Z.mod_small by lia.
    rewrite (IH fuel (i + 8) (pre ++ be_bytes 8 i) (drop 8 rest));
      try lia.
    + now rewrite <- app_assoc.
    + rewrite length_app, be_bytes_length. lia.
    + rewrite drop_length by lia. lia.
Qed.

Lemma fill_ramdisk_overrun (exportsize : Z) (n : nat) :
  forall (fuel : nat) (i r : Z) (pre rest : list byte),
  0 <= i -> exportsize < 2 ^ 64 -> 0 < r < 8 ->
  Z.of_nat (length pre) = i ->
  Z.of_nat (length rest) = 8 * Z.of_nat n + r ->
  i + 8 * Z.of_nat n + r = exportsize ->
  (forall rd, fill_ramdisk fuel exportsize i (pre ++ rest) <> Finished rd) /\
  ((n < fuel)%nat -> fill_ramdisk fuel exportsize i (pre ++ rest) = Overrun).
Proof.
  induction n as [|n IH]; intros fuel i r pre rest Hi He Hrr Hp Hr Hn.
  - destruct fuel as [|fuel]; cbn [fill_ramdisk]; unfold to_uint64;
      rewrite (Z.mod_small exportsize) by lia;
      (destruct (Z.ltb_spec i exportsize); [|lia]).
    + split; [discriminate|lia].
    + rewrite host_word.
      rewrite memcpy_overrun by (rewrite ?be_bytes_length; auto; lia).
      split; [discriminate|reflexivity].
  - destruct fuel as [|fuel]; cbn [fill_ramdisk]; unfold to_uint64;
      rewrite (Z.mod_small exportsize) by lia;
      (destruct (Z.ltb_spec i exportsize); [|lia]).
    + split; [discriminate|lia].
    + rewrite host_word.
      rewrite memcpy_word by (rewrite ?be_bytes_length; auto; lia).
      rewrite Z.mod_small by lia.
      destruct (IH fuel (i + 8) r (pre ++ be_bytes 8 i) (drop 8 rest))
        as [H1 H2]; try lia.
      * rewrite length_app, be_bytes_length. lia.
      * rewrite drop_length by lia. lia.
      * split; [exact H1|]. intros Hlt. apply H2. lia.
Qed.

Lemma pattern_from_length (n : nat) (i : Z) :
  Z.of_nat (length (pattern_from i n)) = 8 * Z.of_nat n.
Proof.
  revert i; induction n as [|n IH]; intros i; cbn [pattern_from];
    [reflexivity|].
  rewrite length_app, be_bytes_length, Nat2Z.inj_add, IH. lia.
Qed.

Lemma pattern_from_word (n : nat) :
  forall (i : Z) (k : nat), (k < n)%nat ->
  take 8 (drop (8 * Z.of_nat k) (pattern_from i n)) =
    be_bytes 8 (i + 8 * Z.of_nat k).
Proof.
  induction n as [|n IH]; intros i k Hk; [lia|].
  cbn [pattern_from]. destruct k as [|k].
  - cbn [Z.of_nat]. rewrite Z.mul_0_r, Z.add_0_r.
    unfold drop; cbn [Z.to_nat skipn].
    apply take_app_exact. now rewrite be_bytes_length.
  - replace (8 * Z.of_nat (S k)) with (8 + 8 * Z.of_nat k) by lia.
    rewrite drop_plus by lia.
    rewrite drop_app_exact by now rewrite be_bytes_length.
    rewrite IH by lia. f_equal. lia.
Qed.

(** X11.  When the export size is a multiple of 8, the loop of [main]
    that initialises the shadow RAM disk ends normally, whatever [malloc]
    had left in the allocation and whatever the byte order of the host;
    the disk keeps its size and the 8 bytes at every aligned offset are
    that offset in network byte order. *)
Theorem ramdisk_holds_pattern (exportsize : Z) (fuel : nat)
  (garbage : list byte) :
  0 <= exportsize < 2 ^ 63 -> exportsize mod 8 = 0 ->
  Z.of_nat (length garbage) = exportsize ->
  exportsize / 8 <= Z.of_nat fuel ->
  exists ramdisk,
    fill_ramdisk fuel exportsize 0 garbage = Finished ramdisk /\
    Z.of_nat (length ramdisk) = exportsize /\
    (forall k, 0 <= k < exportsize / 8 ->
       take 8 (drop (8 * k) ramdisk) = be_bytes 8 (8 * k)).
Proof.
  intros He Hm Hg Hf.
  assert (Hn : exportsize = 8 * Z.of_nat (Z.to_nat (exportsize / 8))).
  { rewrite Z2Nat.id by (apply Z.div_pos; lia).
    apply Z.div_exact in Hm; lia. }
  exists (pattern_from 0 (Z.to_nat (exportsize / 8))).
  split; [|split].
  - apply (fill_ramdisk_pattern exportsize (Z.to_nat (exportsize / 8))
             fuel 0 [] garbage); try lia. reflexivity.
  - rewrite pattern_from_length. lia.
  - intros k Hk. rewrite <- (Z2Nat.id k) by lia.
    rewrite pattern_from_word by lia. reflexivity.
Qed.

(** X12.  When the export size is positive and not a multiple of 8, the
    same loop does not end normally: its last [memcpy] writes 8 bytes
    where fewer are left, past the end of the allocation. *)
Theorem ramdisk_fill_overruns (exportsize : Z) (fuel : nat)
  (garbage : list byte) :
  0 < exportsize < 2 ^ 63 -> exportsize mod 8 <> 0 ->
  Z.of_nat (length garbage) = exportsize ->
  (forall ramdisk,
     fill_ramdisk fuel exportsize 0 garbage <> Finished ramdisk) /\
  (exportsize / 8 < Z.of_nat fuel ->
   fill_ramdisk fuel exportsize 0 garbage = Overrun).
Proof.
  intros He Hm Hg.
  pose proof (Z.div_mod exportsize 8 ltac:(lia)) as Hd.
  pose proof (Z.mod_pos_bound exportsize 8 ltac:(lia)) as Hb.
  assert (Hq : 0 <= exportsize / 8) by (apply Z.div_pos; lia).
  destruct (fill_ramdisk_overrun exportsize (Z.to_nat (exportsize / 8))
              fuel 0 (exportsize mod 8) [] garbage) as [H1 H2];
    try rewrite Z2Nat.id; try lia; try reflexivity.
  split; [exact H1|]. intros Hlt. apply H2. lia.
Qed.

(** ** The command slots of a thread *)

Lemma count_used_cons (c : command) (l : list command) :
  count_used (c :: l) = (if used c then 1 else 0) + count_used l.
Proof.
  unfold count_used. cbn [filter]. destruct (used c); cbn [length]; lia.
Qed.

Lemma count_used_bounds (l : list command) :
  0 <= count_used l <= Z.of_nat (length l).
Proof.
  induction l as [|c l IH]; [cbn; lia|].
  rewrite count_used_cons. cbn [length]. destruct (used c); lia.
Qed.

Lemma free_slot_le (l : list command) : (free_slot l <= length l)%nat.
Proof.
  induction l as [|c l IH]; cbn; [lia|].
  destruct (c_offset c =? -1); lia.
Qed.

(** When no slot is free, all are in use. *)
Lemma free_slot_none (l : list command) :
  Forall slot_ok l -> free_slot l = length l ->
  count_used l = Z.of_nat (length l).
Proof.
  induction 1 as [|c l [_ Hc] _ IH]; [reflexivity|].
  cbn [free_slot length]. rewrite count_used_cons.
  destruct (Z.eqb_spec (c_offset c) (-1)) as [He|He]; [discriminate|].
  intros [= Hf]. rewrite (IH Hf). unfold used.
  destruct (Z.leb_spec 0 (c_offset c)); lia.
Qed.

Lemma free_slot_found (l : list command) :
  (free_slot l < length l)%nat ->
  exists c, nth_error l (free_slot l) = Some c /\ c_offset c = -1.
Proof.
  induction l as [|c l IH]; cbn [free_slot length]; [lia|].
  destruct (Z.eqb_spec (c_offset c) (-1)) as [He|He].
  - intros _. exists c. auto.
  - intros Hlt. apply IH. lia.
Qed.

Lemma set_slot_length (l : list command) (i : nat) (c : command) :
  (i < length l)%nat -> length (set_slot l i c) = length l.
Proof.
  intros Hi. unfold set_slot.
  rewrite length_app, length_firstn. cbn [length]. rewrite length_skipn.
  lia.
Qed.

Lemma set_slot_Forall (P : command -> Prop) (l : list command) (i : nat)
  (c : command) :
  Forall P l -> P c -> Forall P (set_slot l i c).
Proof.
  intros Hl Hc. revert i. unfold set_slot.
  induction Hl as [|x l Hx Hl IH]; intros [|i]; cbn [firstn skipn app].
  - now constructor.
  - now constructor.
  - now constructor.
  - constructor; [exact Hx|]. apply IH.
Qed.

Lemma set_slot_count (l : list command) :
  forall (i : nat) (c0 c : command),
  nth_error l i = Some c0 ->
  count_used (set_slot l i c) =
    count_used l - (if used c0 then 1 else 0) + (if used c then 1 else 0).
Proof.
  induction l as [|x l IH]; intros [|i] c0 c Hn; try discriminate.
  - cbn in Hn. injection Hn as ->. unfold set_slot. cbn [firstn skipn app].
    rewrite !count_used_cons. lia.
  - cbn in Hn. specialize (IH i c0 c Hn).
    unfold set_slot in *. cbn [firstn skipn app].
    rewrite !count_used_cons. cbn [skipn] in IH. lia.
Qed.

Lemma memcpy_length (mem mem' src : list byte) (dst : Z) :
  memcpy mem dst src = Some mem' -> length mem' = length mem.
Proof.
  unfold memcpy.
  destruct (Z.leb_spec 0 dst); [|discriminate].
  destruct (Z.leb_spec (dst + Z.of_nat (length src)) (Z.of_nat (length mem)));
    [|discriminate].
  cbn [andb]. intros [= <-].
  unfold take, drop.
  rewrite !length_app, length_firstn, length_skipn. lia.
Qed.

Lemma memcpy_fits (mem src : list byte) (dst : Z) :
  0 <= dst -> dst + Z.of_nat (length src) <= Z.of_nat (length mem) ->
  exists mem', memcpy mem dst src = Some mem'.
Proof.
  intros Hd Hl. unfold memcpy.
  destruct (Z.leb_spec 0 dst); [|lia].
  destruct (Z.leb_spec (dst + Z.of_nat (length src)) (Z.of_nat (length mem)));
    [|lia].
  eexists. reflexivity.
Qed.

Lemma take_length_le (n : Z) (l : list byte) :
  0 <= n <= Z.of_nat (length l) -> Z.of_nat (length (take n l)) = n.
Proof. intros H. unfold take. rewrite length_firstn. lia. Qed.

(** What one issue does to a thread whose bookkeeping is in order. *)
Lemma issue_request_ok (area_offset area_length : nat -> Z)
  (rand1 rand2 handle : Z) (t : thread) :
  slots_ok t -> areas_ok area_offset area_length t ->
  in_flight t < MAX_IN_FLIGHT ->
  0 <= rand1 < 2 ^ 31 ->
  exists i slot o rd,
    i = free_slot (commands t) /\
    nth_error (commands t) i = Some slot /\ c_offset slot = -1 /\
    request_offset (area_offset i) (area_length i) rand1 = Some o /\
    area_offset i <= o /\
    o + BUFFERSIZE < area_offset i + area_length i /\
    length rd = length (ramdisk t) /\
    issue_request area_offset area_length rand1 rand2 handle t =
      if handle =? -1 then GotoError
      else
        Continue
          (mk_thread
             (set_slot (commands t) i
                (mk_slot (c_buf slot) o handle (Z.land rand2 1)))
             (in_flight t + 1) (requests t)
             (if most_in_flight t <? in_flight t + 1
              then in_flight t + 1 else most_in_flight t)
             (if Z.land rand2 1 =? 0
              then to_uint64 (bytes_sent t + BUFFERSIZE) else bytes_sent t)
             (if Z.land rand2 1 =? 0 then bytes_received t
              else to_uint64 (bytes_received t + BUFFERSIZE))
             rd).
Proof.
  intros (Hlen & Hall & Hfl) (Hrd & Hareas) Hlt Hr.
  unfold issue_request, MAX_IN_FLIGHT in *.
  pose proof (free_slot_le (commands t)) as Hle.
  pose proof (count_used_bounds (commands t)) as Hcb.
  assert (Hi : (free_slot (commands t) < length (commands t))%nat).
  { destruct (Nat.eq_dec (free_slot (commands t)) (length (commands t)))
      as [He|He]; [|lia].
    pose proof (free_slot_none (commands t) Hall He). lia. }
  set (i := free_slot (commands t)) in *.
  destruct (Z.ltb_spec (Z.of_nat i) 16); [|lia]. cbn [negb].
  destruct (free_slot_found (commands t) Hi) as (slot & Hnth & Hoff).
  fold i in Hnth. rewrite Hnth.
  assert (Hslot : slot_ok slot).
  { rewrite Forall_forall in Hall. apply Hall.
    now apply (nth_error_In _ i). }
  destruct Hslot as [Hbuf _].
  destruct (Hareas i ltac:(lia)) as (Ha1 & Ha2 & Ha3).
  destruct (request_offset_spec (area_offset i) (area_length i) rand1)
    as (o & Ho & Ho1 & Ho2); try assumption; try lia.
  rewrite Ho.
  assert (Hwrap : to_uint64 (in_flight t + 1) = in_flight t + 1).
  { unfold to_uint64. apply Z.mod_small. lia. }
  assert (Hwrap32 : to_unsigned (in_flight t + 1) = in_flight t + 1).
  { unfold to_unsigned. apply Z.mod_small. lia. }
  destruct (Z.land rand2 1 =? 0).
  - destruct (memcpy_fits (ramdisk t) (take BUFFERSIZE (c_buf slot)) o)
      as (rd & Hm).
    + lia.
    + rewrite take_length_le by (unfold BUFFERSIZE in *; lia). lia.
    + rewrite Hm. cbn [in_flight commands most_in_flight requests
                       bytes_sent bytes_received ramdisk].
      rewrite Hwrap, Hwrap32.
      exists i, slot, o, rd. repeat split; auto.
      now apply memcpy_length in Hm.
  - cbn [in_flight commands most_in_flight requests bytes_sent
         bytes_received ramdisk].
    rewrite Hwrap, Hwrap32.
    exists i, slot, o, (ramdisk t). repeat split; auto.
Qed.

Lemma issued_slots_ok (t : thread) (i : nat) (slot : command)
  (o handle cmd n m bs br : Z) (rd : list byte) :
  slots_ok t -> nth_error (commands t) i = Some slot -> c_offset slot = -1 ->
  0 <= o -> n = in_flight t + 1 ->
  slots_ok (mk_thread (set_slot (commands t) i
                         (mk_slot (c_buf slot) o handle cmd))
              n (requests t) m bs br rd).
Proof.
  intros (Hlen & Hall & Hfl) Hnth Hoff Ho ->.
  assert (Hi : (i < length (commands t))%nat)
    by (apply nth_error_Some; congruence).
  assert (Hslot : slot_ok slot).
  { rewrite Forall_forall in Hall. apply Hall.
    now apply (nth_error_In _ i). }
  unfold slots_ok. cbn [commands in_flight]. split; [|split].
  - rewrite set_slot_length by exact Hi. exact Hlen.
  - apply set_slot_Forall; [exact Hall|].
    split; cbn; [apply Hslot|right; exact Ho].
  - rewrite (set_slot_count _ i slot _ Hnth).
    unfold used at 1 2. cbn [c_offset]. rewrite Hoff.
    destruct (Z.leb_spec 0 o); [|lia]. cbn. lia.
Qed.


Lemma freed_ok (c : command) : slot_ok c -> slot_ok (freed c).
Proof. intros [Hb _]. split; cbn; auto. Qed.

Lemma used_freed (c : command) : used (freed c) = false.
Proof. reflexivity. Qed.

Lemma to_unsigned_succ (nr k : Z) :
  to_unsigned (to_unsigned (nr + 1) + k) = to_unsigned (nr + (k + 1)).
Proof.
  unfold to_unsigned. rewrite Z.add_mod_idemp_l by lia. f_equal. lia.
Qed.

Lemma retire_from_spec (completed : nat -> Z) (rd : list byte) :
  forall (l : list command) (i : nat) (nf nr : Z)
         (l' : list command) (nf' nr' : Z),
  Forall slot_ok l -> count_used l <= nf < 2 ^ 64 -> 0 <= nr < 2 ^ 32 ->
  retire_from completed rd i l nf nr = Continue (l', nf', nr') ->
  length l' = length l /\ Forall slot_ok l' /\
  nf - nf' = count_used l - count_used l' /\
  count_used l' <= count_used l /\
  nr' = to_unsigned (nr + (nf - nf')) /\
  (forall j c, nth_error l j = Some c ->
     nth_error l' j =
       Some (if used c && negb (completed (i + j)%nat =? 0)
             then freed c else c)).
Proof.
  induction l as [|slot l IH]; intros i nf nr l' nf' nr' Hall Hnf Hnr;
    cbn [retire_from].
  - intros [= <- <- <-]. rewrite Z.sub_diag, Z.add_0_r.
    repeat split; auto; try lia.
    + unfold to_unsigned. symmetry. apply Z.mod_small. lia.
    + intros [|j] c; discriminate.
  - inversion Hall as [|? ? Hslot Hrest]; subst.
    rewrite count_used_cons in Hnf.
    pose proof (count_used_bounds l) as Hcb.
    fold (used slot). destruct (used slot) eqn:Hu.
    + destruct (Z.eqb_spec (completed i) (-1)) as [Hc1|Hc1]; [discriminate|].
      destruct (Z.eqb_spec (completed i) 0) as [Hc0|Hc0]; cbn [negb].
      * (* not completed yet: the slot is kept *)
        destruct (retire_from completed rd (S i) l nf nr)
          as [[[l2 nf2] nr2]| | |] eqn:Hrec; try discriminate.
        intros [= <- <- <-].
        destruct (IH (S i) nf nr l2 nf2 nr2 Hrest ltac:(lia) Hnr Hrec)
          as (Hl & Hok & Hd & Hle & Hr & Hp).
        rewrite !count_used_cons, Hu. cbn [length].
        repeat split; auto; try lia.
        intros [|j] c Hn.
        -- cbn in Hn. injection Hn as <-. rewrite Nat.add_0_r, Hu.
           destruct (Z.eqb_spec (completed i) 0); [reflexivity|contradiction].
        -- cbn in Hn. cbn [nth_error]. rewrite (Hp j c Hn).
           now rewrite Nat.add_succ_r.
      * (* completed: checked and freed *)
        destruct (if c_cmd slot =? 1
                  then memcmp_differs rd (c_offset slot) (c_buf slot)
                  else Some false) as [[|]|]; try discriminate.
        assert (Hw : to_uint64 (nf - 1) = nf - 1)
          by (unfold to_uint64; apply Z.mod_small; lia).
        rewrite Hw.
        destruct (retire_from completed rd (S i) l (nf - 1)
                    (to_unsigned (nr + 1)))
          as [[[l2 nf2] nr2]| | |] eqn:Hrec; try discriminate.
        intros [= <- <- <-].
        assert (Hnr1 : 0 <= to_unsigned (nr + 1) < 2 ^ 32)
          by (unfold to_unsigned; apply Z.mod_pos_bound; lia).
        destruct (IH (S i) (nf - 1) (to_unsigned (nr + 1)) l2 nf2 nr2 Hrest
                    ltac:(lia) Hnr1 Hrec)
          as (Hl & Hok & Hd & Hle & Hr & Hp).
        rewrite !count_used_cons, Hu.
        fold (freed slot). rewrite used_freed. cbn [length].
        split; [lia|]. split; [constructor; [now apply freed_ok|exact Hok]|].
        split; [lia|]. split; [lia|]. split.
        -- rewrite Hr, to_unsigned_succ. f_equal. lia.
        -- intros [|j] c Hn.
           ++ cbn in Hn. injection Hn as <-. rewrite Nat.add_0_r, Hu.
              destruct (Z.eqb_spec (completed i) 0); [contradiction|].
              reflexivity.
           ++ cbn in Hn. cbn [nth_error]. rewrite (Hp j c Hn).
              now rewrite Nat.add_succ_r.
    + (* a free slot is skipped *)
      destruct (retire_from completed rd (S i) l nf nr)
        as [[[l2 nf2] nr2]| | |] eqn:Hrec; try discriminate.
      intros [= <- <- <-].
      destruct (IH (S i) nf nr l2 nf2 nr2 Hrest ltac:(lia) Hnr Hrec)
        as (Hl & Hok & Hd & Hle & Hr & Hp).
      rewrite !count_used_cons, Hu. cbn [length].
      repeat split; auto; try lia.
      intros [|j] c Hn.
      * cbn in Hn. injection Hn as <-. rewrite Hu. reflexivity.
      * cbn in Hn. cbn [nth_error]. rewrite (Hp j c Hn).
        now rewrite Nat.add_succ_r.
Qed.

(** X14.  The retirement loop of [start_thread] keeps the bookkeeping in
    order.  When it runs through, a slot is freed exactly if it was in
    use and [nbd_aio_command_completed] returned non-zero for it, and is
    untouched otherwise; [in_flight] goes down and [status->requests]
    goes up (modulo 2^32) by the number of slots freed, so [in_flight]
    still counts the slots in use and never wraps below zero; the shadow
    RAM disk is not written. *)
Theorem retire_keeps_bookkeeping (completed : nat -> Z) (t t' : thread) :
  slots_ok t -> 0 <= requests t < 2 ^ 32 ->
  retire_commands completed t = Continue t' ->
  slots_ok t' /\
  0 <= in_flight t' <= in_flight t /\
  requests t' = to_unsigned (requests t + (in_flight t - in_flight t')) /\
  ramdisk t' = ramdisk t /\
  (forall j c, nth_error (commands t) j = Some c ->
     nth_error (commands t') j =
       Some (if used c && negb (completed j =? 0) then freed c else c)).
Proof.
  intros (Hlen & Hall & Hfl) Hnr. unfold retire_commands.
  pose proof (count_used_bounds (commands t)) as Hcb.
  destruct (retire_from completed (ramdisk t) 0 (commands t) (in_flight t)
              (requests t)) as [[[l nf] nr]| | |] eqn:Hrec;
    try discriminate.
  intros [= <-].
  destruct (retire_from_spec completed (ramdisk t) (commands t) 0
              (in_flight t) (requests t) l nf nr Hall
              ltac:(unfold MAX_IN_FLIGHT in *; lia) Hnr Hrec)
    as (Hl & Hok & Hd & Hle & Hr & Hp).
  pose proof (count_used_bounds l) as Hcb'.
  unfold slots_ok. cbn [commands in_flight requests ramdisk].
  split; [|split; [lia|split; [exact Hr|split; [reflexivity|]]]].
  - split; [now rewrite Hl|]. split; [exact Hok|lia].
  - intros j c Hn. apply (Hp j c Hn).
Qed.

(** ** The loop of a thread *)

Lemma memcmp_defined (rd buf : list byte) (o : Z) :
  0 <= o -> o + BUFFERSIZE <= Z.of_nat (length rd) ->
  memcmp_differs rd o buf <> None.
Proof.
  intros Ho Hl. unfold memcmp_differs.
  destruct (Z.leb_spec 0 o); [|lia].
  destruct (Z.leb_spec (o + BUFFERSIZE) (Z.of_nat (length rd))); [|lia].
  discriminate.
Qed.

Lemma retire_from_safe (completed : nat -> Z) (rd : list byte) :
  forall (l : list command) (i : nat) (nf nr : Z),
  Forall (in_disk (Z.of_nat (length rd))) l ->
  match retire_from completed rd i l nf nr with
  | Continue (l', _, _) => Forall (in_disk (Z.of_nat (length rd))) l'
  | GotoError => True
  | AssertFailed | Undefined => False
  end.
Proof.
  induction l as [|slot l IH]; intros i nf nr Hall; cbn [retire_from].
  - constructor.
  - inversion Hall as [|? ? Hslot Hrest]; subst.
    assert (Hk : forall nf0 nr0 s0,
              in_disk (Z.of_nat (length rd)) s0 ->
              match
                match retire_from completed rd (S i) l nf0 nr0 with
                | Continue (l'', nf', nr') => Continue (s0 :: l'', nf', nr')
                | GotoError => GotoError
                | AssertFailed => AssertFailed
                | Undefined => Undefined
                end
              with
              | Continue (l', _, _) => Forall (in_disk (Z.of_nat (length rd))) l'
              | GotoError => True
              | AssertFailed | Undefined => False
              end).
    { intros nf0 nr0 s0 Hs0. specialize (IH (S i) nf0 nr0 Hrest).
      destruct (retire_from completed rd (S i) l nf0 nr0)
        as [[[l2 nf2] nr2]| | |]; auto. }
    destruct (Z.leb_spec 0 (c_offset slot)) as [Hu|Hu]; [|now apply Hk].
    destruct (completed i =? -1); [exact I|].
    destruct (negb (completed i =? 0)); [|now apply Hk].
    assert (Hm : memcmp_differs rd (c_offset slot) (c_buf slot) <> None).
    { apply memcmp_defined; [exact Hu|]. apply Hslot.
      unfold used. now apply Z.leb_le. }
    destruct (c_cmd slot =? 1).
    + destruct (memcmp_differs rd (c_offset slot) (c_buf slot)) as [[|]|];
        [exact I| |contradiction].
      apply Hk. intros Hused. discriminate Hused.
    + apply Hk. intros Hused. discriminate Hused.
Qed.

Lemma clear_slots_ok (l : list command) :
  Forall (fun c => Z.of_nat (length (c_buf c)) = BUFFERSIZE) l ->
  Forall slot_ok (clear_slots l) /\ count_used (clear_slots l) = 0 /\
  length (clear_slots l) = length l /\
  forall n, Forall (in_disk n) (clear_slots l).
Proof.
  induction 1 as [|c l Hc _ (IH1 & IH2 & IH3 & IH4)]; cbn [clear_slots map].
  - repeat split; constructor.
  - split; [constructor; [split; cbn; auto|exact IH1]|].
    split; [rewrite count_used_cons; cbn; exact IH2|].
    split; [cbn; now rewrite <- IH3|].
    intros n. constructor; [intros Hu; discriminate Hu|apply IH4].
Qed.

(** The invariant of the loop. *)
Lemma round_safe (area_offset area_length : nat -> Z) (x : inputs)
  (t : thread) :
  slots_ok t -> areas_ok area_offset area_length t ->
  Forall (in_disk (Z.of_nat (length (ramdisk t)))) (commands t) ->
  0 <= requests t < 2 ^ 32 -> most_in_flight t <= MAX_IN_FLIGHT ->
  0 <= in_rand1 x < 2 ^ 31 ->
  match round area_offset area_length x t with
  | Continue t' =>
      slots_ok t' /\ areas_ok area_offset area_length t' /\
      Forall (in_disk (Z.of_nat (length (ramdisk t')))) (commands t') /\
      0 <= requests t' < 2 ^ 32 /\ most_in_flight t' <= MAX_IN_FLIGHT /\
      length (ramdisk t') = length (ramdisk t)
  | GotoError => True
  | AssertFailed | Undefined => False
  end.
Proof.
  intros Hs Ha Hd Hnr Hm Hr. unfold round, issue_if_possible.
  assert (Hretire : forall t1,
            slots_ok t1 -> areas_ok area_offset area_length t1 ->
            Forall (in_disk (Z.of_nat (length (ramdisk t1)))) (commands t1) ->
            0 <= requests t1 < 2 ^ 32 -> most_in_flight t1 <= MAX_IN_FLIGHT ->
            length (ramdisk t1) = length (ramdisk t) ->
            match retire_commands (in_completed x) t1 with
            | Continue t' =>
                slots_ok t' /\ areas_ok area_offset area_length t' /\
                Forall (in_disk (Z.of_nat (length (ramdisk t')))) (commands t') /\
                0 <= requests t' < 2 ^ 32 /\
                most_in_flight t' <= MAX_IN_FLIGHT /\
                length (ramdisk t') = length (ramdisk t)
            | GotoError => True
            | AssertFailed | Undefined => False
            end).
  { intros t1 Hs1 Ha1 Hd1 Hnr1 Hm1 Hl1. unfold retire_commands.
    pose proof (retire_from_safe (in_completed x) (ramdisk t1) (commands t1)
                  0 (in_flight t1) (requests t1) Hd1) as Hsafe.
    destruct (retire_from (in_completed x) (ramdisk t1) 0 (commands t1)
                (in_flight t1) (requests t1))
      as [[[l nf] nr]| | |] eqn:Hrec; auto.
    destruct Hs1 as (Hlen & Hall & Hfl).
    pose proof (count_used_bounds (commands t1)) as Hcb.
    destruct (retire_from_spec (in_completed x) (ramdisk t1) (commands t1) 0
                (in_flight t1) (requests t1) l nf nr Hall
                ltac:(unfold MAX_IN_FLIGHT in *; lia) Hnr1 Hrec)
      as (Hl & Hok & Hdf & Hle & Hrq & _).
    unfold slots_ok, areas_ok in *.
    cbn [commands in_flight requests ramdisk most_in_flight].
    split; [split; [now rewrite Hl|split; [exact Hok|lia]]|].
    split; [exact Ha1|]. split; [exact Hsafe|].
    split; [rewrite Hrq; unfold to_unsigned; apply Z.mod_pos_bound; lia|].
    split; [exact Hm1|exact Hl1]. }
  destruct (negb (in_expired x) && (in_flight t <? MAX_IN_FLIGHT)
            && in_pollout x && in_ready x) eqn:Hg.
  - assert (Hlt : in_flight t < MAX_IN_FLIGHT).
    { apply andb_true_iff in Hg. destruct Hg as [Hg _].
      apply andb_true_iff in Hg. destruct Hg as [Hg _].
      apply andb_true_iff in Hg. destruct Hg as [_ Hg].
      now apply Z.ltb_lt. }
    destruct (issue_request_ok area_offset area_length (in_rand1 x)
                (in_rand2 x) (in_handle x) t Hs Ha Hlt Hr)
      as (i & slot & o & rd & _ & Hnth & Hoff & _ & Ho1 & Ho2 & Hrd & He).
    rewrite He. destruct (in_handle x =? -1); [exact I|].
    assert (Hi : (i < 16)%nat).
    { destruct Hs as (Hlen & _). unfold MAX_IN_FLIGHT in Hlen.
      assert (i < length (commands t))%nat
        by (apply nth_error_Some; congruence). lia. }
    destruct Ha as [Ha1 Ha2]. destruct (Ha2 i Hi) as (Hao & _ & Hend).
    apply Hretire; cbn [commands in_flight requests ramdisk most_in_flight].
    + apply (issued_slots_ok t i slot); auto; lia.
    + split; cbn [ramdisk]; rewrite Hrd; assumption.
    + rewrite Hrd. apply set_slot_Forall; [exact Hd|].
      intros _. cbn [c_offset]. lia.
    + exact Hnr.
    + assert (in_flight t <= MAX_IN_FLIGHT) by lia.
      destruct (most_in_flight t <? in_flight t + 1); lia.
    + exact Hrd.
  - now apply Hretire.
Qed.

(** X15.  The loop of a thread is safe.  From its start (every slot
    marked unused, nothing in flight) and for any number of turns,
    whatever the clock, [poll], the library and [rand ()] supply: the
    assertion does not fail, no remainder is taken by zero and the shadow
    RAM disk is not accessed out of bounds; either the thread has gone to
    [error], or its bookkeeping is in order, with at most MAX_IN_FLIGHT
    commands in flight, [most_in_flight] at most MAX_IN_FLIGHT and the
    disk at its size. *)
Theorem thread_loop_is_safe (area_offset area_length : nat -> Z)
  (l : list command) (rd : list byte) (xs : list inputs) :
  Z.of_nat (length l) = MAX_IN_FLIGHT ->
  Forall (fun c => Z.of_nat (length (c_buf c)) = BUFFERSIZE) l ->
  areas_ok area_offset area_length (thread_start l rd) ->
  Forall (fun x => 0 <= in_rand1 x < 2 ^ 31) xs ->
  match rounds area_offset area_length xs (thread_start l rd) with
  | Continue t =>
      slots_ok t /\ in_flight t <= MAX_IN_FLIGHT /\
      most_in_flight t <= MAX_IN_FLIGHT /\
      length (ramdisk t) = length rd
  | GotoError => True
  | AssertFailed | Undefined => False
  end.
Proof.
  intros Hlen Hbuf Ha Hxs.
  destruct (clear_slots_ok l Hbuf) as (C1 & C2 & C3 & C4).
  assert (Hinv : forall xs t,
            Forall (fun x => 0 <= in_rand1 x < 2 ^ 31) xs ->
            slots_ok t -> areas_ok area_offset area_length t ->
            Forall (in_disk (Z.of_nat (length (ramdisk t)))) (commands t) ->
            0 <= requests t < 2 ^ 32 -> most_in_flight t <= MAX_IN_FLIGHT ->
            match rounds area_offset area_length xs t with
            | Continue t' =>
                slots_ok t' /\ in_flight t' <= MAX_IN_FLIGHT /\
                most_in_flight t' <= MAX_IN_FLIGHT /\
                length (ramdisk t') = length (ramdisk t)
            | GotoError => True
            | AssertFailed | Undefined => False
            end).
  { clear. induction xs as [|x xs IH]; intros t Hxs Hs Ha Hd Hnr Hm;
      cbn [rounds].
    - split; [exact Hs|]. split; [|auto].
      destruct Hs as (Hlen & _ & Hfl).
      pose proof (count_used_bounds (commands t)). lia.
    - inversion Hxs as [|? ? Hx Hrest]; subst.
      pose proof (round_safe area_offset area_length x t Hs Ha Hd Hnr Hm Hx)
        as Hround.
      destruct (round area_offset area_length x t) as [t1| | |]; auto.
      destruct Hround as (Hs1 & Ha1 & Hd1 & Hnr1 & Hm1 & Hl1).
      specialize (IH t1 Hrest Hs1 Ha1 Hd1 Hnr1 Hm1).
      destruct (rounds area_offset area_length xs t1); auto.
      rewrite <- Hl1. exact IH. }
  apply (Hinv xs (thread_start l rd) Hxs).
  - unfold slots_ok, thread_start. cbn [commands in_flight].
    split; [now rewrite C3|]. split; [exact C1|now rewrite C2].
  - exact Ha.
  - apply C4.
  - cbn. lia.
  - cbn. unfold MAX_IN_FLIGHT. lia.
Qed.

End Host.

(** * Concrete runs

    The statements below are closed: they evaluate the handlers and the
    machine on the sample commands, on a little-endian host. *)

Ltac solve_closed :=
  repeat match goal with
         | |- fresh_start _ => unfold fresh_start
         | |- cmd_wf _ => unfold cmd_wf
         | |- event_wf _ => unfold event_wf
         | |- _ /\ _ => split
         | |- Forall _ (cmds_to_issue _) =>
             cbn [ex_start ex_handle cfg_handle cmds_to_issue]
         | |- Forall _ _ => constructor
         | |- True => exact I
         end;
  try (vm_compute; first [exact I | reflexivity | discriminate]).

(** Scenario S1 of the specification: a single READ of 512 bytes at
    offset 0 with handle 1 puts exactly these 28 bytes on the socket and
    leaves the machine in READY with the command in flight. *)
Example scenario_single_read :
  run true ex_memory (drain [ex_read]) (ex_start [ex_read]) =
  Some (mk_config READY false
          (mk_handle [] [ex_read] (request_of true ex_read)
             (Ptr BRequest 28) 0 0 false),
        [0x25; 0x60; 0x95; 0x13; 0; 0; 0; 0; 0; 0; 0; 0; 0; 0; 0; 1;
         0; 0; 0; 0; 0; 0; 0; 0; 0; 0; 2; 0]).
Proof. vm_compute. reflexivity. Qed.

(** The bytes are the same on a big-endian host. *)
Example scenario_single_read_big_endian :
  run false ex_memory (drain [ex_read]) (ex_start [ex_read]) =
  Some (mk_config READY false
          (mk_handle [] [ex_read] (request_of false ex_read)
             (Ptr BRequest 28) 0 0 false),
        [0x25; 0x60; 0x95; 0x13; 0; 0; 0; 0; 0; 0; 0; 0; 0; 0; 0; 1;
         0; 0; 0; 0; 0; 0; 0; 0; 0; 0; 2; 0]).
Proof. vm_compute. reflexivity. Qed.

(** Scenario S2: a single WRITE of 8 bytes at offset 4096 puts the header
    (type 1, count 8) and then the 8 bytes of data on the socket; one
    command is in flight afterwards. *)
Example scenario_single_write :
  exists c,
    run true ex_memory (drain [ex_write]) (ex_start [ex_write]) =
      Some (c,
            [0x25; 0x60; 0x95; 0x13; 0; 0; 0; 1; 0; 0; 0; 0; 0; 0; 0; 2;
             0; 0; 0; 0; 0; 0; 0x10; 0; 0; 0; 0; 8;
             0x11; 0x22; 0x33; 0x44; 0x55; 0x66; 0x77; 0x88]) /\
    cfg_state c = READY /\
    cmds_in_flight (cfg_handle c) = [ex_write].
Proof.
  eexists. split; [vm_compute; reflexivity|]. split; reflexivity.
Qed.

(** Scenario S5: the first send fails; the machine is in DEAD, nothing
    was sent and the command is still in [cmds_to_issue]. *)
Example scenario_fatal_error :
  exists h,
    run true ex_memory [Run SockAgain; Run SockError] (ex_start [ex_read]) =
      Some (mk_config DEAD false h, []) /\
    cmds_to_issue h = [ex_read] /\ cmds_in_flight h = [].
Proof.
  eexists. split; [vm_compute; reflexivity|]. split; reflexivity.
Qed.

(** Scenario S3: the socket takes 10 bytes of the header and then would
    block; 18 bytes remain, the machine waits in SEND_REQUEST, yields to
    the reply path on a read notification and, back in START, resumes and
    sends the remaining 18 bytes. *)
Example scenario_short_header_send :
  run true ex_memory [Run SockAgain; Run (SockSent 10)] (ex_start [ex_read]) =
    Some (mk_config ISSUE_COMMAND_SEND_REQUEST true (ex_partial true),
          [0x25; 0x60; 0x95; 0x13; 0; 0; 0; 0; 0; 0]) /\
  run true ex_memory
    [NotifyRead; Run SockAgain; ReplyDone []; CmdIssue; Run SockAgain;
     Run (SockSent 18); Run SockAgain; Run SockAgain]
    (mk_config ISSUE_COMMAND_SEND_REQUEST true (ex_partial true)) =
    Some (mk_config READY false
            (mk_handle [] [ex_read] (request_of true ex_read)
               (Ptr BRequest 28) 0 0 false),
          [0; 0; 0; 0; 0; 1; 0; 0; 0; 0; 0; 0; 0; 0; 0; 0; 2; 0]).
Proof. split; vm_compute; reflexivity. Qed.

(** Scenario S6: of two READs enqueued back to back, the first header is
    sent with MSG_MORE and the second without. *)
Example scenario_coalescing_hint :
  (exists c out,
     run true ex_memory [Run SockAgain]
       (ex_start [ex_read; ex_read]) = Some (c, out) /\
     wflags (cfg_handle c) = MSG_MORE) /\
  (exists c out,
     run true ex_memory (drain_one ex_read ++ [CmdIssue; Run SockAgain])
       (ex_start [ex_read; ex_read]) = Some (c, out) /\
     cfg_state c = ISSUE_COMMAND_SEND_REQUEST /\
     wflags (cfg_handle c) = 0).
Proof.
  split; do 2 eexists; (split; [vm_compute; reflexivity|]);
    repeat split; reflexivity.
Qed.

(** C3, counterexample.  The header of [ex_read] is partly sent, 18 bytes
    remain and the socket would block: the send primitive returns 1, the
    handler of SEND_REQUEST returns 0 and has chosen no next state, and
    the machine is still in SEND_REQUEST, not in PAUSE_SEND_REQUEST.  The
    same happens in SEND_WRITE_PAYLOAD with 5 bytes of payload left. *)
Lemma SEND_would_block_no_pause :
  send_from_wbuf true ex_memory SockAgain (ex_partial true) =
    (1, ex_partial true, []) /\
  0 < wlen (ex_partial true) /\
  enter_ISSUE_COMMAND_SEND_REQUEST true ex_memory SockAgain
    (ex_partial true) = Returned 0 None (ex_partial true) [] /\
  machine_step true ex_memory (Run SockAgain)
    (mk_config ISSUE_COMMAND_SEND_REQUEST false (ex_partial true)) =
    Some (mk_config ISSUE_COMMAND_SEND_REQUEST true (ex_partial true), []) /\
  ~ (exists r h' out,
       enter_ISSUE_COMMAND_SEND_REQUEST true ex_memory SockAgain
         (ex_partial true) =
       Returned r (Some ISSUE_COMMAND_PAUSE_SEND_REQUEST) h' out) /\
  enter_ISSUE_COMMAND_SEND_WRITE_PAYLOAD true ex_memory SockAgain
    (ex_partial_payload true) =
    Returned 0 None (ex_partial_payload true) [] /\
  ~ (exists r h' out,
       enter_ISSUE_COMMAND_SEND_WRITE_PAYLOAD true ex_memory SockAgain
         (ex_partial_payload true) =
       Returned r (Some ISSUE_COMMAND_PAUSE_WRITE_PAYLOAD) h' out).
Proof.
  repeat split; try reflexivity.
  - intros (r & h' & out & H). vm_compute in H. discriminate H.
  - intros (r & h' & out & H). vm_compute in H. discriminate H.
Qed.

(** C6, counterexample.  [ex_write_zeroes] is a WRITE_ZEROES of 8 bytes.
    With its header sent, PREPARE_WRITE_PAYLOAD goes straight to FINISH
    and sets up no payload; the whole command puts 28 bytes on the
    socket, not 28 + 8. *)
Lemma WRITE_ZEROES_has_no_payload :
  cmd_type ex_write_zeroes = NBD_CMD_WRITE_ZEROES /\
  cmd_count ex_write_zeroes = 8 /\
  enter_ISSUE_COMMAND_PREPARE_WRITE_PAYLOAD true
    (ex_header_sent true ex_write_zeroes) =
    Returned 0 (Some ISSUE_COMMAND_FINISH)
      (ex_header_sent true ex_write_zeroes) [] /\
  (exists c out,
     run true ex_memory (drain [ex_write_zeroes])
       (ex_start [ex_write_zeroes]) = Some (c, out) /\
     cfg_state c = READY /\
     cmds_to_issue (cfg_handle c) = [] /\
     out = wire_header ex_write_zeroes /\
     length out = 28%nat).
Proof.
  repeat split; try reflexivity.
  do 2 eexists. split; [vm_compute; reflexivity|].
  repeat split; reflexivity.
Qed.

(** * Instances of the theorems *)

(** C1 at [ex_write] for START, and at a run that issues [ex_read], takes
    [ex_write] into the queue and issues it. *)
Lemma issue_framing_byte_exact_witness :
  (exists h',
     enter_ISSUE_COMMAND_START true (ex_handle [ex_write]) =
       Returned 0 (Some ISSUE_COMMAND_SEND_REQUEST) h' [] /\
     request_bytes true (request h') =
       be_bytes 4 NBD_REQUEST_MAGIC ++ be_bytes 2 (cmd_flags ex_write) ++
       be_bytes 2 (cmd_type ex_write) ++ be_bytes 8 (cmd_handle ex_write) ++
       be_bytes 8 (cmd_offset ex_write) ++ be_bytes 4 (cmd_count ex_write) /\
     wbuf h' = Ptr BRequest 0 /\ wlen h' = 28 /\
     cmds_to_issue h' = [ex_write] /\ cmds_in_flight h' = []) /\
  (exists c' out,
     run true ex_memory (drain [ex_read] ++ [Enqueue ex_write; CmdIssue] ++
                         drain [ex_write])
       (ex_start [ex_read]) = Some (c', out) /\
     out =
       (wire_header ex_read ++ []) ++
       (wire_header ex_write ++ payload ex_memory ex_write) ++ []).
Proof.
  destruct (issue_framing_byte_exact true) as [HA HB]. split.
  - apply (HA (ex_handle [ex_write]) ex_write []); reflexivity.
  - do 2 eexists. split; [vm_compute; reflexivity|].
    refine (proj1 (HB ex_memory
                     (drain [ex_read] ++ [Enqueue ex_write; CmdIssue] ++
                      drain [ex_write])
                     (ex_start [ex_read]) _ _ _ _ _ _ _)).
    + solve_closed.
    + cbn. repeat constructor; solve_closed.
    + vm_compute. reflexivity.
    + reflexivity.
    + reflexivity.
Defined.

(** C2 at a handle with 18 bytes of header left. *)
Lemma START_resume_leaves_header_witness :
  exists h',
    enter_ISSUE_COMMAND_START true (ex_partial true) =
      Returned 0 (Some ISSUE_COMMAND_SEND_REQUEST) h' [] /\
    request h' = request (ex_partial true) /\
    wbuf h' = wbuf (ex_partial true) /\ wlen h' = wlen (ex_partial true) /\
    h' = ex_partial true.
Proof.
  apply (START_resume_leaves_header true (ex_partial true));
    [discriminate|reflexivity].
Defined.

(** C3 (as amended) at a handle with 18 bytes left of which the socket
    takes 10. *)
Lemma SEND_would_block_stays_witness :
  exists h' out,
    0 < wlen h' /\
    enter_ISSUE_COMMAND_SEND_REQUEST true ex_memory (SockSent 10)
      (ex_partial true) = Returned 0 None h' out /\
    enter_ISSUE_COMMAND_SEND_WRITE_PAYLOAD true ex_memory (SockSent 10)
      (ex_partial true) = Returned 0 None h' out /\
    (forall b,
       machine_step true ex_memory (Run (SockSent 10))
         (mk_config ISSUE_COMMAND_SEND_REQUEST b (ex_partial true)) =
         Some (mk_config ISSUE_COMMAND_SEND_REQUEST true h', out)) /\
    (forall b,
       machine_step true ex_memory (Run (SockSent 10))
         (mk_config ISSUE_COMMAND_SEND_WRITE_PAYLOAD b (ex_partial true)) =
         Some (mk_config ISSUE_COMMAND_SEND_WRITE_PAYLOAD true h', out)).
Proof.
  apply (SEND_would_block_stays true ex_memory (SockSent 10)
           (ex_partial true)).
  - vm_compute. discriminate.
  - vm_compute. reflexivity.
Defined.

(** C4 at the FINISH configuration reached by issuing [ex_read]. *)
Lemma FINISH_moves_head_in_flight_witness :
  let h := ex_header_sent true ex_read in
  wlen h = 0 /\
  exists cmd next,
    cmds_to_issue h = cmd :: next /\
    cmd_handle cmd = be64toh true (req_handle (request h)) /\
    enter_ISSUE_COMMAND_FINISH true h =
      Returned 0 (Some READY)
        (mk_handle next (cmd :: cmds_in_flight h) (request h) (wbuf h)
           (wlen h) (wflags h) (in_write_payload h)) [].
Proof.
  apply (FINISH_moves_head_in_flight true ex_memory
           [Run SockAgain; Run (SockSent 28); Run SockAgain]
           (ex_start [ex_read])
           (mk_config ISSUE_COMMAND_FINISH false
              (ex_header_sent true ex_read))
           (wire_header ex_read)).
  - solve_closed.
  - repeat constructor.
  - vm_compute. reflexivity.
  - reflexivity.
Defined.

(** C5 at START with [ex_read] followed by [ex_write], and at
    PREPARE_WRITE_PAYLOAD with [ex_write] followed by [ex_read]. *)
Lemma more_hint_iff_witness :
  (exists h',
     enter_ISSUE_COMMAND_START true (ex_handle [ex_read; ex_write]) =
       Returned 0 (Some ISSUE_COMMAND_SEND_REQUEST) h' [] /\
     (wflags h' = MSG_MORE <->
      cmd_type ex_read = NBD_CMD_WRITE \/ [ex_write] <> [])) /\
  (exists h',
     enter_ISSUE_COMMAND_PREPARE_WRITE_PAYLOAD true
       (mk_handle [ex_write; ex_read] [] (request_of true ex_write)
          (Ptr BRequest 28) 0 0 false) =
       Returned 0 (Some ISSUE_COMMAND_SEND_WRITE_PAYLOAD) h' [] /\
     (wflags h' = MSG_MORE <->
      [ex_read] <> [] /\ cmd_count ex_write < 64 * 1024)).
Proof.
  split.
  - apply (proj1 (more_hint_iff true ex_memory []
                    (ex_start [ex_read; ex_write])
                    (ex_start [ex_read; ex_write]) []
                    ex_read [ex_write]
                    ltac:(solve_closed) eq_refl (Forall_nil _)
                    eq_refl eq_refl));
      reflexivity.
  - apply (proj2 (more_hint_iff true ex_memory
                    [Run SockAgain; Run (SockSent 28)]
                    (ex_start [ex_write; ex_read])
                    (mk_config ISSUE_COMMAND_PREPARE_WRITE_PAYLOAD false
                       (mk_handle [ex_write; ex_read] []
                          (request_of true ex_write)
                          (Ptr BRequest 28) 0 0 false))
                    (wire_header ex_write)
                    ex_write [ex_read]
                    ltac:(solve_closed) eq_refl
                    ltac:(repeat constructor)
                    ltac:(vm_compute; reflexivity) eq_refl));
      reflexivity.
Defined.

(** C6 (as amended) at [ex_write] and [ex_write_zeroes]. *)
Lemma payload_only_for_WRITE_witness :
  (exists h',
     enter_ISSUE_COMMAND_PREPARE_WRITE_PAYLOAD true
       (ex_header_sent true ex_write) =
       Returned 0 (Some ISSUE_COMMAND_SEND_WRITE_PAYLOAD) h' [] /\
     wbuf h' = cmd_data ex_write /\ wlen h' = cmd_count ex_write) /\
  enter_ISSUE_COMMAND_PREPARE_WRITE_PAYLOAD true
    (ex_header_sent true ex_write_zeroes) =
    Returned 0 (Some ISSUE_COMMAND_FINISH)
      (ex_header_sent true ex_write_zeroes) [] /\
  (exists c' out,
     run true ex_memory (drain [ex_write]) (ex_start [ex_write]) =
       Some (c', out) /\
     out = wire_header ex_write ++ payload ex_memory ex_write /\
     Z.of_nat (length out) = 28 + 8).
Proof.
  destruct (payload_only_for_WRITE true) as [HA HB]. split; [|split].
  - apply (proj1 (HA (ex_header_sent true ex_write) ex_write []
                    eq_refl ltac:(vm_compute; reflexivity))).
    reflexivity.
  - apply (proj2 (HA (ex_header_sent true ex_write_zeroes) ex_write_zeroes []
                    eq_refl ltac:(vm_compute; reflexivity))).
    discriminate.
  - do 2 eexists. split; [vm_compute; reflexivity|].
    refine ((fun H => conj (proj1 H) (proj2 H _))
              (HB ex_memory (drain [ex_write]) (ex_start [ex_write]) _ _
                 ex_write _ _ _ _ _ _ _)).
    + intros _. vm_compute. reflexivity.
    + solve_closed.
    + reflexivity.
    + cbn. repeat constructor.
    + reflexivity.
    + vm_compute. reflexivity.
    + reflexivity.
    + reflexivity.
Defined.

(** C7 at a handle with 18 bytes of header left and a failing socket. *)
Lemma fatal_send_goes_DEAD_witness :
  exists h' out,
    enter_ISSUE_COMMAND_SEND_REQUEST true ex_memory SockError
      (ex_partial true) = Returned (-1) (Some DEAD) h' out /\
    enter_ISSUE_COMMAND_SEND_WRITE_PAYLOAD true ex_memory SockError
      (ex_partial true) = Returned (-1) (Some DEAD) h' out /\
    cmds_to_issue h' = [ex_read] /\
    cmds_in_flight h' = [] /\
    (forall q b evs c' out',
       q = ISSUE_COMMAND_SEND_REQUEST \/
       q = ISSUE_COMMAND_SEND_WRITE_PAYLOAD ->
       run true ex_memory (Run SockError :: evs)
         (mk_config q b (ex_partial true)) = Some (c', out') ->
       cfg_state c' = DEAD /\
       cmds_to_issue (cfg_handle c') = [ex_read] /\
       cmds_in_flight (cfg_handle c') = []).
Proof.
  apply (fatal_send_goes_DEAD true ex_memory SockError (ex_partial true)).
  vm_compute. reflexivity.
Defined.

(** C8 at a handle with 18 bytes of header left. *)
Lemma PAUSE_keeps_cursor_witness :
  let h := ex_partial true in
  let paused b :=
    mk_handle (cmds_to_issue h) (cmds_in_flight h) (request h) (wbuf h)
      (wlen h) (wflags h) b in
  enter_ISSUE_COMMAND_PAUSE_SEND_REQUEST h =
    Returned 0 (Some REPLY_START) (paused false) [] /\
  enter_ISSUE_COMMAND_PAUSE_WRITE_PAYLOAD h =
    Returned 0 (Some REPLY_START) (paused true) [] /\
  enter_ISSUE_COMMAND_START true (paused false) =
    Returned 0 (Some ISSUE_COMMAND_SEND_REQUEST) (paused false) [] /\
  enter_ISSUE_COMMAND_START true (paused true) =
    Returned 0 (Some ISSUE_COMMAND_SEND_WRITE_PAYLOAD) (paused true) [].
Proof.
  apply (PAUSE_keeps_cursor true (ex_partial true)); discriminate.
Defined.

(** C9 at [ex_huge], whose count is 2^32 + 5. *)
Lemma START_truncates_count_witness :
  cmd_count ex_huge = 2 ^ 32 + 5 /\
  exists h',
    enter_ISSUE_COMMAND_START true (ex_handle [ex_huge]) =
      Returned 0 (Some ISSUE_COMMAND_SEND_REQUEST) h' [] /\
    req_count (request h') = htobe32 true (cmd_count ex_huge mod 2 ^ 32) /\
    drop 24 (request_bytes true (request h')) =
      be_bytes 4 (cmd_count ex_huge mod 2 ^ 32) /\
    of_le_bytes (rev (drop 24 (request_bytes true (request h')))) =
      cmd_count ex_huge mod 2 ^ 32.
Proof.
  split; [reflexivity|].
  apply (START_truncates_count true (ex_handle [ex_huge]) ex_huge []);
    reflexivity.
Defined.

(** C10 at the PAUSE_SEND_REQUEST configuration reached after a short send
    and a read notification. *)
Lemma assertions_hold_witness :
  let c := mk_config ISSUE_COMMAND_PAUSE_SEND_REQUEST false (ex_partial true) in
  assertions true (cfg_state c) (cfg_handle c) /\
  (forall s, enter true (cfg_state c) ex_memory s (cfg_handle c)
             <> Some Aborted).
Proof.
  apply (assertions_hold true ex_memory
           [Run SockAgain; Run (SockSent 10); NotifyRead]
           (ex_start [ex_read])
           (mk_config ISSUE_COMMAND_PAUSE_SEND_REQUEST false
              (ex_partial true))
           [0x25; 0x60; 0x95; 0x13; 0; 0; 0; 0; 0; 0]).
  - solve_closed.
  - repeat constructor.
  - vm_compute. reflexivity.
Defined.

(** * Instances of the further properties *)

Arguments Finished {A} a.
Arguments Overrun {A}.
Arguments OutOfFuel {A}.
Arguments Continue {A} a.
Arguments GotoError {A}.
Arguments AssertFailed {A}.
Arguments Undefined {A}.

Ltac by_computation :=
  vm_compute; repeat split; first [reflexivity | discriminate].

(** X1 at a run that issues [ex_read] while [ex_write] is enqueued. *)
Lemma commands_issued_in_order_witness :
  exists issued,
    [ex_read] ++ [ex_write] = issued ++ [ex_write] /\
    incl [ex_read] (rev issued ++ []) /\
    (Forall retires_nothing (Enqueue ex_write :: drain [ex_read]) ->
     [ex_read] = rev issued ++ []).
Proof.
  apply (commands_issued_in_order true ex_memory
           (Enqueue ex_write :: drain [ex_read])
           (ex_start [ex_read])
           (mk_config READY false
              (mk_handle [ex_write] [ex_read] (request_of true ex_read)
                 (Ptr BRequest 28) 0 0 false))
           (wire_header ex_read)).
  vm_compute. reflexivity.
Defined.

(** X2 at a failed send with 18 bytes of header left. *)
Lemma handler_return_code_witness :
  (-1 = 0 \/ -1 = -1) /\
  (-1 = -1 <-> Some DEAD = Some DEAD) /\
  (-1 = -1 ->
   (ISSUE_COMMAND_SEND_REQUEST = ISSUE_COMMAND_SEND_REQUEST \/
    ISSUE_COMMAND_SEND_REQUEST = ISSUE_COMMAND_SEND_WRITE_PAYLOAD) /\
   fst (fst (send_from_wbuf true ex_memory SockError (ex_partial true)))
     = -1) /\
  (ISSUE_COMMAND_SEND_REQUEST <> ISSUE_COMMAND_SEND_REQUEST ->
   ISSUE_COMMAND_SEND_REQUEST <> ISSUE_COMMAND_SEND_WRITE_PAYLOAD ->
   @nil byte = []).
Proof.
  apply (handler_return_code true ISSUE_COMMAND_SEND_REQUEST ex_memory
           SockError (ex_partial true) (ex_partial true) (-1) (Some DEAD) []).
  reflexivity.
Defined.

(** X3 at FINISH. *)
Lemma handlers_follow_table_witness :
  In (Some READY) (successors ISSUE_COMMAND_FINISH) <->
  exists m s h r h' out,
    enter true ISSUE_COMMAND_FINISH m s h = Some (Returned r (Some READY) h' out).
Proof.
  exact (handlers_follow_table true ISSUE_COMMAND_FINISH (Some READY)).
Defined.

(** X4 at PAUSE_SEND_REQUEST with 18 bytes of header left. *)
Lemma handler_frame_witness :
  let h := ex_partial true in
  let h' := set_in_write_payload h false in
  (request h' = request h \/
   (ISSUE_COMMAND_PAUSE_SEND_REQUEST = ISSUE_COMMAND_START /\ wlen h = 0)) /\
  (in_write_payload h' = in_write_payload h \/
   ISSUE_COMMAND_PAUSE_SEND_REQUEST = ISSUE_COMMAND_PAUSE_SEND_REQUEST \/
   ISSUE_COMMAND_PAUSE_SEND_REQUEST = ISSUE_COMMAND_PAUSE_WRITE_PAYLOAD) /\
  ((cmds_to_issue h' = cmds_to_issue h /\
    cmds_in_flight h' = cmds_in_flight h) \/
   ISSUE_COMMAND_PAUSE_SEND_REQUEST = ISSUE_COMMAND_FINISH) /\
  (ISSUE_COMMAND_PAUSE_SEND_REQUEST = ISSUE_COMMAND_PAUSE_SEND_REQUEST \/
   ISSUE_COMMAND_PAUSE_SEND_REQUEST = ISSUE_COMMAND_PAUSE_WRITE_PAYLOAD \/
   ISSUE_COMMAND_PAUSE_SEND_REQUEST = ISSUE_COMMAND_FINISH ->
   wbuf h' = wbuf h /\ wlen h' = wlen h /\ wflags h' = wflags h).
Proof.
  apply (handler_frame true ISSUE_COMMAND_PAUSE_SEND_REQUEST ex_memory
           SockAgain (ex_partial true)
           (set_in_write_payload (ex_partial true) false) 0
           (Some REPLY_START) []).
  reflexivity.
Defined.

(** X5 at [ex_read] and [ex_read_far], whose counts differ by 2^32. *)
Lemma header_identifies_command_witness :
  cmd_count ex_read <> cmd_count ex_read_far /\
  cmd_flags ex_read = cmd_flags ex_read_far /\
  cmd_type ex_read = cmd_type ex_read_far /\
  cmd_handle ex_read = cmd_handle ex_read_far /\
  cmd_offset ex_read = cmd_offset ex_read_far /\
  cmd_count ex_read mod 2 ^ 32 = cmd_count ex_read_far mod 2 ^ 32.
Proof.
  split; [discriminate|].
  apply (header_identifies_command true
           (ex_handle [ex_read]) (ex_handle [ex_read_far])
           (mk_handle [ex_read] [] (request_of true ex_read)
              (Ptr BRequest 0) 28 0 false)
           (mk_handle [ex_read_far] [] (request_of true ex_read_far)
              (Ptr BRequest 0) 28 0 false)
           ex_read ex_read_far [] []
           0 0 (Some ISSUE_COMMAND_SEND_REQUEST)
           (Some ISSUE_COMMAND_SEND_REQUEST) [] []).
  - solve_closed.
  - unfold cmd_wf. repeat split; vm_compute; congruence.
  - reflexivity.
  - reflexivity.
  - reflexivity.
  - reflexivity.
  - reflexivity.
  - reflexivity.
  - vm_compute. reflexivity.
Defined.

(** X6 at the configuration reached after a short send of 10 bytes. *)
Lemma cursor_stays_in_buffer_witness :
  exists off,
    wbuf (ex_partial true) = Ptr BRequest off /\ 0 <= off /\
    0 < wlen (ex_partial true) /\ off + wlen (ex_partial true) = 28.
Proof.
  apply (cursor_stays_in_buffer true ex_memory
           [Run SockAgain; Run (SockSent 10)]
           (ex_start [ex_read])
           (mk_config ISSUE_COMMAND_SEND_REQUEST true (ex_partial true))
           [0x25; 0x60; 0x95; 0x13; 0; 0; 0; 0; 0; 0]).
  - solve_closed.
  - repeat constructor.
  - vm_compute. reflexivity.
Defined.

(** X7 at the queue of [ex_read] followed by [ex_write]. *)
Lemma every_queue_is_issued_witness :
  exists h',
    run true ex_memory (drain [ex_read; ex_write])
      (mk_config ISSUE_COMMAND_START false (ex_handle [ex_read; ex_write])) =
      Some (mk_config READY false h', frames ex_memory [ex_read; ex_write]) /\
    cmds_to_issue h' = [] /\
    cmds_in_flight h' = rev [ex_read; ex_write] ++ [] /\
    wlen h' = 0.
Proof.
  apply (every_queue_is_issued true ex_memory [ex_read; ex_write] false
           (ex_handle [ex_read; ex_write])).
  - reflexivity.
  - discriminate.
  - reflexivity.
  - solve_closed.
Defined.

(** X8 at an export of 1 GiB, for the first two slots of the first
    thread. *)
Lemma areas_partition_export_witness :
  0 <= status_offset (2 ^ 30) 0 0 /\
  status_offset (2 ^ 30) 0 0 + status_length (2 ^ 30) <= 2 ^ 30 /\
  (0 * MAX_IN_FLIGHT + 0 < 0 * MAX_IN_FLIGHT + 1 ->
   status_offset (2 ^ 30) 0 0 + status_length (2 ^ 30)
     <= status_offset (2 ^ 30) 0 1).
Proof.
  apply (areas_partition_export (2 ^ 30) 0 0 0 1); by_computation.
Defined.

(** X9 at an export of 1 GiB, for the last slot of thread 0 and the first
    slot of thread 1. *)
Lemma requests_never_overlap_witness :
  exists o o',
    request_offset (status_offset (2 ^ 30) 0 15) (status_length (2 ^ 30))
      2147483647 = Some o /\
    request_offset (status_offset (2 ^ 30) 1 0) (status_length (2 ^ 30))
      0 = Some o' /\
    0 <= o /\ o + BUFFERSIZE <= 2 ^ 30 /\
    status_offset (2 ^ 30) 0 15 <= o /\
    o + BUFFERSIZE < status_offset (2 ^ 30) 0 15 + status_length (2 ^ 30) /\
    (0 * MAX_IN_FLIGHT + 15 <> 1 * MAX_IN_FLIGHT + 0 ->
     o + BUFFERSIZE <= o' \/ o' + BUFFERSIZE <= o).
Proof.
  apply (requests_never_overlap (2 ^ 30) 0 15 1 0 2147483647 0);
    by_computation.
Defined.

(** X10 at an area of 8192 bytes, half of BUFFERSIZE. *)
Lemma request_escapes_small_area_witness :
  (8192 = BUFFERSIZE -> request_offset 0 8192 10000 = None) /\
  (8192 < BUFFERSIZE ->
   request_offset 0 8192 10000 = Some (0 + 10000) /\
   (8192 <= 10000 -> 0 + 8192 <= 0 + 10000)).
Proof.
  apply (request_escapes_small_area 0 8192 10000); by_computation.
Defined.

(** X11 at an export of 16 bytes. *)
Lemma ramdisk_holds_pattern_witness :
  exists ramdisk,
    fill_ramdisk true 2 16 0 (repeat 255 16) = Finished ramdisk /\
    Z.of_nat (length ramdisk) = 16 /\
    (forall k, 0 <= k < 16 / 8 ->
       take 8 (drop (8 * k) ramdisk) = be_bytes 8 (8 * k)).
Proof.
  apply (ramdisk_holds_pattern true 16 2 (repeat 255 16)); by_computation.
Defined.

(** X12 at an export of 12 bytes. *)
Lemma ramdisk_fill_overruns_witness :
  (forall ramdisk,
     fill_ramdisk true 2 12 0 (repeat 255 12) <> Finished ramdisk) /\
  (12 / 8 < Z.of_nat 2 ->
   fill_ramdisk true 2 12 0 (repeat 255 12) = Overrun).
Proof.
  apply (ramdisk_fill_overruns true 12 2 (repeat 255 12)); by_computation.
Defined.

(** The sample thread is in order. *)

Lemma ex_buf_length : Z.of_nat (length ex_buf) = BUFFERSIZE.
Proof. unfold ex_buf. rewrite repeat_length. reflexivity. Defined.

Lemma ex_free_ok : slot_ok ex_free.
Proof. split; [exact ex_buf_length | left; reflexivity]. Defined.

Lemma ex_busy_ok : slot_ok ex_busy.
Proof. split; [exact ex_buf_length | right; discriminate]. Defined.

Lemma ex_thread_slots_ok : slots_ok ex_thread.
Proof.
  unfold slots_ok, ex_thread. cbn [commands in_flight repeat].
  split; [reflexivity|]. split; [|reflexivity].
  constructor; [exact ex_busy_ok|].
  repeat (constructor; [exact ex_free_ok|]). constructor.
Defined.

Lemma ex_thread_areas_ok : areas_ok ex_area_offset ex_area_length ex_thread.
Proof.
  unfold areas_ok, ex_thread, ex_area_offset, ex_area_length, ex_disk.
  cbn [ramdisk]. rewrite repeat_length.
  split; [reflexivity|].
  intros i _. repeat split; first [reflexivity | discriminate].
Defined.


(** X14 at the same thread, when the library reports its command
    completed. *)
Lemma retire_keeps_bookkeeping_witness :
  let t' := mk_thread (freed ex_busy :: repeat ex_free 15) 0 1 1 BUFFERSIZE 0 ex_disk in
  slots_ok t' /\
  0 <= in_flight t' <= in_flight ex_thread /\
  requests t' =
    to_unsigned (requests ex_thread + (in_flight ex_thread - in_flight t')) /\
  ramdisk t' = ramdisk ex_thread /\
  (forall j c, nth_error (commands ex_thread) j = Some c ->
     nth_error (commands t') j =
       Some (if used c && negb ((fun _ : nat => 1) j =? 0)
             then freed c else c)).
Proof.
  intro t'.
  apply (retire_keeps_bookkeeping (fun _ => 1) ex_thread t').
  - exact ex_thread_slots_ok.
  - split; [discriminate | reflexivity].
  - reflexivity.
Defined.

(** X15 at a thread of 16 slots, for one turn of the loop. *)
Lemma thread_loop_is_safe_witness :
  match rounds ex_area_offset ex_area_length
          [mk_inputs false true true 5 1 9 (fun _ => 1)]
          (thread_start (repeat ex_free 16) ex_disk) with
  | Continue t =>
      slots_ok t /\ in_flight t <= MAX_IN_FLIGHT /\
      most_in_flight t <= MAX_IN_FLIGHT /\
      length (ramdisk t) = length ex_disk
  | GotoError => True
  | AssertFailed | Undefined => False
  end.
Proof.
  apply (thread_loop_is_safe ex_area_offset ex_area_length
           (repeat ex_free 16) ex_disk
           [mk_inputs false true true 5 1 9 (fun _ => 1)]).
  - reflexivity.
  - cbn [repeat]. repeat (constructor; [exact ex_buf_length|]). constructor.
  - exact ex_thread_areas_ok.
  - constructor; [|constructor]. split; [discriminate | reflexivity].
Defined.
